(** * VSR.DataLoader.Loader: patch extraction and batching

    A shallow embedding of [VSR/DataLoader/Loader.py] (classes [Loader] and
    [BatchLoader]) together with the properties of its patch accounting,
    crop geometry, quota handling and batching.

    Python integers are [Z]; [//] and [%] are [Z.div] and [Z.modulo] (both
    floor towards minus infinity, as in Python), and [/] is the quotient
    rounded to a binary64 float.  Exceptions are values of
    [exn], and a generator body is a computation that threads the loader's
    file handles and the process-wide random source and records what it
    yields. *)

From Stdlib Require Import ZArith QArith Qround Lia.
From Stdlib Require Import Ascii String.
From stdpp Require Import base list gmap strings.

Local Open Scope Z_scope.

(** ** Exceptions and results *)

Inductive exn :=
| StopIteration
| RuntimeError
| TypeError
| ValueError
| ZeroDivisionError
| AttributeError
| IndexError
| KeyError
| EOFError
| OverflowError.

(** The result of running a piece of Python: a value, a raised exception, or
    [OutOfFuel] when a [while True] loop was cut by the model's fuel. *)
Inductive outcome (A : Type) :=
| Return (a : A)
| Raise (e : exn)
| OutOfFuel.
Arguments Return {A} a.
Arguments Raise {A} e.
Arguments OutOfFuel {A}.

Definition obind {A B} (o : outcome A) (k : A -> outcome B) : outcome B :=
  match o with
  | Return a => k a
  | Raise e => Raise e
  | OutOfFuel => OutOfFuel
  end.

Declare Scope py_scope.
Delimit Scope py_scope with py.
Notation "'try' x ':=' m 'in' k" := (obind m (fun x => k))
  (at level 10, x pattern, m at level 100, k at level 200) : py_scope.
Local Open Scope py_scope.

(** [a // b] on Python integers. *)
Definition floordiv (a b : Z) : outcome Z :=
  if b =? 0 then Raise ZeroDivisionError else Return (a / b).

(** numpy's element-wise integer [//] and [%]: a zero divisor gives 0 (with a
    warning) instead of raising. *)
Definition np_floordiv (a b : Z) : Z := if b =? 0 then 0 else a / b.
Definition np_mod (a b : Z) : Z := if b =? 0 then 0 else a mod b.

(** ** Floating point

    [a / b] on Python integers is the true quotient as a binary64 float: the
    exact quotient rounded to the nearest value with a 53-bit significand,
    ties to even, gradual underflow below [2^-1022], [OverflowError] from
    [2^1024] on.  A finite float is kept as the pair of its integer
    significand and the exponent of its last place: [f_mant * 2^f_exp]. *)
Record float := mkFloat { f_mant : Z; f_exp : Z }.

(** [n / d] rounded to the nearest integer, ties to even ([0 <= n], [0 < d]). *)
Definition round_half_even (n d : Z) : Z :=
  let q := n / d in
  let r := n mod d in
  if 2 * r <? d then q
  else if d <? 2 * r then q + 1
  else if Z.even q then q else q + 1.

(** The binary exponent of [a / b]: the [l] with [2^l <= a / b < 2^(l+1)]
    ([0 < a], [0 < b]). *)
Definition ratio_log2 (a b : Z) : Z :=
  let d := Z.log2 a - Z.log2 b in
  if a * 2 ^ Z.max 0 (- d) <? b * 2 ^ Z.max 0 d then d - 1 else d.

(** [a / b] rounded to 53 significant bits, the last place no finer than
    [2^-1074] ([0 < a], [0 < b]). *)
Definition round_ratio (a b : Z) : float :=
  let e := Z.max (-1074) (ratio_log2 a b - 52) in
  mkFloat (round_half_even (a * 2 ^ Z.max 0 (- e)) (b * 2 ^ Z.max 0 e)) e.

(** The float is [2^1024] or more in magnitude. *)
Definition overflows (f : float) : bool :=
  (0 <=? f_exp f) && (2 ^ 1024 <=? f_mant f * 2 ^ f_exp f).

(** [a / b] on Python integers. *)
Definition true_div (a b : Z) : outcome float :=
  if b =? 0 then Raise ZeroDivisionError
  else if a =? 0 then Return (mkFloat 0 0)
  else
    let f := round_ratio (Z.abs a) (Z.abs b) in
    if overflows f then Raise OverflowError
    else Return (mkFloat (Z.sgn a * Z.sgn b * f_mant f) (f_exp f)).

(** [q == f] for an integer [q] and a float [f]: Python compares the two
    values exactly. *)
Definition float_eq_int (q : Z) (f : float) : bool :=
  if 0 <=? f_exp f then q =? f_mant f * 2 ^ f_exp f
  else q * 2 ^ (- f_exp f) =? f_mant f.

(** [int(np.ceil(f))] *)
Definition float_ceil (f : float) : Z :=
  if 0 <=? f_exp f then f_mant f * 2 ^ f_exp f
  else - ((- f_mant f) / 2 ^ (- f_exp f)).

(** [str.lower] and [str.upper] on ASCII strings. *)
Definition lower_ascii (c : ascii) : ascii :=
  let n := nat_of_ascii c in
  if ((65 <=? n) && (n <=? 90))%nat then ascii_of_nat (n + 32) else c.

Definition upper_ascii (c : ascii) : ascii :=
  let n := nat_of_ascii c in
  if ((97 <=? n) && (n <=? 122))%nat then ascii_of_nat (n - 32) else c.

Fixpoint lower (s : string) : string :=
  match s with
  | EmptyString => EmptyString
  | String c r => String (lower_ascii c) (lower r)
  end.

Fixpoint upper (s : string) : string :=
  match s with
  | EmptyString => EmptyString
  | String c r => String (upper_ascii c) (upper r)
  end.

(** ** Configuration attributes

    [scale], [patch_size] and [strides] are dynamically typed attributes: unset
    ([None] or an empty list, both falsy), one number, or a two-element
    (width, height) list. *)
Inductive attr :=
| Unset
| Scalar (z : Z)
| Pair (a b : Z).

(** [x or [w, h]] followed by the indexing [_[0]], [_[1]] of the result: a
    falsy [x] selects the default; a non-zero number is truthy and cannot be
    indexed. *)
Definition attr_or (x : attr) (dflt : Z * Z) : outcome (Z * Z) :=
  match x with
  | Unset => Return dflt
  | Scalar z => if z =? 0 then Return dflt else Raise TypeError
  | Pair a b => Return (a, b)
  end.

(** Modelled from the spec: [Utility.to_list(x, 2)] ([VSR/Util/Utility.py] is
    absent): "coerce scale, patch size, and stride each into a two-element
    (width, height) form (a scalar expands to both axes)". *)
Definition to_list (x : attr) : attr :=
  match x with
  | Scalar z => Pair z z
  | _ => x
  end.

(** Modelled from the spec: [Utility.shrink_mod_scale(x, scale)]
    ([VSR/Util/Utility.py] is absent): "shrink patch size and stride so each
    dimension is the largest value <= the original that is evenly divisible by
    the corresponding scale-axis value".  An unset value stays unset. *)
Definition shrink_mod_scale (x scale : attr) : outcome attr :=
  match x, scale with
  | Unset, _ => Return Unset
  | Pair a b, Pair sa sb =>
      if (sa =? 0) || (sb =? 0) then Raise ZeroDivisionError
      else Return (Pair (a - a mod sa) (b - b mod sb))
  | _, _ => Raise TypeError
  end.

(** ** Images

    Pixels are never inspected by the loader, so an image is the record of how
    it was obtained; its [size] follows PIL's rules. *)
Record Box := mkBox { b_left : Z; b_top : Z; b_right : Z; b_bottom : Z }.

Inductive Image :=
| Decoded (path : string) (index : Z) (w h : Z)
| Crop (box : Box) (src : Image)
| Resize (w h : Z) (src : Image)
| Convert (mode : string) (src : Image).

Fixpoint size (img : Image) : Z * Z :=
  match img with
  | Decoded _ _ w h => (w, h)
  | Crop b _ => (b_right b - b_left b, b_bottom b - b_top b)
  | Resize w h _ => (w, h)
  | Convert _ src => size src
  end.

(** [img.crop(box)] *)
Definition crop (box : Box) (img : Image) : Image := Crop box img.

(** [box // [*scale, *scale]] on a numpy array of four integers. *)
Definition box_floordiv (box : Box) (scale : attr) : outcome Box :=
  match scale with
  | Pair sx sy =>
      Return (mkBox (np_floordiv (b_left box) sx) (np_floordiv (b_top box) sy)
                    (np_floordiv (b_right box) sx) (np_floordiv (b_bottom box) sy))
  | Scalar s =>
      Raise TypeError
  | Unset => Raise ValueError
  end.

(** Modelled from the spec: [ImageProcess.shrink_to_multiple_scale(img, scale)]
    ([VSR/Util/ImageProcess.py] is absent): the frame is cropped at the origin
    so that its width and height become multiples of the scale ("scale-aligned",
    "non-integer after shrink"). *)
Definition shrink_to_multiple_scale (img : Image) (scale : attr) : outcome Image :=
  match scale with
  | Pair sx sy =>
      let '(w, h) := size img in
      Return (Crop (mkBox 0 0 (w - np_mod w sx) (h - np_mod h sy)) img)
  | _ => Raise TypeError
  end.

(** [np.ones(2) / scale]: the two per-axis shrink factors. *)
Definition np_ones_div (scale : attr) : outcome (Q * Q) :=
  match scale with
  | Pair sx sy => Return (1 / inject_Z sx, 1 / inject_Z sy)%Q
  | Scalar s => Return (1 / inject_Z s, 1 / inject_Z s)%Q
  | Unset => Raise TypeError
  end.

(** Modelled from the spec: [ImageProcess.bicubic_rescale(img, factor)]
    ([VSR/Util/ImageProcess.py] is absent): "a derived low-resolution sequence
    obtained by downsampling each by the scale factor"; the result has the
    size of the image times the factor, rounded down. *)
Definition bicubic_rescale (img : Image) (factor : Q * Q) : Image :=
  let '(w, h) := size img in
  Resize (Qfloor (inject_Z w * fst factor)) (Qfloor (inject_Z h * snd factor)) img.

(** ** Media file handles

    Modelled from the spec: [VirtualFile.ImageFile] and [VirtualFile.RawFile]
    ([VSR/DataLoader/VirtualFile.py] is absent): a handle "exposes frame count,
    per-read frame shape, a method to read the next N frames as decoded images,
    and a reopen/rewind operation"; [read_frame] "advances read cursor; raises
    if fewer than n remain"; [reopen] "resets cursor to start and refreshes
    frame_count".  A handle opened with [loop] rewinds once it is drained
    ("reads all remaining frames to reset read position"). *)
Record Media := { media_shape : Z * Z; media_frames : Z }.

Record VirtualFile := mkVirtualFile {
  vf_path : string;
  shape : Z * Z;
  n_frames : Z;
  cursor : Z;
  rewind : bool
}.

Definition frames (vf : VirtualFile) : Z := n_frames vf - cursor vf.

Definition seek (vf : VirtualFile) (pos : Z) : VirtualFile :=
  mkVirtualFile (vf_path vf) (shape vf) (n_frames vf) pos (rewind vf).

Definition reopen (vf : VirtualFile) : VirtualFile := seek vf 0.

Definition read_frame (n : Z) (vf : VirtualFile) : outcome (list Image) * VirtualFile :=
  if frames vf <? n then (Raise EOFError, vf)
  else
    let imgs := (fun i => Decoded (vf_path vf) i (fst (shape vf)) (snd (shape vf)))
                  <$> seqZ (cursor vf) n in
    let pos := cursor vf + Z.max 0 n in
    (Return imgs, seek vf (if rewind vf && (pos =? n_frames vf) then 0 else pos)).

Definition ImageFile (disk : string -> Media) (fp : string) (loop : bool) : VirtualFile :=
  mkVirtualFile fp (media_shape (disk fp)) (media_frames (disk fp)) 0 loop.

Definition RawFile (disk : string -> Media) (fp : string) (mode : string)
    (size : Z * Z) (loop : bool) : VirtualFile :=
  mkVirtualFile fp size (media_frames (disk fp)) 0 loop.

(** [o[0]] on a list. *)
Definition item0 {A} (l : list A) : outcome A :=
  match l with
  | [] => Raise IndexError
  | x :: _ => Return x
  end.

(** A list comprehension whose element expression may raise. *)
Fixpoint omap {A B} (f : A -> outcome B) (l : list A) : outcome (list B) :=
  match l with
  | [] => Return []
  | x :: r => try y := f x in try ys := omap f r in Return (y :: ys)
  end.

(** [range(start, stop, step)] *)
Definition py_range (start stop step : Z) : outcome (list Z) :=
  if step =? 0 then Raise ValueError
  else if 0 <? step then
    Return ((fun k => start + k * step) <$> seqZ 0 ((stop - start + step - 1) / step))
  else
    Return ((fun k => start + k * step) <$> seqZ 0 ((start - stop - step - 1) / (- step))).

(** ** The process-wide random source

    [np.random] is one global generator shared by [shuffle] and [randint].  It
    is modelled as an arbitrary infinite stream of raw draws and the number of
    draws consumed so far, so every sequence of results the real generator can
    produce is the behaviour of some [rng]. *)
Record rng := mkRng { entropy : nat -> Z; drawn : nat }.

Definition draw (bound : Z) (r : rng) : Z * rng :=
  (entropy r (drawn r) mod bound, mkRng (entropy r) (S (drawn r))).

(** [np.random.randint(low, high)]: uniform on [low, high), [ValueError] when
    the range is empty. *)
Definition randint (low high : Z) (r : rng) : outcome Z * rng :=
  if high <=? low then (Raise ValueError, r)
  else let '(k, r') := draw (high - low) r in (Return (low + k), r').

(** [x[i], x[j] = x[j], x[i]] *)
Definition swap {A} (l : list A) (i j : nat) : list A :=
  match l !! i, l !! j with
  | Some a, Some b => <[j := a]> (<[i := b]> l)
  | _, _ => l
  end.

(** [np.random.shuffle(x)]: in place, [for i in reversed(range(1, n))]: draw
    [j] in [0, i] and swap [x[i]] with [x[j]]. *)
Fixpoint shuffle_down {A} (i : nat) (l : list A) (r : rng) : list A * rng :=
  match i with
  | O => (l, r)
  | S i' =>
      let '(j, r') := draw (Z.of_nat i + 1) r in
      shuffle_down i' (swap l i (Z.to_nat j)) r'
  end.

Definition shuffle {A} (l : list A) (r : rng) : list A * rng :=
  shuffle_down (length l - 1) l r.

(** ** Generators

    A patch pair is what the loader yields: [(crop_hr, crop_lr)]. *)
Definition PatchPair : Type := list Image * list Image.

(** The state a generator body works on: the loader's file handles
    ([self.dataset], mutated by reading) and the random source. *)
Record state := mkState { handles : list VirtualFile; random_state : rng }.

(** Running a generator body to its end: what it yielded, in order, how it
    ended, and the state it left. *)
Record run (A : Type) := mkRun {
  emitted : list PatchPair;
  result : outcome A;
  final : state
}.
Arguments mkRun {A} _ _ _.
Arguments emitted {A} _.
Arguments result {A} _.
Arguments final {A} _.

Definition gen (A : Type) : Type := state -> run A.

Definition gret {A} (a : A) : gen A := fun s => mkRun [] (Return a) s.

Definition gbind {A B} (m : gen A) (k : A -> gen B) : gen B :=
  fun s =>
    let r := m s in
    match result r with
    | Return a =>
        let r' := k a (final r) in
        mkRun (emitted r ++ emitted r') (result r') (final r')
    | Raise e => mkRun (emitted r) (Raise e) (final r)
    | OutOfFuel => mkRun (emitted r) OutOfFuel (final r)
    end.

Notation "'let*' x ':=' m 'in' k" := (gbind m (fun x => k))
  (at level 10, x pattern, m at level 100, k at level 200) : py_scope.

(** [yield p] *)
Definition yield (p : PatchPair) : gen unit := fun s => mkRun [p] (Return tt) s.

(** An expression that may raise, evaluated inside a generator body. *)
Definition lift {A} (o : outcome A) : gen A := fun s => mkRun [] o s.

Definition out_of_fuel {A} : gen A := fun s => mkRun [] OutOfFuel s.

(** [for x in l: body] *)
Fixpoint for_ {A} (l : list A) (body : A -> gen unit) : gen unit :=
  match l with
  | [] => gret tt
  | x :: r => let* _ := body x in for_ r body
  end.

(** [for vf in self.dataset: body]; [vf] is a reference to the handle, here its
    position in the collection. *)
Definition for_dataset (body : nat -> gen unit) : gen unit :=
  fun s => for_ (seq 0 (length (handles s))) body s.

(** [vf.frames] *)
Definition vf_frames (i : nat) : gen Z :=
  fun s =>
    match handles s !! i with
    | Some vf => mkRun [] (Return (frames vf)) s
    | None => mkRun [] (Raise IndexError) s
    end.

(** [vf.read_frame(n)] *)
Definition vf_read_frame (i : nat) (n : Z) : gen (list Image) :=
  fun s =>
    match handles s !! i with
    | Some vf =>
        let '(o, vf') := read_frame n vf in
        mkRun [] o (mkState (<[i := vf']> (handles s)) (random_state s))
    | None => mkRun [] (Raise IndexError) s
    end.

(** [vf.reopen()] *)
Definition vf_reopen (i : nat) : gen unit :=
  fun s =>
    match handles s !! i with
    | Some vf => mkRun [] (Return tt) (mkState (<[i := reopen vf]> (handles s)) (random_state s))
    | None => mkRun [] (Raise IndexError) s
    end.

(** [np.random.randint(low, high)] inside a generator body. *)
Definition g_randint (low high : Z) : gen Z :=
  fun s =>
    let '(o, r) := randint low high (random_state s) in
    mkRun [] o (mkState (handles s) r).

(** A generator object: the elements it has still to yield and the way its body
    ends after them.  The body runs on the handles and the random source as
    they are when the generator is created; nothing else touches them while it
    is consumed. *)
Record generator := mkGenerator { pending : list PatchPair; finish : outcome unit }.

Definition make_generator (body : gen unit) (s : state) : generator :=
  let r := body s in mkGenerator (emitted r) (result r).

(** [next(g)].  Falling off the end of the body raises [StopIteration] to the
    consumer.  An exception that escapes the body reaches the consumer and
    closes the generator; with [generator_stop] (PEP 479, the semantics of
    every Python from 3.7 on) a [StopIteration] that escapes the body is
    replaced by [RuntimeError]. *)
Definition next_with (generator_stop : bool) (g : generator)
    : outcome PatchPair * generator :=
  match pending g with
  | p :: rest => (Return p, mkGenerator rest (finish g))
  | [] =>
      match finish g with
      | Return _ => (Raise StopIteration, g)
      | Raise StopIteration =>
          (Raise (if generator_stop then RuntimeError else StopIteration),
           mkGenerator [] (Return tt))
      | Raise e => (Raise e, mkGenerator [] (Return tt))
      | OutOfFuel => (OutOfFuel, g)
      end
  end.

Definition next : generator -> outcome PatchPair * generator := next_with true.

(** ** The dataset descriptor

    Modelled from the spec: [Dataset] ([VSR/DataLoader/Dataset.py] is absent):
    "file-path list per method (train/val/test), pixel format/mode, per-file
    width/height (for raw formats), patch size, stride, depth, scale factor,
    random-mode flag, maximum patch quota".  [dataset.__getattr__(name)] gives
    "access to per-method file list": the list object the descriptor holds, so
    a change made to it in place is a change of the descriptor. *)
Record Dataset := mkDataset {
  ds_files : gmap string (list string);
  ds_mode : string;
  ds_width : Z;
  ds_height : Z;
  ds_patch_size : attr;
  ds_scale : attr;
  ds_strides : attr;
  ds_depth : attr;
  ds_random : bool;
  ds_max_patches : Z
}.

Definition set_files (d : Dataset) (m : gmap string (list string)) : Dataset :=
  mkDataset m (ds_mode d) (ds_width d) (ds_height d) (ds_patch_size d)
            (ds_scale d) (ds_strides d) (ds_depth d) (ds_random d) (ds_max_patches d).

(** What the loader needs from outside the program: the media behind each
    path, and the constant [_ALLOWED_RAW_FORMAT] of the absent
    [VirtualFile.py]. *)
Record Env := mkEnv {
  disk : string -> Media;
  _ALLOWED_RAW_FORMAT : list string
}.

(** An integer-valued attribute used as a number. *)
Definition as_int (x : attr) : outcome Z :=
  match x with
  | Scalar z => Return z
  | _ => Raise TypeError
  end.

(** Truthiness of an attribute value. *)
Definition truthy (x : attr) : bool :=
  match x with
  | Unset => false
  | Scalar z => negb (z =? 0)
  | Pair _ _ => true
  end.

(** ** class Loader *)
Module Loader.

Record t := mk {
  length_ : Z;
  mode : string;
  dataset : option (list VirtualFile);
  patch_size : attr;
  scale : attr;
  strides : attr;
  depth : attr;
  batch_iterator : option generator;
  loop : bool;
  random : bool;
  max_patches : Z;
  built : bool
}.

Definition set_batch_iterator (self : t) (it : option generator) : t :=
  mk (length_ self) (mode self) (dataset self) (patch_size self) (scale self)
     (strides self) (depth self) it (loop self) (random self)
     (max_patches self) (built self).

(** [Loader.__init__(self, dataset, method, loop)].  The [isinstance] test is
    the type of [dataset].  The file list is shuffled in place, so the
    descriptor is returned together with the new loader and the random source.
    When the mode is neither ['pil-image'] nor an allowed raw format,
    [self.dataset] is never assigned ([None] here). *)
Definition __init__ (env : Env) (dataset : Dataset) (method : string) (loop : bool)
    (r : rng) : outcome t * Dataset * rng :=
  match ds_files dataset !! lower method with
  | None => (Raise AttributeError, dataset, r)
  | Some dataset_file =>
      let '(dataset_file, r) := shuffle dataset_file r in
      let dataset := set_files dataset (<[lower method := dataset_file]> (ds_files dataset)) in
      let handles :=
        if String.eqb (lower (ds_mode dataset)) "pil-image" then
          Some ((fun fp => ImageFile (disk env) fp loop) <$> dataset_file)
        else if bool_decide (upper (ds_mode dataset) ∈ _ALLOWED_RAW_FORMAT env) then
          Some ((fun fp => RawFile (disk env) fp (ds_mode dataset)
                             (ds_width dataset, ds_height dataset) loop) <$> dataset_file)
        else None in
      (Return (mk (Z.of_nat (length dataset_file)) (ds_mode dataset) handles
                  (ds_patch_size dataset) (ds_scale dataset) (ds_strides dataset)
                  (ds_depth dataset) None loop
                  (ds_random dataset && negb (String.eqb method "test"))
                  (ds_max_patches dataset) false),
       dataset, r)
  end.

(** [Loader.__iter__] *)
Definition __iter__ (self : t) : option generator := batch_iterator self.

(** [Loader.__next__]: the value of [next(self.batch_iterator)] is dropped and
    the method falls off its end, returning [None]. *)
Definition __next__ (self : t) : outcome (option PatchPair) * t :=
  if negb (built self) then (Raise RuntimeError, self)
  else
    match batch_iterator self with
    | None => (Raise TypeError, self)
    | Some g =>
        let '(o, g') := next g in
        (try _ := o in Return None, set_batch_iterator self (Some g'))
    end.

(** [Loader.__len__] *)
Definition __len__ (self : t) : outcome Z :=
  if random self then Return (max_patches self)
  else
    match dataset self with
    | None => Raise AttributeError
    | Some ds =>
        foldl (fun acc vf =>
                 try n_patches := acc in
                 let '(w, h) := shape vf in
                 try sr := attr_or (strides self) (w, h) in
                 try sz := attr_or (patch_size self) (w, h) in
                 try nw := floordiv (w - fst sz) (fst sr) in
                 try nh := floordiv (h - snd sz) (snd sr) in
                 Return (n_patches + (nw + 1) * (nh + 1)))
              (Return 0) ds
    end.

(** The body of [for h in range(0, height, strides[1])] in [_build_iter]. *)
Definition grid_cell (self : t) (frames_hr frames_lr : list Image)
    (width height : Z) (patch_size : Z * Z) (w h : Z) : gen unit :=
  if (w + fst patch_size >? width) || (h + snd patch_size >? height) then
    gret tt
  else
    let box := mkBox w h (w + fst patch_size) (h + snd patch_size) in
    let crop_hr := crop box <$> frames_hr in
    let* crop_lr := lift (omap (fun img => try b := box_floordiv box (scale self) in
                                           Return (crop b img)) frames_lr) in
    yield (crop_hr, crop_lr).

(** The body of [for _ in range(vf.frames // self.depth)] in [_build_iter]:
    one depth-group of frames and its grid of patches. *)
Definition grid_group (self : t) (i : nat) : gen unit :=
  let* depth := lift (as_int (depth self)) in
  let* imgs := vf_read_frame i depth in
  let* frames_hr := lift (omap (fun img => shrink_to_multiple_scale img (scale self)) imgs) in
  let* frames_lr := lift (omap (fun img => try factor := np_ones_div (scale self) in
                                            Return (bicubic_rescale img factor)) frames_hr) in
  let* first := lift (item0 frames_hr) in
  let '(width, height) := size first in
  let* strides := lift (attr_or (strides self) (width, height)) in
  let* patch_size := lift (attr_or (patch_size self) (width, height)) in
  let* ws := lift (py_range 0 width (fst strides)) in
  for_ ws (fun w =>
    let* hs := lift (py_range 0 height (snd strides)) in
    for_ hs (fun h => grid_cell self frames_hr frames_lr width height patch_size w h)).

(** Reading the attribute [self.dataset], which [__init__] may have left
    unassigned. *)
Definition self_dataset (self : t) : gen unit :=
  lift (match dataset self with
        | None => Raise AttributeError
        | Some _ => Return tt
        end).

(** The body of [for vf in self.dataset] in [_build_iter]. *)
Definition grid_file (self : t) (i : nat) : gen unit :=
  let* n := vf_frames i in
  let* depth := lift (as_int (depth self)) in
  let* groups := lift (floordiv n depth) in
  let* _ := for_ (seqZ 0 groups) (fun _ => grid_group self i) in
  let* rest := vf_frames i in
  let* _ := vf_read_frame i rest in
  gret tt.

(** One traversal of [for vf in self.dataset] in [_build_iter]. *)
Definition grid_pass (self : t) : gen unit :=
  let* _ := self_dataset self in
  for_dataset (grid_file self).

(** [Loader._build_iter]: [while True: ...; if not self.loop: break].  [fuel]
    bounds the number of traversals the model unrolls. *)
Fixpoint _build_iter (fuel : nat) (self : t) : gen unit :=
  match fuel with
  | O => out_of_fuel
  | S fuel =>
      let* _ := grid_pass self in
      if loop self then _build_iter fuel self else gret tt
  end.

(** [for _ in range(patch_per_file)] in [_build_random_iter]: the loop carries
    [patch_counter]. *)
Fixpoint random_patches (self : t) (frames_hr frames_lr : list Image)
    (width height : Z) (patch_size : Z * Z) (n : nat) (patch_counter : Z) : gen Z :=
  match n with
  | O => gret patch_counter
  | S n =>
      if patch_counter >=? max_patches self then lift (Raise StopIteration)
      else
        let* x := g_randint 0 (width - fst patch_size + 1) in
        let* y := g_randint 0 (height - snd patch_size + 1) in
        let box := mkBox x y (x + fst patch_size) (y + snd patch_size) in
        let crop_hr := crop box <$> frames_hr in
        let* crop_lr := lift (omap (fun img => try b := box_floordiv box (scale self) in
                                               Return (crop b img)) frames_lr) in
        let patch_counter := patch_counter + 1 in
        let* _ := yield (crop_hr, crop_lr) in
        random_patches self frames_hr frames_lr width height patch_size n patch_counter
  end.

(** The body of [for _ in range(vf.frames // self.depth)] in
    [_build_random_iter]. *)
Definition random_group (self : t) (i : nat) (patch_per_file : Z) (patch_counter : Z)
    : gen Z :=
  let* depth := lift (as_int (depth self)) in
  let* imgs := vf_read_frame i depth in
  let* frames_hr := lift (omap (fun img => shrink_to_multiple_scale img (scale self)) imgs) in
  let* frames_lr := lift (omap (fun img => try factor := np_ones_div (scale self) in
                                            Return (bicubic_rescale img factor)) frames_hr) in
  let* first := lift (item0 frames_hr) in
  let '(width, height) := size first in
  let* patch_size := lift (attr_or (patch_size self) (width, height)) in
  random_patches self frames_hr frames_lr width height patch_size
                 (Z.to_nat patch_per_file) patch_counter.

(** A loop that carries a counter through [n] rounds. *)
Fixpoint repeat_ (n : nat) (body : Z -> gen Z) (c : Z) : gen Z :=
  match n with
  | O => gret c
  | S n => let* c := body c in repeat_ n body c
  end.

(** [for vf in self.dataset] with the carried [patch_counter]. *)
Fixpoint for_files (l : list nat) (body : nat -> Z -> gen Z) (c : Z) : gen Z :=
  match l with
  | [] => gret c
  | i :: r => let* c := body i c in for_files r body c
  end.

(** [patch_per_file]: the floor quotient, plus one when it differs from the
    float [max_patches / length]. *)
Definition patch_per_file (max_patches length : Z) : outcome Z :=
  try patch_per_file := floordiv max_patches length in
  try quotient := true_div max_patches length in
  Return (patch_per_file + (if float_eq_int patch_per_file quotient then 0 else 1)).

(** The body of [for vf in self.dataset] in [_build_random_iter]. *)
Definition random_file (self : t) (patch_per_file : Z) (i : nat) (patch_counter : Z)
    : gen Z :=
  let* n := vf_frames i in
  let* _ := if n =? 0 then vf_reopen i else gret tt in
  let* n := vf_frames i in
  let* depth := lift (as_int (depth self)) in
  let* groups := lift (floordiv n depth) in
  repeat_ (Z.to_nat groups)
          (fun patch_counter => random_group self i patch_per_file patch_counter)
          patch_counter.

(** [Loader._build_random_iter] *)
Definition _build_random_iter (self : t) : gen unit :=
  let patch_counter := 0 in
  let* patch_per_file := lift (patch_per_file (max_patches self) (length_ self)) in
  let* _ := self_dataset self in
  let* _ := fun s =>
    for_files (seq 0 (length (handles s))) (random_file self patch_per_file)
              patch_counter s in
  gret tt.

(** [**kwargs] of [build_loader]: an override applies when the key is present
    and its value is truthy. *)
Definition override (kwargs : gmap string attr) (name : string) (current : attr) : attr :=
  match kwargs !! name with
  | Some v => if truthy v then v else current
  | None => current
  end.

(** [Loader.build_loader(self, crop, **kwargs)].  The generator is created over
    the loader's handles and the random source [r] of that moment; [fuel]
    bounds the traversals of a looping deterministic generator. *)
Definition build_loader (fuel : nat) (crop : bool) (kwargs : gmap string attr)
    (r : rng) (self : t) : outcome t :=
  let scale := override kwargs "scale" (scale self) in
  let patch_size := override kwargs "patch_size" (patch_size self) in
  let strides := override kwargs "strides" (strides self) in
  let depth := override kwargs "depth" (depth self) in
  let scale := to_list scale in
  let patch_size := to_list patch_size in
  let strides := to_list strides in
  try patch_size := (if crop then shrink_mod_scale patch_size scale else Return Unset) in
  try strides := (if crop then shrink_mod_scale strides scale else Return Unset) in
  let self := mk (length_ self) (mode self) (dataset self) patch_size scale strides depth
                 (batch_iterator self) (loop self) (random self) (max_patches self)
                 (built self) in
  let s := mkState (default [] (dataset self)) r in
  let it := if random self then make_generator (_build_random_iter self) s
            else make_generator (_build_iter fuel self) s in
  Return (mk (length_ self) (mode self) (dataset self) patch_size scale strides depth
             (Some it) (loop self) (random self) (max_patches self) true).

End Loader.

(** ** numpy arrays

    Modelled from the spec: [ImageProcess.img_to_array] ([ImageProcess.py] is
    absent) turns an image into a (height, width, channels) array ("each
    batch's array shape matches (batch_count, height, width, channels) after
    depth-axis reduction").  An array is the record of how it was assembled. *)
#[warnings="-register-all"] Inductive ndarray :=
| Pixels (img : Image)
| Stack (items : list ndarray)
| Squeezed (axis : nat) (a : ndarray).

(** [ImageProcess.img_to_array(img)] *)
Definition img_to_array (img : Image) : ndarray := Pixels img.

(** [img.convert(mode)] *)
Definition convert (mode : string) (img : Image) : Image := Convert mode img.

Definition channels (img : Image) : Z :=
  match img with
  | Convert "L" _ => 1
  | _ => 3
  end.

Fixpoint nd_shape (a : ndarray) : list Z :=
  match a with
  | Pixels img => [snd (size img); fst (size img); channels img]
  | Stack items =>
      Z.of_nat (length items) :: match items with
                                 | x :: _ => nd_shape x
                                 | [] => []
                                 end
  | Squeezed axis a => delete axis (nd_shape a)
  end.

(** [np.stack(arrays)]: [ValueError] for an empty list or differing shapes. *)
Definition np_stack (arrays : list ndarray) : outcome ndarray :=
  match arrays with
  | [] => Raise ValueError
  | x :: r =>
      if forallb (fun y => bool_decide (nd_shape y = nd_shape x)) r
      then Return (Stack arrays) else Raise ValueError
  end.

(** [np.squeeze(a, axis)]: [ValueError] unless that axis has length one. *)
Definition np_squeeze (a : ndarray) (axis : nat) : outcome ndarray :=
  match nd_shape a !! axis with
  | Some 1 => Return (Squeezed axis a)
  | _ => Raise ValueError
  end.

(** [len(obj)]: a negative [__len__] is a [ValueError]. *)
Definition py_len (o : outcome Z) : outcome Z :=
  try n := o in if n <? 0 then Raise ValueError else Return n.

(** [iter(obj)] on the value returned by [obj.__iter__()]: [None] is not an
    iterator. *)
Definition py_iter (it : option generator) : outcome generator :=
  match it with
  | Some g => Return g
  | None => Raise TypeError
  end.

(** ** class BatchLoader *)
Module BatchLoader.

Record t := mk {
  loader : Loader.t;
  batch : Z;
  to_gray : bool
}.

(** What [_load_batch] returns: two stacked arrays, or the two empty lists. *)
Inductive batch_value :=
| Arrays (hr lr : ndarray)
| EmptyLists.

(** [BatchLoader.__init__]: the call of [build_loader] unpacks [kwargs], so a
    ['crop'] key is bound to the parameter [crop] of [build_loader], whose
    default is [True]; the other keys are its [**kwargs]. *)
Definition __init__ (env : Env) (fuel : nat) (batch_size : Z) (dataset : Dataset)
    (method : string) (loop : bool) (convert_to_gray : bool)
    (kwargs : gmap string attr) (r : rng) : outcome t * Dataset * rng :=
  let '(o, dataset, r) := Loader.__init__ env dataset method loop r in
  let crop := match kwargs !! "crop" with
              | Some v => truthy v
              | None => true
              end in
  (try loader := o in
   try loader := Loader.build_loader fuel crop (delete "crop" kwargs) r loader in
   Return (mk loader batch_size convert_to_gray),
   dataset, r).

(** [BatchLoader.__iter__] *)
Definition __iter__ (self : t) : t := self.

(** The body of [for hr, lr in self.loader] up to the two [append]s. *)
Definition to_arrays (to_gray : bool) (p : PatchPair) : outcome (ndarray * ndarray) :=
  let '(hr, lr) := p in
  let mode := if to_gray then "L" else "YCbCr" in
  let hr := convert mode <$> hr in
  let lr := convert mode <$> lr in
  try a := np_stack (img_to_array <$> hr) in
  try b := np_stack (img_to_array <$> lr) in
  Return (a, b).

(** [for hr, lr in self.loader: ...] and the code after the loop.  Each round
    asks the generator for its next element; [fuel] is the number of rounds
    allowed. *)
Fixpoint load_loop (fuel : nat) (self : t) (g : generator)
    (batch_hr batch_lr : list ndarray) : outcome batch_value * generator :=
  match fuel with
  | O => (OutOfFuel, g)
  | S fuel =>
      let '(o, g) := next g in
      match o with
      | Return p =>
          match to_arrays (to_gray self) p with
          | Return (a, b) =>
              let batch_hr := batch_hr ++ [a] in
              let batch_lr := batch_lr ++ [b] in
              if Z.of_nat (length batch_hr) =? batch self then
                (try hr := np_stack batch_hr in
                 try lr := np_stack batch_lr in
                 Return (Arrays hr lr), g)
              else load_loop fuel self g batch_hr batch_lr
          | Raise e => (Raise e, g)
          | OutOfFuel => (OutOfFuel, g)
          end
      | Raise StopIteration =>
          if negb (bool_decide (batch_hr = [])) && negb (bool_decide (batch_lr = [])) then
            (try hr := np_stack batch_hr in
             try lr := np_stack batch_lr in
             Return (Arrays hr lr), g)
          else (Return EmptyLists, g)
      | Raise e => (Raise e, g)
      | OutOfFuel => (OutOfFuel, g)
      end
  end.

Definition set_loader (self : t) (l : Loader.t) : t :=
  mk l (batch self) (to_gray self).

(** [BatchLoader._load_batch]; the loop gets one round per pending element and
    one for the end of the generator. *)
Definition _load_batch (self : t) : outcome batch_value * t :=
  match py_iter (Loader.__iter__ (loader self)) with
  | Return g =>
      let '(o, g) := load_loop (S (length (pending g))) self g [] [] in
      (o, set_loader self (Loader.set_batch_iterator (loader self) (Some g)))
  | Raise e => (Raise e, self)
  | OutOfFuel => (OutOfFuel, self)
  end.

(** [BatchLoader.__next__] *)
Definition __next__ (self : t) : outcome (ndarray * ndarray) * t :=
  let '(o, self) := _load_batch self in
  match o with
  | Return (Arrays hr lr) =>
      match (try a := np_squeeze hr 1 in try b := np_squeeze lr 1 in Return (a, b)) with
      | Raise ValueError => (Return (hr, lr), self)
      | squeezed => (squeezed, self)
      end
  | Return EmptyLists => (Raise StopIteration, self)
  | Raise e => (Raise e, self)
  | OutOfFuel => (OutOfFuel, self)
  end.

(** [BatchLoader.__len__]: [int(np.ceil(len(self.loader) / self.batch))] *)
Definition __len__ (self : t) : outcome Z :=
  try n := py_len (Loader.__len__ (loader self)) in
  try steps := true_div n (batch self) in
  Return (float_ceil steps).

End BatchLoader.

(** * Specification vocabulary *)

(** [emits P m]: whatever the state, every pair [m] yields satisfies [P]. *)
Definition emits {A} (P : PatchPair -> Prop) (m : gen A) : Prop :=
  forall s, Forall P (emitted (m s)).

(** [returns Q m]: whatever the state, a value returned by [m] satisfies [Q]. *)
Definition returns {A} (Q : A -> Prop) (m : gen A) : Prop :=
  forall s a, result (m s) = Return a -> Q a.



(** Frames read from one handle are decoded images of one size. *)
Definition decoded_as (W H : Z) (img : Image) : Prop :=
  exists p k, img = Decoded p k W H.

(** A high-resolution frame after [shrink_to_multiple_scale]. *)
Definition shrunk_from (sx sy W H : Z) (f : Image) : Prop :=
  exists p k, f = Crop (mkBox 0 0 (W - np_mod W sx) (H - np_mod H sy)) (Decoded p k W H).

(** The high-resolution crops of a pair lie inside the decoded frames they are
    cut from: [right <= W] and [bottom <= H]. *)
Definition within_frame (pair : PatchPair) : Prop :=
  Forall (fun img => exists box fb p k W H,
            img = Crop box (Crop fb (Decoded p k W H))
            /\ b_right box <= W /\ b_bottom box <= H) pair.1.

(** The normalized patch fits the (shrunk) frames of a handle, so the range of
    random origins is not empty. *)
Definition patch_fits (self : Loader.t) (sx sy : Z) (vf : VirtualFile) : Prop :=
  let W := (shape vf).1 - np_mod (shape vf).1 sx in
  let H := (shape vf).2 - np_mod (shape vf).2 sy in
  match attr_or (Loader.patch_size self) (W, H) with
  | Return (pw, ph) => pw <= W /\ ph <= H
  | _ => False
  end.

(** A handle as the random traversal first sees it: reopened when it reports
    no frames. *)
Definition opened (vf : VirtualFile) : VirtualFile :=
  if frames vf =? 0 then reopen vf else vf.

(** The depth-groups a handle supplies at depth [d]. *)
Definition groups (d : Z) (vf : VirtualFile) : Z := frames (opened vf) / d.

(** The patches a collection can supply at [q] patches per depth-group. *)
Definition supply (d q : Z) (hs : list VirtualFile) : Z :=
  foldr (fun vf acc => groups d vf * q + acc) 0 hs.

(** A handle the random traversal can use: its cursor is inside the file and
    the patch fits its frames. *)
Definition ready (self : Loader.t) (sx sy : Z) (vf : VirtualFile) : Prop :=
  0 <= cursor vf <= n_frames vf /\ patch_fits self sx sy vf.

(** The generator after [k] calls of [next]. *)
Fixpoint advance (k : nat) (g : generator) : generator :=
  match k with
  | O => g
  | S k => advance k (next g).2
  end.

(** A pair the batch loader can turn into arrays of the given shapes. *)
Definition well_shaped (to_gray : bool) (sh_hr sh_lr : list Z) (p : PatchPair) : Prop :=
  exists a b, BatchLoader.to_arrays to_gray p = Return (a, b)
              /\ nd_shape a = sh_hr /\ nd_shape b = sh_lr.

(** The batch loader draws from a generator that will yield exactly [ps] and
    then end normally. *)
Definition feeds (self : BatchLoader.t) (ps : list PatchPair) : Prop :=
  Loader.batch_iterator (BatchLoader.loader self) = Some (mkGenerator ps (Return tt)).

(** The results of [k] successive calls of [BatchLoader.__next__]. *)
Fixpoint nexts (k : nat) (self : BatchLoader.t) : list (outcome (ndarray * ndarray)) :=
  match k with
  | O => []
  | S k => let '(o, self) := BatchLoader.__next__ self in o :: nexts k self
  end.

(** The number of pairs in a batch: the length of the first axis of its two
    arrays. *)
Definition batch_len (o : outcome (ndarray * ndarray)) : outcome (option Z * option Z) :=
  try b := o in Return (head (nd_shape b.1), head (nd_shape b.2)).

(** What a consumer sees of a stream of [n] pairs cut into batches of [b]. *)
Definition batches_of (n b : Z) : list (outcome (option Z * option Z)) :=
  replicate (Z.to_nat (n / b)) (Return (Some b, Some b))
  ++ (if n mod b =? 0 then [] else [Return (Some (n mod b), Some (n mod b))])
  ++ [Raise StopIteration].

(** The low-resolution box is the high-resolution box divided by the scale
    with no remainder. *)
Definition exactly_scaled (sx sy : Z) (hr lr : Box) : Prop :=
  b_left lr * sx = b_left hr /\ b_top lr * sy = b_top hr
  /\ b_right lr * sx = b_right hr /\ b_bottom lr * sy = b_bottom hr.

(** The two sides of a pair are cut with boxes that are exactly scaled. *)
Definition aligned (sx sy : Z) (pair : PatchPair) : Prop :=
  exists box_hr box_lr,
    Forall (fun img => exists f, img = Crop box_hr f) pair.1
    /\ Forall (fun img => exists f, img = Crop box_lr f) pair.2
    /\ exactly_scaled sx sy box_hr box_lr.

(** A patch size or stride as [build_loader] leaves it: unset, or a multiple
    of the scale on both axes. *)
Definition normalized (sx sy : Z) (a : attr) : Prop :=
  match a with
  | Pair x y => x mod sx = 0 /\ y mod sy = 0
  | _ => True
  end.

(** The number of elements of a list that pass a test. *)
Definition count_if {A} (f : A -> bool) (l : list A) : nat := length (List.filter f l).

(** The closed form of [__len__] for one frame:
    [((w - pw) // sw + 1) * ((h - ph) // sh + 1)]. *)
Definition grid_cells (w h sw sh pw ph : Z) : Z :=
  ((w - pw) / sw + 1) * ((h - ph) / sh + 1).

(** What [__len__] adds up over a collection, and what one pass of the grid
    yields over it at depth [d]: the same closed form, once per file and once
    per depth-group. *)
Definition len_total (sw sh pw ph : Z) (hs : list VirtualFile) : Z :=
  foldr (fun vf acc => grid_cells (shape vf).1 (shape vf).2 sw sh pw ph + acc) 0 hs.

Definition pass_total (d sw sh pw ph : Z) (hs : list VirtualFile) : Z :=
  foldr (fun vf acc => frames vf / d * grid_cells (shape vf).1 (shape vf).2 sw sh pw ph + acc)
        0 hs.

(** A handle the grid traversal can use: its cursor is inside the file and the
    patch fits its (shrunk) frames. *)
Definition grid_ready (sx sy pw ph : Z) (vf : VirtualFile) : Prop :=
  0 <= cursor vf <= n_frames vf
  /\ pw <= (shape vf).1 - np_mod (shape vf).1 sx
  /\ ph <= (shape vf).2 - np_mod (shape vf).2 sy.

(** * Example inputs *)

(** Every path is a medium of the given size and frame count. *)
Definition uniform_disk (w h n : Z) : string -> Media :=
  fun _ => {| media_shape := (w, h); media_frames := n |}.

Definition example_env (w h n : Z) : Env := mkEnv (uniform_disk w h n) ["YV12"%string].

(** A random source whose raw draws are 1, 8, 15, ... *)
Definition example_rng : rng := mkRng (fun n => Z.of_nat n * 7 + 1) 0.

(** A dataset of [paths] with 4x4 patches, stride 4, scale 2 and depth 1. *)
Definition example_dataset (mode : string) (paths : list string) (random : bool)
    (max_patches : Z) : Dataset :=
  mkDataset {[ "train"%string := paths ]} mode 8 8 (Pair 4 4) (Pair 2 2) (Pair 4 4)
            (Scalar 1) random max_patches.

(** [Loader(dataset, 'train')] followed by [build_loader()]. *)
Definition example_loader (env : Env) (dataset : Dataset) : outcome Loader.t :=
  let '(o, _, r) := Loader.__init__ env dataset "train" false example_rng in
  try loader := o in Loader.build_loader 1 true ∅ r loader.

(** A still image of 8x8 pixels behind an unread handle. *)
Definition still (fp : string) : VirtualFile := mkVirtualFile fp (8, 8) 1 0 false.

(** Five stills and a quota of 17 patches (4 per file): a loader in random
    mode as [__init__] and [build_loader] leave it. *)
Definition quota_loader : Loader.t :=
  Loader.mk 5 "pil-image" (Some (still <$> ["a"; "b"; "c"; "d"; "e"]%string))
            (Pair 4 4) (Pair 2 2) (Pair 4 4) (Scalar 1) None false true 17 false.

Definition quota_state : state :=
  mkState (still <$> ["a"; "b"; "c"; "d"; "e"]%string) example_rng.

(** One still, cut on a grid: a loader in deterministic mode. *)
Definition grid_loader : Loader.t :=
  Loader.mk 1 "pil-image" (Some [still "a"])
            (Pair 4 4) (Pair 2 2) (Pair 4 4) (Scalar 1) None false false 0 false.

Definition grid_state : state := mkState [still "a"] example_rng.

(** A still image of 20x8 pixels, its loader in deterministic mode, and the ten
    patches one pass over it yields. *)
Definition wide_still (fp : string) : VirtualFile := mkVirtualFile fp (20, 8) 1 0 false.

Definition wide_loader : Loader.t :=
  Loader.mk 1 "pil-image" (Some [wide_still "a"])
            (Pair 4 4) (Pair 2 2) (Pair 4 4) (Scalar 1) None false false 0 false.

Definition ten_patches : list PatchPair :=
  Eval vm_compute in
    emitted (Loader._build_iter 1 wide_loader (mkState [wide_still "a"] example_rng)).

(** The loader of the 20x8 still once built, its generator having still to
    yield [ps]. *)
Definition loader_feeding (ps : list PatchPair) : Loader.t :=
  Loader.mk 1 "pil-image" (Some [wide_still "a"])
            (Pair 4 4) (Pair 2 2) (Pair 4 4) (Scalar 1)
            (Some (mkGenerator ps (Return tt))) false false 0 true.

(** Ten patches in batches of four. *)
Definition example_batch_loader : BatchLoader.t :=
  BatchLoader.mk (loader_feeding ten_patches) 4 true.

(** A raw clip of three 8x8 frames behind an unread handle, and its loader in
    deterministic mode. *)
Definition clip (fp : string) : VirtualFile := mkVirtualFile fp (8, 8) 3 0 false.

Definition clip_loader : Loader.t :=
  Loader.mk 1 "YV12" (Some [clip "v"])
            (Pair 4 4) (Pair 2 2) (Pair 4 4) (Scalar 1) None false false 0 false.

Definition clip_state : state := mkState [clip "v"] example_rng.

(** Two handles read in pairs of frames, the second too short for one pair:
    a loader in random mode whose files cannot supply its quota of 5. *)
Definition short_loader : Loader.t :=
  Loader.mk 2 "YV12"
            (Some [mkVirtualFile "v" (8, 8) 2 0 false; mkVirtualFile "w" (8, 8) 1 0 false])
            (Pair 4 4) (Pair 2 2) (Pair 4 4) (Scalar 2) None false true 5 false.

Definition short_state : state :=
  mkState [mkVirtualFile "v" (8, 8) 2 0 false; mkVirtualFile "w" (8, 8) 1 0 false]
          example_rng.

(** The high-resolution crops of a pair are cut, with a box that lies inside
    it, from a decoded frame. *)
Definition inside_frame (pair : PatchPair) : Prop :=
  Forall (fun img => exists box fb p k W H,
            img = Crop box (Crop fb (Decoded p k W H))
            /\ 0 <= b_left box /\ 0 <= b_top box
            /\ b_right box <= W /\ b_bottom box <= H) pair.1.

(** Both sides of a pair hold [d] images, of size [hr] and [lr]. *)
Definition patch_sized (d : nat) (hr lr : Z * Z) (pair : PatchPair) : Prop :=
  length pair.1 = d /\ Forall (fun img => size img = hr) pair.1
  /\ length pair.2 = d /\ Forall (fun img => size img = lr) pair.2.

(** The number of channels [to_arrays] leaves. *)
Definition channels_of (to_gray : bool) : Z := if to_gray then 1 else 3.

(** [abs] are the arrays the batch loader makes of the pairs [ps], all of the
    two given shapes. *)
Definition converted (to_gray : bool) (sh_hr sh_lr : list Z)
    (ps : list PatchPair) (abs : list (ndarray * ndarray)) : Prop :=
  Forall2 (fun p ab => BatchLoader.to_arrays to_gray p = Return ab
                       /\ nd_shape ab.1 = sh_hr /\ nd_shape ab.2 = sh_lr) ps abs.

(** The batch loader draws from the generator [g]. *)
Definition draws_from (self : BatchLoader.t) (g : generator) : Prop :=
  Loader.batch_iterator (BatchLoader.loader self) = Some g.

(** The batch loader after a call that left its generator as [g]. *)
Definition drawing_from (self : BatchLoader.t) (g : generator) : BatchLoader.t :=
  BatchLoader.set_loader self
    (Loader.set_batch_iterator (BatchLoader.loader self) (Some g)).

(** What [BatchLoader.__next__] makes of two stacked arrays: both squeezed on
    axis 1, or both as they are when either squeeze is refused. *)
Definition squeeze_both (hr lr : ndarray) : ndarray * ndarray :=
  match np_squeeze hr 1, np_squeeze lr 1 with
  | Return a, Return b => (a, b)
  | _, _ => (hr, lr)
  end.

(** The per-pair arrays a batch was stacked from. *)
Fixpoint batch_items (a : ndarray) : list ndarray :=
  match a with
  | Pixels _ => []
  | Stack items => items
  | Squeezed _ a => batch_items a
  end.

Definition hr_items (o : outcome (ndarray * ndarray)) : list ndarray :=
  match o with
  | Return (hr, _) => batch_items hr
  | _ => []
  end.

Definition lr_items (o : outcome (ndarray * ndarray)) : list ndarray :=
  match o with
  | Return (_, lr) => batch_items lr
  | _ => []
  end.

(** The exception a consumer of a generator sees when its body raised [e]. *)
Definition surfaced (e : exn) : exn :=
  match e with
  | StopIteration => RuntimeError
  | _ => e
  end.

(** The quotient [a / b] is too large for a float. *)
Definition quotient_overflows (a b : Z) : bool :=
  match true_div a b with
  | Raise OverflowError => true
  | _ => false
  end.

(** The high-resolution crops of a pair are cut with the box
    [(0, 0, width, height)] of the image they are cut from: they are whole
    frames. *)
Definition whole_frame (pair : PatchPair) : Prop :=
  Forall (fun img => exists src, img = Crop (mkBox 0 0 (size src).1 (size src).2) src)
         pair.1.

(** A handle whose cursor is inside the file. *)
Definition in_bounds (vf : VirtualFile) : Prop := 0 <= cursor vf <= n_frames vf.

(** What one depth-group of a file of the given shape adds to a pass of the
    grid: the closed form when the patch fits the shrunk frame, nothing when
    it does not. *)
Definition grid_cells_if_fits (sx sy sw sh pw ph : Z) (shape : Z * Z) : Z :=
  if (pw <=? shape.1 - np_mod shape.1 sx) && (ph <=? shape.2 - np_mod shape.2 sy)
  then grid_cells shape.1 shape.2 sw sh pw ph
  else 0.

Definition pass_total_fitting (sx sy d sw sh pw ph : Z) (hs : list VirtualFile) : Z :=
  foldr (fun vf acc => frames vf / d * grid_cells_if_fits sx sy sw sh pw ph (shape vf) + acc)
        0 hs.

(** An 8x8 still beside a still of 2x8 pixels, which a 4x4 patch does not
    fit, and their loader in deterministic mode. *)
Definition narrow_still (fp : string) : VirtualFile := mkVirtualFile fp (2, 8) 1 0 false.

Definition mixed_loader : Loader.t :=
  Loader.mk 2 "pil-image" (Some [still "a"; narrow_still "n"])
            (Pair 4 4) (Pair 2 2) (Pair 4 4) (Scalar 1) None false false 0 false.

Definition mixed_state : state := mkState [still "a"; narrow_still "n"] example_rng.

(** * Facts about generator bodies *)

Section gen_facts.
Context {A B : Type}.

Lemma emitted_gbind (m : gen A) (k : A -> gen B) s :
  emitted (gbind m k s) =
  emitted (m s) ++ match result (m s) with
                   | Return a => emitted (k a (final (m s)))
                   | _ => []
                   end.
Proof. unfold gbind. destruct (result (m s)); simpl; by rewrite ?app_nil_r. Qed.

Lemma result_gbind (m : gen A) (k : A -> gen B) s :
  result (gbind m k s) =
  match result (m s) with
  | Return a => result (k a (final (m s)))
  | Raise e => Raise e
  | OutOfFuel => OutOfFuel
  end.
Proof. unfold gbind. by destruct (result (m s)). Qed.

Lemma final_gbind (m : gen A) (k : A -> gen B) s :
  final (gbind m k s) =
  match result (m s) with
  | Return a => final (k a (final (m s)))
  | _ => final (m s)
  end.
Proof. unfold gbind. by destruct (result (m s)). Qed.
End gen_facts.

Section emits_rules.
Context {A B : Type} (P : PatchPair -> Prop).

Lemma emits_gret (a : A) : emits P (gret a).
Proof. intros s. constructor. Qed.

Lemma emits_lift (o : outcome A) : emits P (lift o).
Proof. intros s. constructor. Qed.

Lemma emits_yield p : P p -> emits P (yield p).
Proof. intros Hp s. by repeat constructor. Qed.

Lemma emits_gbind_post (Q : A -> Prop) (m : gen A) (k : A -> gen B) :
  emits P m -> returns Q m -> (forall a, Q a -> emits P (k a)) -> emits P (gbind m k).
Proof.
  intros Hm HQ Hk s. rewrite emitted_gbind. apply Forall_app. split; [apply Hm|].
  destruct (result (m s)) eqn:E; try constructor.
  apply Hk. by eapply HQ.
Qed.

Lemma emits_gbind (m : gen A) (k : A -> gen B) :
  emits P m -> (forall a, emits P (k a)) -> emits P (gbind m k).
Proof. intros Hm Hk. apply (emits_gbind_post (fun _ => True)); auto. by intros ??. Qed.

End emits_rules.

Lemma emits_for_ {A} P (l : list A) (body : A -> gen unit) :
  (forall x, x ∈ l -> emits P (body x)) -> emits P (for_ l body).
Proof.
  induction l as [|x l IH]; intros Hb; simpl.
  - apply emits_gret.
  - apply emits_gbind.
    + apply Hb. constructor.
    + intros _. apply IH. intros y Hy. apply Hb. by constructor.
Qed.

Lemma emits_for_dataset P (body : nat -> gen unit) :
  (forall i, emits P (body i)) -> emits P (for_dataset body).
Proof. intros Hb s. unfold for_dataset. apply emits_for_. auto. Qed.

Lemma emits_vf_frames P i : emits P (vf_frames i).
Proof. intros s. unfold vf_frames. destruct (handles s !! i); constructor. Qed.

Lemma emits_vf_read_frame P i n : emits P (vf_read_frame i n).
Proof.
  intros s. unfold vf_read_frame. destruct (handles s !! i); [|constructor].
  destruct (read_frame n v). constructor.
Qed.

Lemma emits_vf_reopen P i : emits P (vf_reopen i).
Proof. intros s. unfold vf_reopen. destruct (handles s !! i); constructor. Qed.

Lemma emits_g_randint P lo hi : emits P (g_randint lo hi).
Proof. intros s. unfold g_randint. destruct (randint _ _ _). constructor. Qed.

Lemma returns_lift {A} (Q : A -> Prop) (o : outcome A) :
  (forall a, o = Return a -> Q a) -> returns Q (lift o).
Proof. intros H s a E. by apply H. Qed.

Lemma read_frame_decoded n vf imgs vf' :
  read_frame n vf = (Return imgs, vf') ->
  Forall (decoded_as (fst (shape vf)) (snd (shape vf))) imgs.
Proof.
  unfold read_frame. destruct (frames vf <? n); [discriminate|].
  intros [= <- _]. apply Forall_fmap, Forall_forall. intros k _. by eexists _, _.
Qed.

Lemma returns_vf_read_frame i n :
  returns (fun imgs => exists W H, Forall (decoded_as W H) imgs) (vf_read_frame i n).
Proof.
  intros s imgs. unfold vf_read_frame.
  destruct (handles s !! i) as [vf|]; [|discriminate].
  destruct (read_frame n vf) as [o vf'] eqn:E. simpl. intros ->.
  eexists _, _. eapply read_frame_decoded, E.
Qed.

Lemma omap_Forall2 {A B} (f : A -> outcome B) (R : A -> B -> Prop) l l' :
  (forall x y, x ∈ l -> f x = Return y -> R x y) ->
  omap f l = Return l' -> Forall2 R l l'.
Proof.
  revert l'. induction l as [|x l IH]; intros l' Hf; simpl.
  - intros [= <-]. constructor.
  - destruct (f x) as [y| |] eqn:E; try discriminate. simpl.
    destruct (omap f l) as [ys| |]; try discriminate. simpl.
    intros [= <-]. constructor.
    + apply Hf; [constructor|done].
    + apply IH; [|done]. intros ????. apply Hf; [by constructor|done].
Qed.

Lemma shrink_decoded sx sy W H imgs frames_hr :
  Forall (decoded_as W H) imgs ->
  omap (fun img => shrink_to_multiple_scale img (Pair sx sy)) imgs = Return frames_hr ->
  Forall (shrunk_from sx sy W H) frames_hr.
Proof.
  intros Himgs Hmap.
  eapply (omap_Forall2 _ (fun img f => decoded_as W H img -> shrunk_from sx sy W H f)) in Hmap.
  - clear -Himgs Hmap. induction Hmap; inversion Himgs; subst; constructor; auto.
  - intros img f _. unfold shrink_to_multiple_scale.
    destruct (size img) as [w h] eqn:Hsz. intros [= <-] (p & k & ->).
    simpl in Hsz. injection Hsz as <- <-. by eexists _, _.
Qed.

Lemma np_mod_nonneg a b : 0 <= b -> 0 <= np_mod a b.
Proof.
  intros Hb. unfold np_mod. destruct (Z.eqb_spec b 0); [lia|].
  apply Z.mod_pos_bound. lia.
Qed.

Lemma emits_grid_cell self sx sy W H frames_hr frames_lr patch_size w h :
  0 <= sx -> 0 <= sy ->
  Forall (shrunk_from sx sy W H) frames_hr ->
  emits within_frame
    (Loader.grid_cell self frames_hr frames_lr (W - np_mod W sx) (H - np_mod H sy)
                      patch_size w h).
Proof.
  intros Hsx Hsy Hfr. unfold Loader.grid_cell.
  destruct (_ || _) eqn:Hguard; [apply emits_gret|].
  apply orb_false_iff in Hguard as [Hw Hh].
  apply emits_gbind; [apply emits_lift|]. intros crop_lr.
  apply emits_yield. unfold within_frame. simpl.
  apply Forall_fmap. eapply Forall_impl; [exact Hfr|].
  intros f (p & k & ->). unfold crop. simpl.
  pose proof (np_mod_nonneg W sx Hsx). pose proof (np_mod_nonneg H sy Hsy).
  eexists _, _, _, _, _, _. split; [reflexivity|]. simpl. lia.
Qed.

Lemma emits_grid_group self i sx sy :
  Loader.scale self = Pair sx sy -> 0 <= sx -> 0 <= sy ->
  emits within_frame (Loader.grid_group self i).
Proof.
  intros Hscale Hsx Hsy. unfold Loader.grid_group. rewrite Hscale.
  apply emits_gbind; [apply emits_lift|]. intros depth.
  eapply emits_gbind_post; [apply emits_vf_read_frame|apply returns_vf_read_frame|].
  intros imgs (W & H & Himgs).
  eapply emits_gbind_post with (Q := Forall (shrunk_from sx sy W H));
    [apply emits_lift| |].
  { apply returns_lift. intros frames_hr. by apply shrink_decoded. }
  intros frames_hr Hfr.
  apply emits_gbind; [apply emits_lift|]. intros frames_lr.
  eapply emits_gbind_post with (Q := fun f => f ∈ frames_hr); [apply emits_lift| |].
  { apply returns_lift. intros f. destruct frames_hr; simpl; [discriminate|].
    intros [= <-]. constructor. }
  intros first Hin.
  rewrite Forall_forall in Hfr. destruct (Hfr _ Hin) as (p & k & ->). simpl.
  replace (W - np_mod W sx - 0) with (W - np_mod W sx) by lia.
  replace (H - np_mod H sy - 0) with (H - np_mod H sy) by lia.
  apply emits_gbind; [apply emits_lift|]. intros strides.
  apply emits_gbind; [apply emits_lift|]. intros patch_size.
  apply emits_gbind; [apply emits_lift|]. intros ws.
  apply emits_for_. intros w _.
  apply emits_gbind; [apply emits_lift|]. intros hs.
  apply emits_for_. intros h _.
  apply emits_grid_cell; auto. by apply Forall_forall.
Qed.

Lemma emits_grid_pass self sx sy :
  Loader.scale self = Pair sx sy -> 0 <= sx -> 0 <= sy ->
  emits within_frame (Loader.grid_pass self).
Proof.
  intros Hscale Hsx Hsy. unfold Loader.grid_pass.
  apply emits_gbind; [apply emits_lift|]. intros _.
  apply emits_for_dataset. intros i. unfold Loader.grid_file.
  apply emits_gbind; [apply emits_vf_frames|]. intros n.
  apply emits_gbind; [apply emits_lift|]. intros depth.
  apply emits_gbind; [apply emits_lift|]. intros groups.
  apply emits_gbind.
  { apply emits_for_. intros _ _. by eapply emits_grid_group. }
  intros _.
  apply emits_gbind; [apply emits_vf_frames|]. intros rest.
  apply emits_gbind; [apply emits_vf_read_frame|]. intros _. apply emits_gret.
Qed.

Lemma emits__build_iter fuel self sx sy :
  Loader.scale self = Pair sx sy -> 0 <= sx -> 0 <= sy ->
  emits within_frame (Loader._build_iter fuel self).
Proof.
  intros Hscale Hsx Hsy. induction fuel as [|fuel IH]; simpl.
  - intros s. constructor.
  - apply emits_gbind; [by eapply emits_grid_pass|]. intros _.
    destruct (Loader.loop self); [apply IH|apply emits_gret].
Qed.

(** *** Stepping through a generator body *)

Lemma gbind_return {A B} (m : gen A) (k : A -> gen B) s a s' :
  m s = mkRun [] (Return a) s' -> gbind m k s = k a s'.
Proof. intros E. unfold gbind. rewrite E. simpl. by destruct (k a s'). Qed.

Lemma gbind_raise {A B} (m : gen A) (k : A -> gen B) s ys e s' :
  m s = mkRun ys (Raise e) s' -> gbind m k s = mkRun ys (Raise e) s'.
Proof. intros E. unfold gbind. by rewrite E. Qed.

Lemma gbind_lift_return {A B} (o : outcome A) (k : A -> gen B) s a :
  o = Return a -> gbind (lift o) k s = k a s.
Proof. intros ->. by apply gbind_return. Qed.

Lemma gbind_yield {B} p (k : unit -> gen B) s :
  gbind (yield p) k s = mkRun (p :: emitted (k tt s)) (result (k tt s)) (final (k tt s)).
Proof. reflexivity. Qed.

Lemma g_randint_ok low high s :
  low < high ->
  exists x r, g_randint low high s = mkRun [] (Return x) (mkState (handles s) r)
              /\ low <= x < high.
Proof.
  intros Hlt. unfold g_randint, randint.
  destruct (Z.leb_spec high low); [lia|]. simpl.
  eexists _, _. split; [reflexivity|].
  pose proof (Z.mod_pos_bound (entropy (random_state s) (drawn (random_state s)))
                (high - low) ltac:(lia)). lia.
Qed.

Lemma omap_total {A B} (f : A -> outcome B) l :
  (forall x, exists y, f x = Return y) -> exists l', omap f l = Return l'.
Proof.
  intros Hf. induction l as [|x l [l' IH]]; simpl; [by eexists|].
  destruct (Hf x) as [y ->]. simpl. rewrite IH. simpl. by eexists.
Qed.

Lemma crop_lr_total box sx sy frames_lr :
  exists crop_lr,
    omap (fun img => try b := box_floordiv box (Pair sx sy) in Return (crop b img))
         frames_lr = Return crop_lr.
Proof. apply omap_total. intros img. simpl. by eexists. Qed.

Section random_mode.
Variable self : Loader.t.
Variables sx sy : Z.
Hypothesis Hscale : Loader.scale self = Pair sx sy.
Local Abbreviation mx := (Loader.max_patches self).

Lemma random_patches_spec frames_hr frames_lr width height pw ph n c s :
  pw <= width -> ph <= height -> c <= mx ->
  let r := Loader.random_patches self frames_hr frames_lr width height (pw, ph) n c s in
  Z.of_nat (length (emitted r)) = Z.min (Z.of_nat n) (mx - c)
  /\ result r = (if c + Z.of_nat n <=? mx then Return (c + Z.of_nat n)
                 else Raise StopIteration)
  /\ handles (final r) = handles s.
Proof.
  intros Hw Hh. revert c s. induction n as [|n IH]; intros c s Hc.
  - cbn. rewrite Z.add_0_r. destruct (Z.leb_spec c mx); [|lia].
    repeat split; lia.
  - cbn [Loader.random_patches].
    rewrite Z.geb_leb. destruct (Z.leb_spec mx c) as [Hge|Hlt].
    + destruct (Z.leb_spec (c + Z.of_nat (S n)) mx); [lia|].
      cbn [lift emitted result final length]. repeat split; lia.
    + destruct (g_randint_ok 0 (width - pw + 1) s ltac:(simpl; lia)) as (x & r1 & E1 & _).
      cbn [fst snd]. rewrite (gbind_return _ _ _ _ _ E1).
      destruct (g_randint_ok 0 (height - ph + 1) (mkState (handles s) r1) ltac:(simpl; lia))
        as (y & r2 & E2 & _).
      rewrite (gbind_return _ _ _ _ _ E2). cbn [handles].
      rewrite Hscale.
      destruct (crop_lr_total (mkBox x y (x + pw) (y + ph)) sx sy frames_lr) as [crop_lr E3].
      rewrite (gbind_lift_return _ _ _ _ E3).
      rewrite gbind_yield. cbn [emitted result final length].
      specialize (IH (c + 1) (mkState (handles s) r2) ltac:(lia)).
      cbn zeta in IH. destruct IH as (IHe & IHr & IHf).
      rewrite IHr, IHf. cbn [handles].
      replace (c + 1 + Z.of_nat n) with (c + Z.of_nat (S n)) by lia.
      repeat split; lia.
Qed.

Variable d : Z.
Hypothesis Hdepth : Loader.depth self = Scalar d.
Hypothesis Hd : 0 < d.

Lemma read_frame_ok vf :
  d <= frames vf ->
  exists first rest vf',
    read_frame d vf = (Return (first :: rest), vf')
    /\ Forall (decoded_as (shape vf).1 (shape vf).2) (first :: rest)
    /\ shape vf' = shape vf /\ n_frames vf' = n_frames vf
    /\ (0 <= cursor vf <= n_frames vf ->
        0 <= cursor vf' <= n_frames vf' /\ frames vf - d <= frames vf').
Proof.
  intros Hfr. pose proof (read_frame_decoded d vf) as Hdec.
  unfold read_frame in *. destruct (Z.ltb_spec (frames vf) d); [lia|].
  rewrite seqZ_cons in * by lia. rewrite fmap_cons in *.
  eexists _, _, _. split; [reflexivity|]. split; [by eapply Hdec|].
  split; [done|]. split; [done|]. intros Hc. unfold frames in *. simpl.
  destruct (rewind vf && _) eqn:E; simpl; lia.
Qed.

Lemma shrink_total imgs :
  exists frames_hr,
    omap (fun img => shrink_to_multiple_scale img (Pair sx sy)) imgs = Return frames_hr.
Proof.
  apply omap_total. intros img. unfold shrink_to_multiple_scale.
  destruct (size img). by eexists.
Qed.

Lemma rescale_total imgs :
  exists frames_lr,
    omap (fun img => try factor := np_ones_div (Pair sx sy) in
                     Return (bicubic_rescale img factor)) imgs = Return frames_lr.
Proof. apply omap_total. intros img. cbn. by eexists. Qed.

Lemma omap_cons_inv {A B} (f : A -> outcome B) x l l' :
  omap f (x :: l) = Return l' -> exists y ys, l' = y :: ys /\ f x = Return y.
Proof.
  simpl. destruct (f x) as [y| |]; try discriminate. simpl.
  destruct (omap f l) as [ys| |]; try discriminate. simpl.
  intros [= <-]. by eexists _, _.
Qed.

Lemma random_group_spec i q c s vf :
  handles s !! i = Some vf -> d <= frames vf -> patch_fits self sx sy vf -> c <= mx -> 0 <= q ->
  let r := Loader.random_group self i q c s in
  Z.of_nat (length (emitted r)) = Z.min q (mx - c)
  /\ result r = (if c + q <=? mx then Return (c + q) else Raise StopIteration)
  /\ handles (final r) = <[i := (read_frame d vf).2]> (handles s).
Proof.
  intros Hi Hfr Hfit Hc Hq. unfold Loader.random_group.
  rewrite Hdepth, Hscale. rewrite (gbind_lift_return _ _ _ d) by done.
  destruct (read_frame_ok vf Hfr) as (img0 & imgs & vf' & Hread & Hdec & _).
  assert (vf_read_frame i d s
          = mkRun [] (Return (img0 :: imgs))
                  (mkState (<[i := vf']> (handles s)) (random_state s))) as E1.
  { unfold vf_read_frame. by rewrite Hi, Hread. }
  rewrite (gbind_return _ _ _ _ _ E1). rewrite Hread. cbn [snd].
  destruct (shrink_total (img0 :: imgs)) as [frames_hr E2].
  rewrite (gbind_lift_return _ _ _ _ E2).
  destruct (rescale_total frames_hr) as [frames_lr E3].
  rewrite (gbind_lift_return _ _ _ _ E3).
  pose proof (shrink_decoded _ _ _ _ _ _ Hdec E2) as Hshr.
  destruct (omap_cons_inv _ _ _ _ E2) as (f0 & fs & -> & _).
  rewrite (gbind_lift_return _ _ _ f0) by done.
  apply Forall_cons_1 in Hshr as [(p & k & ->) _]. cbn [size b_right b_left b_bottom b_top].
  rewrite !Z.sub_0_r.
  unfold patch_fits in Hfit. cbn zeta in Hfit.
  destruct (attr_or _ _) as [[pw ph]| |] eqn:E4; try done.
  rewrite (gbind_lift_return _ _ _ (pw, ph)) by done.
  destruct Hfit as [Hw Hh].
  match goal with
  | |- context [Loader.random_patches _ ?fh _ _ _ _ _ _ _] =>
      pose proof (random_patches_spec fh frames_lr _ _ pw ph (Z.to_nat q) c
                    (mkState (<[i:=vf']> (handles s)) (random_state s)) Hw Hh Hc) as Hrp
  end.
  cbn zeta in Hrp. rewrite Z2Nat.id in Hrp by done. exact Hrp.
Qed.

Lemma patch_fits_shape vf vf' : shape vf' = shape vf -> patch_fits self sx sy vf -> patch_fits self sx sy vf'.
Proof. unfold patch_fits. by intros ->. Qed.

Lemma repeat_groups_spec i q k :
  0 <= q ->
  forall c s vf,
    handles s !! i = Some vf -> 0 <= cursor vf <= n_frames vf ->
    Z.of_nat k * d <= frames vf -> patch_fits self sx sy vf -> c <= mx ->
    let r := Loader.repeat_ k (fun c => Loader.random_group self i q c) c s in
    Z.of_nat (length (emitted r)) = Z.min (Z.of_nat k * q) (mx - c)
    /\ result r = (if c + Z.of_nat k * q <=? mx then Return (c + Z.of_nat k * q)
                   else Raise StopIteration)
    /\ exists vf', handles (final r) = <[i := vf']> (handles s).
Proof.
  intros Hq. induction k as [|k IH]; intros c s vf Hi Hcur Hfr Hfit Hc.
  - cbn [Loader.repeat_ gret emitted result final length].
    rewrite Z.mul_0_l, Z.add_0_r. destruct (Z.leb_spec c mx); [|lia].
    split; [lia|]. split; [done|]. exists vf. by rewrite list_insert_id.
  - cbn [Loader.repeat_]. cbn zeta.
    rewrite emitted_gbind, result_gbind, final_gbind.
    assert (d <= frames vf) as Hfr1 by nia.
    destruct (random_group_spec i q c s vf Hi Hfr1 Hfit Hc Hq) as (He & Hr & Hf).
    destruct (read_frame_ok vf Hfr1) as (img0 & imgs & vf1 & Hread & _ & Hsh & Hn & Hcur1).
    rewrite Hread in Hf. cbn [snd] in Hf. destruct (Hcur1 Hcur) as [Hcur1' Hfr1'].
    rewrite Hr. destruct (Z.leb_spec (c + q) mx) as [Hle|Hgt].
    + set (s1 := final (Loader.random_group self i q c s)) in *.
      assert (handles s1 !! i = Some vf1) as Hi1.
      { rewrite Hf. apply list_lookup_insert_eq. by eapply lookup_lt_Some. }
      destruct (IH (c + q) s1 vf1 Hi1 Hcur1' ltac:(nia)
                   (patch_fits_shape _ _ Hsh Hfit) Hle) as (IHe & IHr & vf' & IHf).
      rewrite length_app, Nat2Z.inj_add, He, IHe, IHr, IHf, Hf, list_insert_insert_eq.
      replace (c + q + Z.of_nat k * q) with (c + Z.of_nat (S k) * q) by lia.
      split; [nia|]. split; [done|]. by exists vf'.
    + rewrite app_nil_r, He.
      destruct (Z.leb_spec (c + Z.of_nat (S k) * q) mx); [nia|].
      split; [nia|]. split; [done|]. by exists vf1.
Qed.

Lemma groups_nonneg vf : 0 <= cursor vf <= n_frames vf -> 0 <= groups d vf.
Proof.
  intros Hc. unfold groups, opened. apply Z.div_pos; [|done].
  destruct (frames vf =? 0); unfold frames, reopen, seek in *; simpl; lia.
Qed.

Lemma supply_nonneg q hs : 0 <= q -> Forall (ready self sx sy) hs -> 0 <= supply d q hs.
Proof.
  intros Hq. induction 1 as [|vf hs [Hc _] _ IH]; simpl; [done|].
  pose proof (groups_nonneg vf Hc). nia.
Qed.

Lemma random_file_spec q i c s vf :
  0 <= q -> handles s !! i = Some vf -> ready self sx sy vf -> c <= mx ->
  let r := Loader.random_file self q i c s in
  Z.of_nat (length (emitted r)) = Z.min (groups d vf * q) (mx - c)
  /\ result r = (if c + groups d vf * q <=? mx then Return (c + groups d vf * q)
                 else Raise StopIteration)
  /\ exists vf', handles (final r) = <[i := vf']> (handles s).
Proof.
  intros Hq Hi [Hcur Hfit] Hc. unfold Loader.random_file.
  assert (vf_frames i s = mkRun [] (Return (frames vf)) s) as E1.
  { unfold vf_frames. by rewrite Hi. }
  rewrite (gbind_return _ _ _ _ _ E1).
  set (s1 := mkState (<[i := opened vf]> (handles s)) (random_state s)).
  assert ((if frames vf =? 0 then vf_reopen i else gret tt) s
          = mkRun [] (Return tt) (if frames vf =? 0 then s1 else s)) as E2.
  { unfold opened in s1. destruct (frames vf =? 0); [|done].
    unfold vf_reopen. by rewrite Hi. }
  rewrite (gbind_return _ _ _ _ _ E2).
  assert (i < length (handles s))%nat as Hlen by by eapply lookup_lt_Some.
  assert (handles s1 !! i = Some (opened vf)) as Hi1
    by by apply list_lookup_insert_eq.
  assert (handles (if frames vf =? 0 then s1 else s) !! i = Some (opened vf)) as Hi2.
  { unfold opened in *. by destruct (frames vf =? 0). }
  assert (handles (if frames vf =? 0 then s1 else s) = <[i := opened vf]> (handles s)) as Hh.
  { unfold opened in *. destruct (frames vf =? 0); [done|]. by rewrite list_insert_id. }
  assert (vf_frames i (if frames vf =? 0 then s1 else s)
          = mkRun [] (Return (frames (opened vf))) (if frames vf =? 0 then s1 else s)) as E3.
  { unfold vf_frames. by rewrite Hi2. }
  rewrite (gbind_return _ _ _ _ _ E3).
  rewrite Hdepth. rewrite (gbind_lift_return _ _ _ d) by done.
  rewrite (gbind_lift_return _ _ _ (groups d vf)).
  2:{ unfold floordiv. destruct (Z.eqb_spec d 0); [lia|done]. }
  pose proof (groups_nonneg vf Hcur) as Hg.
  assert (0 <= cursor (opened vf) <= n_frames (opened vf)) as Hcur'.
  { unfold opened. destruct (frames vf =? 0); simpl; lia. }
  assert (patch_fits self sx sy (opened vf)) as Hfit'.
  { apply (patch_fits_shape vf); [|done]. unfold opened. by destruct (frames vf =? 0). }
  assert (Z.of_nat (Z.to_nat (groups d vf)) * d <= frames (opened vf)) as Hsup.
  { rewrite Z2Nat.id by done. unfold groups. rewrite Z.mul_comm.
    apply Z.mul_div_le. done. }
  destruct (repeat_groups_spec i q (Z.to_nat (groups d vf)) Hq c _ _ Hi2 Hcur' Hsup Hfit' Hc)
    as (He & Hr & vf' & Hf).
  rewrite Z2Nat.id in He, Hr by done.
  split; [done|]. split; [done|]. exists vf'.
  by rewrite Hf, Hh, list_insert_insert_eq.
Qed.

Lemma for_files_spec q n :
  0 <= q ->
  forall j c s,
    length (handles s) = (j + n)%nat -> Forall (ready self sx sy) (drop j (handles s)) -> c <= mx ->
    let r := Loader.for_files (seq j n) (Loader.random_file self q) c s in
    let total := supply d q (drop j (handles s)) in
    Z.of_nat (length (emitted r)) = Z.min total (mx - c)
    /\ result r = (if c + total <=? mx then Return (c + total) else Raise StopIteration).
Proof.
  intros Hq. induction n as [|n IH]; intros j c s Hlen Hready Hc.
  - rewrite drop_ge by lia. cbn. rewrite Z.add_0_r.
    destruct (Z.leb_spec c mx); [|lia]. split; [lia|done].
  - destruct (lookup_lt_is_Some_2 (handles s) j ltac:(lia)) as [vf Hj].
    rewrite (drop_S _ _ _ Hj) in *. apply Forall_cons_1 in Hready as [Hvf Hrest].
    cbn [seq Loader.for_files supply foldr]. fold (supply d q (drop (S j) (handles s))).
    cbn zeta. rewrite emitted_gbind, result_gbind.
    destruct (random_file_spec q j c s vf Hq Hj Hvf Hc) as (He & Hr & vf' & Hf).
    pose proof (groups_nonneg vf (proj1 Hvf)) as Hg.
    pose proof (supply_nonneg q _ Hq Hrest) as Hs.
    rewrite Hr. destruct (Z.leb_spec (c + groups d vf * q) mx) as [Hle|Hgt].
    + set (s1 := final (Loader.random_file self q j c s)) in *.
      assert (drop (S j) (handles s1) = drop (S j) (handles s)) as Hdrop.
      { rewrite Hf. apply drop_insert_lt. lia. }
      destruct (IH (S j) (c + groups d vf * q) s1) as (IHe & IHr).
      { rewrite Hf, length_insert. lia. }
      { by rewrite Hdrop. }
      { done. }
      rewrite Hdrop in IHe, IHr.
      rewrite length_app, Nat2Z.inj_add, He, IHe, IHr.
      rewrite Z.add_assoc. split; [nia|done].
    + rewrite app_nil_r, He.
      destruct (Z.leb_spec (c + (groups d vf * q + supply d q (drop (S j) (handles s)))) mx);
        [nia|]. split; [nia|done].
Qed.
End random_mode.

(** *** The quota is a hard cap *)








Section counts_rules.
Variable mx : Z.






End counts_rules.





Lemma patch_per_file_nonneg m l q :
  0 <= m -> 0 < l -> Loader.patch_per_file m l = Return q -> 0 <= q.
Proof.
  intros Hm Hl. unfold Loader.patch_per_file, floordiv.
  destruct (Z.eqb_spec l 0); [lia|]. cbn [obind].
  destruct (true_div m l) as [f| |]; cbn [obind]; try discriminate. intros [= <-].
  pose proof (Z.div_pos m l Hm Hl). destruct (float_eq_int _ _); lia.
Qed.

Lemma build_random_iter_spec self sx sy d q s :
  Loader.scale self = Pair sx sy ->
  Loader.depth self = Scalar d -> 0 < d ->
  is_Some (Loader.dataset self) ->
  0 <= Loader.max_patches self ->
  Loader.patch_per_file (Loader.max_patches self) (Loader.length_ self) = Return q ->
  0 <= q ->
  Forall (ready self sx sy) (handles s) ->
  let r := Loader._build_random_iter self s in
  let total := supply d q (handles s) in
  Z.of_nat (length (emitted r)) = Z.min total (Loader.max_patches self)
  /\ result r = (if total <=? Loader.max_patches self then Return tt
                 else Raise StopIteration).
Proof.
  intros Hscale Hdepth Hd [ds Hds] Hmx Hq Hq0 Hready.
  unfold Loader._build_random_iter, Loader.self_dataset. cbn zeta.
  rewrite (gbind_lift_return _ _ _ q) by done.
  rewrite (gbind_lift_return _ _ _ tt) by (by rewrite Hds).
  rewrite emitted_gbind, result_gbind.
  destruct (for_files_spec self sx sy Hscale d Hdepth Hd q (length (handles s)) Hq0 0%nat 0 s
              eq_refl Hready Hmx) as (He & Hr).
  cbn zeta in He, Hr. rewrite drop_0, Z.sub_0_r, Z.add_0_l in *.
  rewrite Hr. destruct (Z.leb_spec (supply d q (handles s)) (Loader.max_patches self));
    cbn [gret emitted result]; rewrite app_nil_r; done.
Qed.

(** *** Batching *)

Lemma np_stack_uniform (l : list ndarray) sh :
  l <> [] -> Forall (fun a => nd_shape a = sh) l ->
  np_stack l = Return (Stack l) /\ nd_shape (Stack l) = Z.of_nat (length l) :: sh.
Proof.
  destruct l as [|x l]; [done|]. intros _ Hall. apply Forall_cons_1 in Hall as [Hx Hl].
  unfold np_stack. rewrite (proj2 (forallb_forall _ _)).
  - split; [done|]. cbn [nd_shape]. by rewrite Hx.
  - intros y Hy. apply bool_decide_eq_true. rewrite Hx.
    rewrite Forall_forall in Hl. apply Hl. by apply list_elem_of_In.
Qed.

Section batching.
Variable self : BatchLoader.t.
Variables sh_hr sh_lr : list Z.
Hypothesis Hbatch : 0 < BatchLoader.batch self.
Local Abbreviation B := (BatchLoader.batch self).
Local Abbreviation ok := (well_shaped (BatchLoader.to_gray self) sh_hr sh_lr).

Lemma load_loop_spec ps :
  Forall ok ps ->
  forall fuel batch_hr batch_lr,
    (length ps < fuel)%nat ->
    length batch_lr = length batch_hr ->
    Z.of_nat (length batch_hr) < B ->
    Forall (fun a => nd_shape a = sh_hr) batch_hr ->
    Forall (fun a => nd_shape a = sh_lr) batch_lr ->
    let n := Z.of_nat (length batch_hr + length ps) in
    let taken := Z.to_nat (B - Z.of_nat (length batch_hr)) in
    let r := BatchLoader.load_loop fuel self (mkGenerator ps (Return tt)) batch_hr batch_lr in
    r.2 = mkGenerator (drop taken ps) (Return tt)
    /\ if n =? 0 then r.1 = Return BatchLoader.EmptyLists
       else exists hr lr, r.1 = Return (BatchLoader.Arrays hr lr)
              /\ nd_shape hr = Z.min n B :: sh_hr
              /\ nd_shape lr = Z.min n B :: sh_lr.
Proof.
  induction 1 as [|p ps Hp Hps IH]; intros fuel bh bl Hfuel Hlen Hlt Hbh Hbl.
  - destruct fuel as [|fuel]; [simpl in Hfuel; lia|].
    cbn [BatchLoader.load_loop next next_with pending finish]. rewrite drop_nil.
    rewrite Nat.add_0_r. cbn zeta.
    destruct bh as [|a bh].
    + destruct bl; [|done]. by cbn.
    + destruct bl as [|b bl]; [done|].
      replace (negb (bool_decide (a :: bh = [])) && negb (bool_decide (b :: bl = [])))
        with true by done.
      destruct (np_stack_uniform (a :: bh) sh_hr ltac:(done) Hbh) as [-> Hsh1].
      destruct (np_stack_uniform (b :: bl) sh_lr ltac:(done) Hbl) as [-> Hsh2].
      cbn [obind fst snd]. split; [done|].
      destruct (Z.eqb_spec (Z.of_nat (length (a :: bh))) 0) as [E|_]; [simpl in E; lia|].
      eexists _, _. split; [done|]. rewrite Hsh1, Hsh2, Hlen.
      split; f_equal; lia.
  - destruct fuel as [|fuel]; [simpl in Hfuel; lia|].
    cbn [BatchLoader.load_loop next next_with pending finish].
    destruct Hp as (a & b & -> & Ha & Hb).
    rewrite !length_app. cbn [length].
    assert (Forall (fun a => nd_shape a = sh_hr) (bh ++ [a])) as Hbh'
      by (apply Forall_app; by repeat constructor).
    assert (Forall (fun a => nd_shape a = sh_lr) (bl ++ [b])) as Hbl'
      by (apply Forall_app; by repeat constructor).
    destruct (Z.eqb_spec (Z.of_nat (length bh + 1)) B) as [Efull|Hnot].
    + destruct (np_stack_uniform (bh ++ [a]) sh_hr) as [-> Hsh1];
        [by destruct bh|done|].
      destruct (np_stack_uniform (bl ++ [b]) sh_lr) as [-> Hsh2];
        [by destruct bl|done|].
      cbn [obind fst snd]. cbn zeta.
      replace (Z.to_nat (B - Z.of_nat (length bh))) with 1%nat by lia.
      split; [done|].
      destruct (Z.eqb_spec (Z.of_nat (length bh + S (length ps))) 0); [lia|].
      eexists _, _. split; [done|]. rewrite Hsh1, Hsh2, !length_app, Hlen. cbn [length].
      split; f_equal; lia.
    + specialize (IH fuel (bh ++ [a]) (bl ++ [b])).
      rewrite !length_app in IH. cbn [length] in IH.
      destruct IH as [IHg IHr]; [simpl in Hfuel; lia|lia|lia|done|done|].
      cbn zeta.
      replace (Z.to_nat (B - Z.of_nat (length bh)))
        with (S (Z.to_nat (B - Z.of_nat (length bh + 1)))) by lia.
      cbn [drop]. split; [done|].
      replace (length bh + S (length ps))%nat with (length bh + 1 + length ps)%nat by lia.
      done.
Qed.

Lemma np_squeeze_cases a k :
  np_squeeze a k = Return (Squeezed k a) \/ np_squeeze a k = Raise ValueError.
Proof.
  unfold np_squeeze. destruct (nd_shape a !! k) as [[|[]|]|]; auto.
Qed.

Lemma next_spec ps :
  feeds self ps -> Forall ok ps ->
  let n := Z.of_nat (length ps) in
  let r := BatchLoader.__next__ self in
  feeds r.2 (drop (Z.to_nat B) ps)
  /\ BatchLoader.batch r.2 = B
  /\ BatchLoader.to_gray r.2 = BatchLoader.to_gray self
  /\ batch_len r.1 = (if n =? 0 then Raise StopIteration
                      else Return (Some (Z.min n B), Some (Z.min n B))).
Proof.
  intros Hfeeds Hps. unfold BatchLoader.__next__, BatchLoader._load_batch.
  unfold Loader.__iter__. rewrite Hfeeds. cbn [py_iter pending].
  pose proof (load_loop_spec ps Hps (S (length ps)) [] [] ltac:(lia) eq_refl
                ltac:(simpl; lia) ltac:(constructor) ltac:(constructor)) as Hloop.
  cbn zeta in Hloop. cbn [length] in Hloop. rewrite Z.sub_0_r, Nat.add_0_l in Hloop.
  destruct (BatchLoader.load_loop _ _ _ _ _) as [o g]. cbn [fst snd] in Hloop.
  destruct Hloop as [-> Hres]. cbn zeta.
  destruct (Z.eqb_spec (Z.of_nat (length ps)) 0) as [E0|Hne].
  - rewrite Hres. by cbn.
  - destruct Hres as (hr & lr & -> & Hhr & Hlr).
    destruct (np_squeeze_cases hr 1) as [-> | ->], (np_squeeze_cases lr 1) as [-> | ->];
      cbn; rewrite ?Hhr, ?Hlr; done.
Qed.
End batching.

Lemma batches_of_zero b : 0 < b -> batches_of 0 b = [Raise StopIteration].
Proof. intros Hb. unfold batches_of. by rewrite Z.div_0_l, Z.mod_0_l by lia. Qed.

Lemma batches_of_short n b :
  0 < n < b -> batches_of n b = [Return (Some n, Some n); Raise StopIteration].
Proof.
  intros Hn. unfold batches_of. rewrite Z.div_small, Z.mod_small by lia.
  destruct (Z.eqb_spec n 0); [lia|done].
Qed.

Lemma batches_of_full n b :
  0 < b <= n -> batches_of n b = Return (Some b, Some b) :: batches_of (n - b) b.
Proof.
  intros Hn. unfold batches_of.
  assert (n / b = (n - b) / b + 1) as ->.
  { replace n with ((n - b) + 1 * b) at 1 by lia. by rewrite Z.div_add by lia. }
  assert (n mod b = (n - b) mod b) as ->.
  { replace n with ((n - b) + 1 * b) at 1 by lia. by rewrite Z_mod_plus_full. }
  pose proof (Z.div_pos (n - b) b ltac:(lia) ltac:(lia)).
  replace (Z.to_nat ((n - b) / b + 1)) with (S (Z.to_nat ((n - b) / b))) by lia.
  done.
Qed.

Lemma batches_of_length n b :
  0 <= n -> 0 < b -> Z.of_nat (length (batches_of n b)) = (n + b - 1) / b + 1.
Proof.
  intros Hn Hb. unfold batches_of. rewrite !length_app, length_replicate.
  pose proof (Z.div_pos n b Hn Hb). pose proof (Z.div_mod n b ltac:(lia)).
  pose proof (Z.mod_pos_bound n b Hb).
  destruct (Z.eqb_spec (n mod b) 0) as [E|E]; cbn [length].
  - rewrite <- (Z.div_unique (n + b - 1) b (n / b) (b - 1)); lia.
  - rewrite <- (Z.div_unique (n + b - 1) b (n / b + 1) (n mod b - 1)); lia.
Qed.

Lemma nexts_spec sh_hr sh_lr k :
  forall self ps,
    (length ps <= k)%nat ->
    0 < BatchLoader.batch self ->
    feeds self ps ->
    Forall (well_shaped (BatchLoader.to_gray self) sh_hr sh_lr) ps ->
    let n := Z.of_nat (length ps) in
    let b := BatchLoader.batch self in
    batch_len <$> nexts (length (batches_of n b)) self = batches_of n b.
Proof.
  induction k as [|k IH]; intros self ps Hk Hb Hfeeds Hps; cbn zeta.
  - destruct ps; [|simpl in Hk; lia]. cbn [length Z.of_nat].
    rewrite batches_of_zero by done. cbn [length nexts].
    pose proof (next_spec self sh_hr sh_lr Hb [] Hfeeds Hps) as (_ & _ & _ & Hr).
    destruct (BatchLoader.__next__ self) as [o self']. cbn in Hr. by rewrite fmap_cons, Hr.
  - pose proof (next_spec self sh_hr sh_lr Hb ps Hfeeds Hps) as (Hf & Hb' & Hg' & Hr).
    cbn zeta in *.
    destruct (Z.eqb_spec (Z.of_nat (length ps)) 0) as [E0|Hne].
    + rewrite E0, batches_of_zero by done. cbn [length nexts].
      destruct (BatchLoader.__next__ self) as [o self']. cbn [fst snd] in *.
      by rewrite fmap_cons, Hr.
    + destruct (Z.le_gt_cases (BatchLoader.batch self) (Z.of_nat (length ps))) as [Hfull|Hshort].
      * rewrite batches_of_full by lia. cbn [length nexts].
        destruct (BatchLoader.__next__ self) as [o self']. cbn [fst snd] in *.
        rewrite fmap_cons, Hr, Z.min_r by lia. f_equal.
        specialize (IH self' (drop (Z.to_nat (BatchLoader.batch self)) ps)).
        rewrite length_drop, Hb', Hg' in IH.
        replace (Z.of_nat (length ps - Z.to_nat (BatchLoader.batch self)))
          with (Z.of_nat (length ps) - BatchLoader.batch self) in IH by lia.
        apply IH; [lia|lia|done|]. by apply Forall_drop.
      * rewrite batches_of_short by lia. cbn [length nexts].
        destruct (BatchLoader.__next__ self) as [o self']. cbn [fst snd] in *.
        rewrite fmap_cons, Hr, Z.min_l by lia. f_equal.
        rewrite drop_ge in Hf by lia.
        pose proof (next_spec self' sh_hr sh_lr ltac:(lia) [] Hf ltac:(constructor))
          as (_ & _ & _ & Hr').
        destruct (BatchLoader.__next__ self') as [o' self'']. cbn [fst snd] in Hr'.
        by rewrite fmap_cons, Hr'.
Qed.

(** *** The float quotient *)

Lemma ratio_log2_lower a b :
  0 < a -> 0 < b ->
  b * 2 ^ Z.max 0 (ratio_log2 a b) <= a * 2 ^ Z.max 0 (- ratio_log2 a b).
Proof.
  intros Ha Hb. unfold ratio_log2.
  set (d := Z.log2 a - Z.log2 b).
  destruct (Z.ltb_spec (a * 2 ^ Z.max 0 (- d)) (b * 2 ^ Z.max 0 d)) as [Hlt|Hge]; [|lia].
  destruct (Z.log2_spec a Ha) as [Ha1 _]. destruct (Z.log2_spec b Hb) as [_ Hb2].
  pose proof (Z.log2_nonneg a). pose proof (Z.log2_nonneg b).
  destruct (Z.le_gt_cases 1 d) as [Hd|Hd].
  - rewrite (Z.max_r 0 (d - 1)), (Z.max_l 0 (- (d - 1))) by lia.
    rewrite Z.pow_0_r, Z.mul_1_r.
    assert (2 ^ Z.log2 a = 2 ^ Z.succ (Z.log2 b) * 2 ^ (d - 1)) as E.
    { rewrite <- Z.pow_add_r by lia. f_equal. unfold d. lia. }
    assert (0 < 2 ^ (d - 1)) by (apply Z.pow_pos_nonneg; lia). nia.
  - rewrite (Z.max_l 0 (d - 1)), (Z.max_r 0 (- (d - 1))) by lia.
    rewrite Z.pow_0_r, Z.mul_1_r.
    assert (2 ^ Z.succ (Z.log2 b) = 2 ^ Z.log2 a * 2 ^ (- (d - 1))) as E.
    { rewrite <- Z.pow_add_r by lia. f_equal. unfold d. lia. }
    assert (0 < 2 ^ (- (d - 1))) by (apply Z.pow_pos_nonneg; lia). nia.
Qed.

Lemma ratio_log2_le a b : 0 < a -> 0 < b -> ratio_log2 a b <= Z.log2 a.
Proof.
  intros Ha Hb. unfold ratio_log2. pose proof (Z.log2_nonneg b).
  destruct (_ <? _); lia.
Qed.

Lemma round_half_even_exact q d : 0 < d -> round_half_even (q * d) d = q.
Proof.
  intros Hd. unfold round_half_even. rewrite Z.div_mul, Z.mod_mul by lia.
  by destruct (Z.ltb_spec (2 * 0) d); [|lia].
Qed.

Lemma round_half_even_bounds n d :
  0 < d -> n / d <= round_half_even n d <= n / d + 1.
Proof.
  intros Hd. unfold round_half_even.
  destruct (_ <? _); [lia|]. destruct (_ <? _); [lia|]. destruct (Z.even _); lia.
Qed.

Lemma round_half_even_up n d :
  0 < d -> d < 2 * (n mod d) -> round_half_even n d = n / d + 1.
Proof.
  intros Hd Hr. unfold round_half_even.
  destruct (Z.ltb_spec (2 * (n mod d)) d); [lia|].
  by destruct (Z.ltb_spec d (2 * (n mod d))); [|lia].
Qed.

(** Below [2^53] the rounded quotient of two positive integers lies strictly
    above the floor quotient unless the division is exact, and never above
    the next integer. *)
Lemma round_ratio_spec a b :
  0 < a < 2 ^ 53 -> 0 < b < 2 ^ 53 ->
  let f := round_ratio a b in
  f_exp f <= 0
  /\ (a mod b = 0 -> f_mant f = a / b * 2 ^ (- f_exp f))
  /\ (a mod b <> 0 ->
      f_exp f < 0
      /\ a / b * 2 ^ (- f_exp f) < f_mant f <= (a / b + 1) * 2 ^ (- f_exp f)).
Proof.
  intros Ha Hb. cbn zeta. unfold round_ratio. cbn [f_exp f_mant].
  set (L := ratio_log2 a b). set (e := Z.max (-1074) (L - 52)).
  pose proof (ratio_log2_lower a b ltac:(lia) ltac:(lia)) as Hlow. fold L in Hlow.
  pose proof (ratio_log2_le a b ltac:(lia) ltac:(lia)) as HL. fold L in HL.
  assert (Z.log2 a < 53) as Hla by (apply Z.log2_lt_pow2; lia).
  assert (e <= 0) as He by lia.
  rewrite (Z.max_l 0 e), (Z.max_r 0 (- e)) by lia. rewrite Z.pow_0_r, Z.mul_1_r.
  set (k := - e). assert (0 <= k) as Hk by lia.
  assert (0 < 2 ^ k) as Hpk by (apply Z.pow_pos_nonneg; lia).
  pose proof (Z.div_mod a b ltac:(lia)) as Ediv.
  pose proof (Z.mod_pos_bound a b ltac:(lia)) as Hmod.
  split; [done|]. split.
  - intros Hex. rewrite Hex, Z.add_0_r in Ediv.
    rewrite Ediv at 1. replace (b * (a / b) * 2 ^ k) with (a / b * 2 ^ k * b) by lia.
    by apply round_half_even_exact; lia.
  - intros Hne.
    assert (0 <= a / b) as Hq by (apply Z.div_pos; lia).
    (* the patch of the float grid is finer than 1/b *)
    assert (b < 2 * 2 ^ k) as Hfine.
    { destruct (Z.le_gt_cases (-1074) (L - 52)) as [Hn|Hsub].
      - assert (k = 52 - L) as Ek by lia.
        destruct (Z.le_gt_cases 0 L) as [HL0|HL0].
        + rewrite (Z.max_r 0 L), (Z.max_l 0 (- L)) in Hlow by lia.
          rewrite Z.pow_0_r, Z.mul_1_r in Hlow.
          assert (2 ^ 53 = 2 * 2 ^ k * 2 ^ L) as E.
          { rewrite <- (Z.pow_1_r 2) at 2. rewrite <- !Z.pow_add_r by lia. f_equal. lia. }
          assert (0 < 2 ^ L) by (apply Z.pow_pos_nonneg; lia). nia.
        + rewrite (Z.max_l 0 L), (Z.max_r 0 (- L)) in Hlow by lia.
          rewrite Z.pow_0_r, Z.mul_1_r in Hlow.
          assert (2 * 2 ^ k = 2 ^ 53 * 2 ^ (- L)) as E.
          { rewrite <- (Z.pow_1_r 2) at 1. rewrite <- !Z.pow_add_r by lia. f_equal. lia. }
          assert (0 < 2 ^ (- L)) by (apply Z.pow_pos_nonneg; lia). nia.
      - assert (k = 1074) as -> by lia.
        assert (2 ^ 53 < 2 ^ 1074) by (apply Z.pow_lt_mono_r; lia). lia. }
    assert (e < 0) as He0.
    { destruct (Z.eq_dec e 0) as [E0|]; [|lia]. exfalso.
      assert (k = 0) as Ek by lia. rewrite Ek in Hfine. cbn in Hfine.
      assert (b = 1) as -> by lia. rewrite Z.mod_1_r in Hne. done. }
    split; [done|].
    set (n := a * 2 ^ k).
    pose proof (Z.div_mod n b ltac:(lia)) as En.
    pose proof (Z.mod_pos_bound n b ltac:(lia)) as Hn.
    pose proof (round_half_even_bounds n b ltac:(lia)) as Hm.
    assert (a / b * 2 ^ k <= n / b) as Hlo.
    { apply Z.div_le_lower_bound; [lia|]. unfold n. nia. }
    assert (n / b < (a / b + 1) * 2 ^ k) as Hhi.
    { apply Z.div_lt_upper_bound; [lia|]. unfold n. nia. }
    split; [|lia].
    destruct (Z.eq_dec (n / b) (a / b * 2 ^ k)) as [Eq|]; [|lia].
    rewrite round_half_even_up; [lia|lia|].
    assert (n mod b = a mod b * 2 ^ k) as ->; [|nia].
    unfold n in *. nia.
Qed.

(** For operands below [2^53] the float quotient equals the floor quotient
    exactly when the division leaves no remainder, and its ceiling is the
    ceiling of the exact quotient. *)
Lemma true_div_small a b :
  0 <= a < 2 ^ 53 -> 0 < b < 2 ^ 53 ->
  exists f, true_div a b = Return f
            /\ (float_eq_int (a / b) f = true <-> a mod b = 0)
            /\ float_ceil f = (a + b - 1) / b.
Proof.
  intros Ha Hb. unfold true_div.
  destruct (Z.eqb_spec b 0) as [|_]; [lia|].
  destruct (Z.eqb_spec a 0) as [->|Ha0].
  - eexists. split; [reflexivity|]. rewrite Z.div_0_l, Z.mod_0_l by lia.
    split; [done|]. cbn. rewrite Z.div_small by lia. done.
  - rewrite (Z.abs_eq a), (Z.abs_eq b) by lia.
    rewrite (Z.sgn_pos a), (Z.sgn_pos b) by lia.
    destruct (round_ratio_spec a b ltac:(lia) Hb) as (He & Hex & Hin).
    cbn zeta in He, Hex, Hin.
    set (f := round_ratio a b) in *. set (k := - f_exp f) in *.
    assert (0 < 2 ^ k) as Hpk by (apply Z.pow_pos_nonneg; lia).
    pose proof (Z.div_mod a b ltac:(lia)) as Ediv.
    pose proof (Z.mod_pos_bound a b ltac:(lia)) as Hmod.
    assert (0 <= a / b <= a) as Hq.
    { split; [apply Z.div_pos; lia|]. apply Z.div_le_upper_bound; nia. }
    assert (2 ^ 53 < 2 ^ 1024) as Hbig by (apply Z.pow_lt_mono_r; lia).
    destruct (Z.eq_dec (a mod b) 0) as [E|E].
    + specialize (Hex E).
      assert ((a + b - 1) / b = a / b) as ->.
      { symmetry. apply Z.div_unique with (r := b - 1); lia. }
      assert (overflows f = false) as ->.
      { unfold overflows. destruct (Z.leb_spec 0 (f_exp f)); [|done].
        assert (f_exp f = 0) as E0 by lia. rewrite E0, Z.pow_0_r, Z.mul_1_r.
        assert (k = 0) as Ek by lia. rewrite Ek, Z.pow_0_r, Z.mul_1_r in Hex.
        cbn [andb]. apply Z.leb_gt. lia. }
      eexists. split; [reflexivity|]. rewrite !Z.mul_1_l.
      unfold float_eq_int, float_ceil. cbn [f_mant f_exp]. fold k.
      destruct (Z.leb_spec 0 (f_exp f)).
      * assert (f_exp f = 0) as E0 by lia. rewrite E0, Z.pow_0_r, Z.mul_1_r.
        assert (k = 0) as Ek by lia. rewrite Ek, Z.pow_0_r, Z.mul_1_r in Hex.
        rewrite Hex, Z.eqb_refl. done.
      * rewrite Hex, Z.eqb_refl. split; [done|].
        rewrite <- Z.mul_opp_l, Z.div_mul by lia. lia.
    + destruct (Hin E) as (He0 & Hlo & Hhi).
      assert ((a + b - 1) / b = a / b + 1) as ->.
      { symmetry. apply Z.div_unique with (r := a mod b - 1); lia. }
      assert (overflows f = false) as ->.
      { unfold overflows. by destruct (Z.leb_spec 0 (f_exp f)); [lia|]. }
      eexists. split; [reflexivity|]. rewrite !Z.mul_1_l.
      unfold float_eq_int, float_ceil. cbn [f_mant f_exp]. fold k.
      destruct (Z.leb_spec 0 (f_exp f)); [lia|]. split.
      * split; [|done]. intros Heq. apply Z.eqb_eq in Heq. lia.
      * assert (- f_mant f / 2 ^ k = - (a / b + 1)) as ->; [|lia].
        symmetry. apply Z.div_unique with (r := (a / b + 1) * 2 ^ k - f_mant f); lia.
Qed.

Lemma batch_loader_len self n :
  0 < BatchLoader.batch self < 2 ^ 53 -> 0 <= n < 2 ^ 53 ->
  Loader.__len__ (BatchLoader.loader self) = Return n ->
  BatchLoader.__len__ self = Return ((n + BatchLoader.batch self - 1) / BatchLoader.batch self).
Proof.
  intros Hb Hn Hlen. unfold BatchLoader.__len__, py_len. rewrite Hlen. cbn [obind].
  destruct (Z.ltb_spec n 0); [lia|]. cbn [obind].
  destruct (true_div_small n (BatchLoader.batch self) Hn Hb) as (f & -> & _ & <-). done.
Qed.

(** *** Consuming a generator *)

Lemma advance_drop k g :
  (k <= length (pending g))%nat ->
  advance k g = mkGenerator (drop k (pending g)) (finish g).
Proof.
  revert g. induction k as [|k IH]; intros [ps fin] Hk; cbn [advance pending finish].
  - by rewrite drop_0.
  - destruct ps as [|p ps]; [simpl in Hk; lia|].
    cbn [next next_with pending finish snd]. rewrite IH by (simpl in *; lia). done.
Qed.

Lemma next_pending k g p :
  pending g !! k = Some p -> (next (advance k g)).1 = Return p.
Proof.
  intros Hk. rewrite advance_drop by (apply Nat.lt_le_incl; by eapply lookup_lt_Some).
  unfold next, next_with. cbn [pending finish].
  rewrite (drop_S _ _ _ Hk). done.
Qed.

(** *** The shuffle *)

Lemma swap_Permutation {A} (l : list A) i j : swap l i j ≡ₚ l.
Proof.
  unfold swap. destruct (l !! i) as [a|] eqn:Hi; [|done].
  destruct (l !! j) as [b|] eqn:Hj; [|done].
  by apply Permutation_insert_swap.
Qed.

Lemma shuffle_down_Permutation {A} i (l : list A) r : (shuffle_down i l r).1 ≡ₚ l.
Proof.
  revert l r. induction i as [|i IH]; intros l r; [done|].
  cbn [shuffle_down]. destruct (draw _ r) as [j r'].
  rewrite IH. apply swap_Permutation.
Qed.

Lemma shuffle_Permutation {A} (l : list A) r : (shuffle l r).1 ≡ₚ l.
Proof. apply shuffle_down_Permutation. Qed.

(** *** Scale alignment on the grid *)

Lemma np_floordiv_exact a s : 0 < s -> a mod s = 0 -> np_floordiv a s * s = a.
Proof.
  intros Hs Ha. unfold np_floordiv. destruct (Z.eqb_spec s 0); [lia|].
  pose proof (Z.div_mod a s ltac:(lia)). lia.
Qed.

Lemma shrunk_multiple W s : 0 < s -> (W - np_mod W s) mod s = 0.
Proof.
  intros Hs. unfold np_mod. destruct (Z.eqb_spec s 0); [lia|].
  rewrite Zminus_mod_idemp_r, Z.sub_diag. by apply Z.mod_0_l.
Qed.

Lemma py_range_multiples stop step ws s :
  0 < s -> step mod s = 0 -> py_range 0 stop step = Return ws ->
  Forall (fun w => w mod s = 0) ws.
Proof.
  intros Hs Hstep. unfold py_range.
  destruct (step =? 0); [discriminate|].
  assert (forall k, (0 + k * step) mod s = 0) as Hk.
  { intros k. rewrite Z.add_0_l, <- Z.mul_mod_idemp_r, Hstep, Z.mul_0_r by lia.
    by apply Z.mod_0_l; lia. }
  destruct (0 <? step); intros [= <-]; apply Forall_fmap, Forall_forall; intros k _; apply Hk.
Qed.

Lemma attr_or_normalized sx sy a W H x y :
  normalized sx sy a -> W mod sx = 0 -> H mod sy = 0 ->
  attr_or a (W, H) = Return (x, y) -> x mod sx = 0 /\ y mod sy = 0.
Proof.
  intros Hn HW HH. destruct a as [|z|a b]; simpl.
  - by intros [= <- <-].
  - destruct (z =? 0); [by intros [= <- <-]|discriminate].
  - by intros [= <- <-].
Qed.

Lemma emits_grid_cell_aligned self sx sy frames_hr frames_lr width height pw ph w h :
  Loader.scale self = Pair sx sy -> 0 < sx -> 0 < sy ->
  pw mod sx = 0 -> ph mod sy = 0 -> w mod sx = 0 -> h mod sy = 0 ->
  emits (aligned sx sy)
    (Loader.grid_cell self frames_hr frames_lr width height (pw, ph) w h).
Proof.
  intros Hscale Hsx Hsy Hpw Hph Hw Hh. unfold Loader.grid_cell. rewrite Hscale.
  destruct (_ || _); [apply emits_gret|].
  eapply emits_gbind_post with
    (Q := Forall (fun img => exists f,
                    img = Crop (mkBox (np_floordiv w sx) (np_floordiv h sy)
                                     (np_floordiv (w + pw) sx) (np_floordiv (h + ph) sy)) f));
    [apply emits_lift| |].
  { apply returns_lift. intros crop_lr E.
    eapply (omap_Forall2 _ (fun _ img => exists f, img = Crop _ f)) in E.
    - clear -E. induction E; constructor; eauto.
    - intros img y _. cbn. intros [= <-]. by eexists. }
  intros crop_lr Hlr. apply emits_yield.
  eexists _, _. cbn [fst snd]. split; [|split; [exact Hlr|]].
  - apply Forall_fmap, Forall_forall. intros img _. by eexists.
  - unfold exactly_scaled. cbn.
    assert ((w + pw) mod sx = 0) by (rewrite Z.add_mod, Hw, Hpw by lia; by apply Z.mod_0_l; lia).
    assert ((h + ph) mod sy = 0) by (rewrite Z.add_mod, Hh, Hph by lia; by apply Z.mod_0_l; lia).
    rewrite !np_floordiv_exact by done. done.
Qed.

Lemma emits_grid_group_aligned self i sx sy :
  Loader.scale self = Pair sx sy -> 0 < sx -> 0 < sy ->
  normalized sx sy (Loader.strides self) -> normalized sx sy (Loader.patch_size self) ->
  emits (aligned sx sy) (Loader.grid_group self i).
Proof.
  intros Hscale Hsx Hsy Hst Hpa. unfold Loader.grid_group. rewrite Hscale.
  apply emits_gbind; [apply emits_lift|]. intros depth.
  eapply emits_gbind_post; [apply emits_vf_read_frame|apply returns_vf_read_frame|].
  intros imgs (W & H & Himgs).
  eapply emits_gbind_post with (Q := Forall (shrunk_from sx sy W H));
    [apply emits_lift| |].
  { apply returns_lift. intros frames_hr. by apply shrink_decoded. }
  intros frames_hr Hfr.
  apply emits_gbind; [apply emits_lift|]. intros frames_lr.
  eapply emits_gbind_post with (Q := fun f => f ∈ frames_hr); [apply emits_lift| |].
  { apply returns_lift. intros f. destruct frames_hr; simpl; [discriminate|].
    intros [= <-]. constructor. }
  intros first Hin.
  rewrite Forall_forall in Hfr. destruct (Hfr _ Hin) as (p & k & ->). simpl.
  rewrite !Z.sub_0_r.
  pose proof (shrunk_multiple W sx Hsx) as HW. pose proof (shrunk_multiple H sy Hsy) as HH.
  eapply emits_gbind_post with (Q := fun st => st.1 mod sx = 0 /\ st.2 mod sy = 0);
    [apply emits_lift| |].
  { apply returns_lift. intros [a b]. by apply attr_or_normalized. }
  intros [stx sty] [Hstx Hsty].
  eapply emits_gbind_post with (Q := fun st => st.1 mod sx = 0 /\ st.2 mod sy = 0);
    [apply emits_lift| |].
  { apply returns_lift. intros [a b]. by apply attr_or_normalized. }
  intros [pw ph] [Hpw Hph]. cbn [fst snd] in *.
  eapply emits_gbind_post with (Q := Forall (fun w => w mod sx = 0)); [apply emits_lift| |].
  { apply returns_lift. intros ws. by apply py_range_multiples. }
  intros ws Hws. apply emits_for_. intros w Hw.
  eapply emits_gbind_post with (Q := Forall (fun h => h mod sy = 0)); [apply emits_lift| |].
  { apply returns_lift. intros hs. by apply py_range_multiples. }
  intros hs Hhs. apply emits_for_. intros h Hh.
  rewrite Forall_forall in Hws, Hhs.
  apply emits_grid_cell_aligned; auto.
Qed.

Lemma emits__build_iter_aligned fuel self sx sy :
  Loader.scale self = Pair sx sy -> 0 < sx -> 0 < sy ->
  normalized sx sy (Loader.strides self) -> normalized sx sy (Loader.patch_size self) ->
  emits (aligned sx sy) (Loader._build_iter fuel self).
Proof.
  intros Hscale Hsx Hsy Hst Hpa. induction fuel as [|fuel IH]; simpl.
  - intros s. constructor.
  - apply emits_gbind; [|intros _; destruct (Loader.loop self); [apply IH|apply emits_gret]].
    unfold Loader.grid_pass.
    apply emits_gbind; [apply emits_lift|]. intros _.
    apply emits_for_dataset. intros i. unfold Loader.grid_file.
    apply emits_gbind; [apply emits_vf_frames|]. intros n.
    apply emits_gbind; [apply emits_lift|]. intros depth.
    apply emits_gbind; [apply emits_lift|]. intros groups.
    apply emits_gbind.
    { apply emits_for_. intros _ _. by eapply emits_grid_group_aligned. }
    intros _.
    apply emits_gbind; [apply emits_vf_frames|]. intros rest.
    apply emits_gbind; [apply emits_vf_read_frame|]. intros _. apply emits_gret.
Qed.

Lemma shrink_mod_scale_normalized sx sy a a' :
  sx <> 0 -> sy <> 0 -> shrink_mod_scale a (Pair sx sy) = Return a' -> normalized sx sy a'.
Proof.
  intros Hsx Hsy. destruct a as [|z|x y]; simpl; try discriminate.
  - by intros [= <-].
  - destruct (_ || _); [discriminate|]. intros [= <-]. simpl.
    rewrite !Zminus_mod_idemp_r, !Z.sub_diag. split; by apply Z.mod_0_l.
Qed.

(** [build_loader] leaves patch size and stride normalized, so on the grid of
    a built loader the low-resolution boxes are exact. *)
Lemma built_grid_is_aligned fuel crop kwargs r self0 self sx sy s :
  Loader.build_loader fuel crop kwargs r self0 = Return self ->
  Loader.scale self = Pair sx sy -> 0 < sx -> 0 < sy ->
  Forall (aligned sx sy) (emitted (Loader._build_iter fuel self s)).
Proof.
  unfold Loader.build_loader.
  destruct (if crop then _ else _) as [pa| |] eqn:Epa; try discriminate. cbn [obind].
  destruct (if crop then _ else _) as [st| |] eqn:Est in |- *; try discriminate. cbn [obind].
  intros [= <-]. cbn [Loader.scale]. intros Hscale Hsx Hsy.
  rewrite Hscale in *.
  apply emits__build_iter_aligned with (sx := sx) (sy := sy); cbn; auto.
  - destruct crop; [|by injection Est as <-].
    eapply shrink_mod_scale_normalized; [| |exact Est]; lia.
  - destruct crop; [|by injection Epa as <-].
    eapply shrink_mod_scale_normalized; [| |exact Epa]; lia.
Qed.

(** *** Counting the grid *)

Lemma for_uniform {A} (f : A -> bool) (n : nat) (body : A -> gen unit) l s :
  (forall x s, result (body x s) = Return tt /\ final (body x s) = s
               /\ length (emitted (body x s)) = if f x then n else 0%nat) ->
  result (for_ l body s) = Return tt /\ final (for_ l body s) = s
  /\ length (emitted (for_ l body s)) = (count_if f l * n)%nat.
Proof.
  intros Hb. induction l as [|x l (IHr & IHf & IHe)]; [done|].
  cbn [for_]. rewrite emitted_gbind, result_gbind, final_gbind.
  destruct (Hb x s) as (Hr & Hf & He). rewrite Hr, Hf, length_app, He, IHe.
  split; [done|]. split; [done|].
  unfold count_if. cbn [List.filter]. destruct (f x); cbn [length]; lia.
Qed.

Lemma count_if_guard {A} (b : bool) (f : A -> bool) l :
  count_if (fun x => b && f x) l = if b then count_if f l else 0%nat.
Proof.
  unfold count_if. destruct b; cbn [andb]; [done|].
  induction l; [done|]. done.
Qed.

Lemma filter_all {A} (f : A -> bool) l :
  Forall (fun x => f x = true) l -> List.filter f l = l.
Proof. induction 1 as [|x l Hx _ IH]; [done|]. cbn. by rewrite Hx, IH. Qed.

Lemma filter_none {A} (f : A -> bool) l :
  Forall (fun x => f x = false) l -> List.filter f l = [].
Proof. induction 1 as [|x l Hx _ IH]; [done|]. cbn. by rewrite Hx, IH. Qed.

(** The grid origins on one axis whose patch fits are the first
    [(W - p) // s + 1] of [range(0, W, s)]. *)
Lemma axis_count W s p ws :
  0 < s -> 0 < p <= W -> py_range 0 W s = Return ws ->
  Z.of_nat (count_if (fun w => w + p <=? W) ws) = (W - p) / s + 1.
Proof.
  intros Hs Hp. unfold py_range.
  destruct (Z.eqb_spec s 0) as [|_]; [lia|]. destruct (Z.ltb_spec 0 s) as [_|]; [|lia].
  intros [= <-]. rewrite Z.sub_0_r.
  set (n := (W + s - 1) / s). set (m := (W - p) / s + 1).
  pose proof (Z.div_pos (W - p) s ltac:(lia) Hs) as Hm0.
  pose proof (Z.mul_div_le (W - p) s Hs) as Hm1.
  pose proof (Z.mul_succ_div_gt (W - p) s Hs) as Hm2.
  pose proof (Z.mul_div_le (W + s - 1) s Hs) as Hn1.
  pose proof (Z.mul_succ_div_gt (W + s - 1) s Hs) as Hn2.
  assert (m <= n) as Hmn by (unfold m, n; nia).
  replace n with (m + (n - m)) by lia.
  rewrite seqZ_app by lia. rewrite fmap_app. unfold count_if.
  rewrite List.filter_app, length_app.
  rewrite filter_all, filter_none.
  - rewrite length_fmap, length_seqZ. cbn [length]. lia.
  - apply Forall_fmap, Forall_forall. intros k Hk. apply elem_of_seqZ in Hk.
    cbn. apply Z.leb_gt. unfold m in Hk. nia.
  - apply Forall_fmap, Forall_forall. intros k Hk. apply elem_of_seqZ in Hk.
    cbn. apply Z.leb_le. unfold m in Hk. nia.
Qed.

(** Shrinking the frame to a multiple of the scale does not change the closed
    form when patch and stride are multiples of the scale. *)
Lemma shrunk_axis_count W sc s p :
  0 < sc -> 0 < s -> s mod sc = 0 -> p mod sc = 0 ->
  (W - np_mod W sc - p) / s = (W - p) / s.
Proof.
  intros Hsc Hs Hsm Hpm. unfold np_mod. destruct (Z.eqb_spec sc 0); [lia|].
  pose proof (Z.div_mod s sc ltac:(lia)) as Es. rewrite Hsm, Z.add_0_r in Es.
  pose proof (Z.div_mod p sc ltac:(lia)) as Ep. rewrite Hpm, Z.add_0_r in Ep.
  pose proof (Z.div_mod W sc ltac:(lia)) as EW.
  pose proof (Z.mod_pos_bound W sc Hsc) as HW.
  assert (0 < s / sc) as Ht by nia.
  rewrite Es. rewrite <- !Z.div_div by lia. f_equal.
  replace (W - W mod sc - p) with ((W / sc - p / sc) * sc) by lia.
  rewrite Z.div_mul by lia.
  apply Z.div_unique with (r := W mod sc); lia.
Qed.

Section grid_mode.
Variable self : Loader.t.
Variables sx sy d sw sh pw ph : Z.
Hypothesis Hscale : Loader.scale self = Pair sx sy.
Hypothesis Hdepth : Loader.depth self = Scalar d.
Hypothesis Hstrides : Loader.strides self = Pair sw sh.
Hypothesis Hpatch : Loader.patch_size self = Pair pw ph.
Hypothesis Hsx : 0 < sx.
Hypothesis Hsy : 0 < sy.
Hypothesis Hd : 0 < d.
Hypothesis Hsw : 0 < sw /\ sw mod sx = 0.
Hypothesis Hsh : 0 < sh /\ sh mod sy = 0.
Hypothesis Hpw : 0 < pw /\ pw mod sx = 0.
Hypothesis Hph : 0 < ph /\ ph mod sy = 0.

Lemma grid_cell_run frames_hr frames_lr width height w h s :
let r := Loader.grid_cell self frames_hr frames_lr width height (pw, ph) w h s in
result r = Return tt /\ final r = s
/\ length (emitted r) = if (w + pw <=? width) && (h + ph <=? height) then 1%nat else 0%nat.
Proof.
unfold Loader.grid_cell. cbn [fst snd]. rewrite !Z.gtb_ltb, Hscale.
destruct (Z.ltb_spec width (w + pw)), (Z.leb_spec (w + pw) width); try lia; cbn [orb andb];
  [done|].
destruct (Z.ltb_spec height (h + ph)), (Z.leb_spec (h + ph) height); try lia; [done|].
destruct (crop_lr_total (mkBox w h (w + pw) (h + ph)) sx sy frames_lr) as [crop_lr E].
by rewrite (gbind_lift_return _ _ _ _ E).
Qed.

Lemma grid_rows_run frames_hr frames_lr width height s :
0 < pw <= width -> 0 < ph <= height ->
let r :=
  (let* ws := lift (py_range 0 width sw) in
   for_ ws (fun w =>
     let* hs := lift (py_range 0 height sh) in
     for_ hs (fun h =>
       Loader.grid_cell self frames_hr frames_lr width height (pw, ph) w h))) s in
result r = Return tt /\ final r = s
/\ Z.of_nat (length (emitted r)) = grid_cells width height sw sh pw ph.
Proof.
intros Hw Hh.
destruct (py_range 0 width sw) as [ws| |] eqn:Ews;
  [|unfold py_range in Ews; destruct (Z.eqb_spec sw 0); [lia|by destruct (0 <? sw)]..].
destruct (py_range 0 height sh) as [hs| |] eqn:Ehs;
  [|unfold py_range in Ehs; destruct (Z.eqb_spec sh 0); [lia|by destruct (0 <? sh)]..].
cbn zeta. rewrite (gbind_lift_return _ _ _ ws) by done.
match goal with
| |- context [for_ ws ?body s] =>
    destruct (for_uniform (fun w => w + pw <=? width)
                (count_if (fun h => h + ph <=? height) hs) body ws s)
      as (Hr & Hf & He)
end.
{ intros w s'. rewrite (gbind_lift_return _ _ _ hs) by done.
  destruct (for_uniform (fun h => (w + pw <=? width) && (h + ph <=? height)) 1
              (fun h => Loader.grid_cell self frames_hr frames_lr width height (pw, ph) w h)
              hs s') as (Hr & Hf & He).
  { intros h s''. apply grid_cell_run. }
  rewrite Hr, Hf, He, count_if_guard.
  destruct (w + pw <=? width); (split; [done|split; [done|lia]]). }
rewrite Hr, Hf, He. split; [done|]. split; [done|].
rewrite Nat2Z.inj_mul. unfold grid_cells.
rewrite (axis_count width sw pw ws), (axis_count height sh ph hs); try done; lia.
Qed.

Lemma grid_group_run i s vf :
handles s !! i = Some vf -> d <= frames vf -> grid_ready sx sy pw ph vf ->
let r := Loader.grid_group self i s in
result r = Return tt
/\ handles (final r) = <[i := (read_frame d vf).2]> (handles s)
/\ Z.of_nat (length (emitted r)) = grid_cells (shape vf).1 (shape vf).2 sw sh pw ph.
Proof.
intros Hi Hfr (_ & Hfw & Hfh). unfold Loader.grid_group.
rewrite Hdepth, Hscale, Hstrides, Hpatch. rewrite (gbind_lift_return _ _ _ d) by done.
destruct (read_frame_ok d Hd vf Hfr) as (img0 & imgs & vf' & Hread & Hdec & _).
assert (vf_read_frame i d s
        = mkRun [] (Return (img0 :: imgs))
                (mkState (<[i := vf']> (handles s)) (random_state s))) as E1.
{ unfold vf_read_frame. by rewrite Hi, Hread. }
rewrite (gbind_return _ _ _ _ _ E1). rewrite Hread. cbn [snd].
destruct (shrink_total sx sy (img0 :: imgs)) as [frames_hr E2].
rewrite (gbind_lift_return _ _ _ _ E2).
destruct (rescale_total sx sy frames_hr) as [frames_lr E3].
rewrite (gbind_lift_return _ _ _ _ E3).
pose proof (shrink_decoded _ _ _ _ _ _ Hdec E2) as Hshr.
destruct (omap_cons_inv _ _ _ _ E2) as (f0 & fs & -> & _).
rewrite (gbind_lift_return _ _ _ f0) by done.
apply Forall_cons_1 in Hshr as [(p & k & ->) _]. cbn [size b_right b_left b_bottom b_top].
rewrite !Z.sub_0_r.
rewrite (gbind_lift_return _ _ _ (sw, sh)) by done.
rewrite (gbind_lift_return _ _ _ (pw, ph)) by done. cbn [fst snd].
match goal with
| |- context [Loader.grid_cell _ ?fh ?fl ?wd ?ht] =>
    destruct (grid_rows_run fh fl wd ht
                (mkState (<[i:=vf']> (handles s)) (random_state s))) as (Hr & Hf & He);
      [lia|lia|]
end.
cbn zeta in Hr, Hf, He. rewrite Hr, Hf, He. split; [done|]. split; [done|].
unfold grid_cells.
rewrite (shrunk_axis_count (shape vf).1 sx sw pw), (shrunk_axis_count (shape vf).2 sy sh ph);
  tauto.
Qed.

Lemma grid_groups_run i (l : list Z) :
forall s vf,
  handles s !! i = Some vf -> grid_ready sx sy pw ph vf ->
  Z.of_nat (length l) * d <= frames vf ->
  let r := for_ l (fun _ => Loader.grid_group self i) s in
  result r = Return tt
  /\ Z.of_nat (length (emitted r))
     = Z.of_nat (length l) * grid_cells (shape vf).1 (shape vf).2 sw sh pw ph
  /\ exists vf', handles (final r) = <[i := vf']> (handles s)
                 /\ shape vf' = shape vf /\ 0 <= cursor vf' <= n_frames vf'.
Proof.
induction l as [|x l IH]; intros s vf Hi Hready Hfr.
- cbn. split; [done|]. split; [lia|]. exists vf.
  rewrite list_insert_id by done. by destruct Hready.
- cbn [for_ length] in *. cbn zeta.
  rewrite emitted_gbind, result_gbind, final_gbind.
  assert (d <= frames vf) as Hfr1 by nia.
  destruct (grid_group_run i s vf Hi Hfr1 Hready) as (Hr & Hf & He).
  destruct (read_frame_ok d Hd vf Hfr1) as (img0 & imgs & vf1 & Hread & _ & Hshape & Hn & Hcur1).
  rewrite Hread in Hf. cbn [snd] in Hf.
  destruct Hready as (Hcur & Hfw & Hfh). destruct (Hcur1 Hcur) as [Hcur1' Hfr1'].
  rewrite Hr. set (s1 := final (Loader.grid_group self i s)) in *.
  assert (handles s1 !! i = Some vf1) as Hi1.
  { rewrite Hf. apply list_lookup_insert_eq. by eapply lookup_lt_Some. }
  destruct (IH s1 vf1 Hi1) as (IHr & IHe & vf' & IHf & IHsh & IHcur).
  { unfold grid_ready. by rewrite Hshape. }
  { lia. }
  rewrite length_app, Nat2Z.inj_add, He, IHe, IHr, IHf, Hf, list_insert_insert_eq, Hshape.
  split; [done|]. split; [lia|]. exists vf'. by rewrite IHsh.
Qed.

Lemma grid_file_run i s vf :
handles s !! i = Some vf -> grid_ready sx sy pw ph vf ->
let r := Loader.grid_file self i s in
result r = Return tt
/\ Z.of_nat (length (emitted r))
   = frames vf / d * grid_cells (shape vf).1 (shape vf).2 sw sh pw ph
/\ exists vf', handles (final r) = <[i := vf']> (handles s).
Proof.
intros Hi Hready. unfold Loader.grid_file.
assert (vf_frames i s = mkRun [] (Return (frames vf)) s) as E1.
{ unfold vf_frames. by rewrite Hi. }
rewrite (gbind_return _ _ _ _ _ E1), Hdepth.
rewrite (gbind_lift_return _ _ _ d) by done.
rewrite (gbind_lift_return _ _ _ (frames vf / d)).
2:{ unfold floordiv. destruct (Z.eqb_spec d 0); [lia|done]. }
assert (0 <= frames vf) as Hfr0 by (destruct Hready as [? _]; unfold frames; lia).
pose proof (Z.div_pos (frames vf) d Hfr0 Hd) as Hg.
pose proof (Z.mul_div_le (frames vf) d Hd) as Hg'.
destruct (grid_groups_run i (seqZ 0 (frames vf / d)) s vf Hi Hready)
  as (Hr & He & vf' & Hf & Hshape & Hcur).
{ rewrite length_seqZ. lia. }
rewrite length_seqZ, Z2Nat.id in He by done.
rewrite emitted_gbind, result_gbind, final_gbind, Hr.
set (s1 := final (for_ (seqZ 0 (frames vf / d)) (fun _ => Loader.grid_group self i) s)) in *.
assert (i < length (handles s))%nat as Hlen by by eapply lookup_lt_Some.
assert (handles s1 !! i = Some vf') as Hi1 by (rewrite Hf; by apply list_lookup_insert_eq).
assert (vf_frames i s1 = mkRun [] (Return (frames vf')) s1) as E2.
{ unfold vf_frames. by rewrite Hi1. }
rewrite (gbind_return _ _ _ _ _ E2).
assert (exists imgs vf'', vf_read_frame i (frames vf') s1
        = mkRun [] (Return imgs)
                (mkState (<[i := vf'']> (handles s1)) (random_state s1)))
  as (imgs & vf'' & E3).
{ unfold vf_read_frame. rewrite Hi1. unfold read_frame.
  destruct (Z.ltb_spec (frames vf') (frames vf')); [lia|]. eauto. }
rewrite (gbind_return _ _ _ _ _ E3).
cbn [gret emitted result final handles]. rewrite app_nil_r.
split; [done|]. split; [done|]. exists vf''. by rewrite Hf, list_insert_insert_eq.
Qed.

Lemma grid_files_run n :
forall j s,
  length (handles s) = (j + n)%nat ->
  Forall (grid_ready sx sy pw ph) (drop j (handles s)) ->
  let r := for_ (seq j n) (Loader.grid_file self) s in
  result r = Return tt
  /\ Z.of_nat (length (emitted r)) = pass_total d sw sh pw ph (drop j (handles s)).
Proof.
induction n as [|n IH]; intros j s Hlen Hready.
- rewrite drop_ge by lia. by cbn.
- destruct (lookup_lt_is_Some_2 (handles s) j ltac:(lia)) as [vf Hj].
  rewrite (drop_S _ _ _ Hj) in *. apply Forall_cons_1 in Hready as [Hvf Hrest].
  cbn [seq for_ pass_total foldr]. fold (pass_total d sw sh pw ph (drop (S j) (handles s))).
  cbn zeta. rewrite emitted_gbind, result_gbind.
  destruct (grid_file_run j s vf Hj Hvf) as (Hr & He & vf' & Hf).
  rewrite Hr. set (s1 := final (Loader.grid_file self j s)) in *.
  assert (drop (S j) (handles s1) = drop (S j) (handles s)) as Hdrop.
  { rewrite Hf. apply drop_insert_lt. lia. }
  destruct (IH (S j) s1) as (IHr & IHe).
  { rewrite Hf, length_insert. lia. }
  { by rewrite Hdrop. }
  rewrite Hdrop in IHe. rewrite length_app, Nat2Z.inj_add, He, IHe, IHr. done.
Qed.

Lemma len_run ds :
Loader.random self = false -> Loader.dataset self = Some ds ->
Loader.__len__ self = Return (len_total sw sh pw ph ds).
Proof.
intros Hrandom Hds. unfold Loader.__len__. rewrite Hrandom, Hds, Hstrides, Hpatch.
clear Hds. unfold floordiv. cbn [attr_or obind fst snd].
destruct (Z.eqb_spec sw 0) as [|_]; [lia|]. destruct (Z.eqb_spec sh 0) as [|_]; [lia|].
rewrite <- (Z.add_0_l (len_total sw sh pw ph ds)). generalize 0.
induction ds as [|vf ds IH]; intros a; cbn [foldl len_total foldr].
- by rewrite Z.add_0_r.
- cbn [obind]. destruct (shape vf) as [w h] eqn:Hshape. cbn [obind fst snd].
  rewrite IH. fold (len_total sw sh pw ph ds). unfold grid_cells.
  f_equal. lia.
Qed.

(** One pass of the grid yields the closed form once per depth-group, while
  [__len__] counts it once per file. *)
Lemma grid_pass_and_len s :
Loader.random self = false -> Loader.loop self = false ->
Loader.dataset self = Some (handles s) ->
Forall (grid_ready sx sy pw ph) (handles s) ->
result (Loader._build_iter 1 self s) = Return tt
/\ Z.of_nat (length (emitted (Loader._build_iter 1 self s)))
   = pass_total d sw sh pw ph (handles s)
/\ Loader.__len__ self = Return (len_total sw sh pw ph (handles s)).
Proof.
intros Hrandom Hloop Hds Hready. split; [|split; [|by apply len_run]].
- cbn [Loader._build_iter]. rewrite Hloop. unfold Loader.grid_pass, Loader.self_dataset.
  rewrite Hds. rewrite result_gbind.
  rewrite (gbind_lift_return _ _ _ tt) by done. unfold for_dataset.
  destruct (grid_files_run (length (handles s)) 0%nat s eq_refl) as [Hr _];
    [by rewrite drop_0|]. by rewrite Hr.
- cbn [Loader._build_iter]. rewrite Hloop. unfold Loader.grid_pass, Loader.self_dataset.
  rewrite Hds. rewrite emitted_gbind.
  rewrite (gbind_lift_return _ _ _ tt) by done. unfold for_dataset.
  destruct (grid_files_run (length (handles s)) 0%nat s eq_refl) as [Hr He];
    [by rewrite drop_0|].
  rewrite Hr. cbn [gret emitted]. rewrite app_nil_r, He, drop_0. done.
Qed.

(** When every file holds exactly one depth-group, the closed form of
  [__len__] is the number of pairs one pass yields. *)
Lemma len_matches_one_group_per_file s :
Loader.random self = false -> Loader.loop self = false ->
Loader.dataset self = Some (handles s) ->
Forall (grid_ready sx sy pw ph) (handles s) ->
Forall (fun vf => frames vf / d = 1) (handles s) ->
Loader.__len__ self
= Return (Z.of_nat (length (emitted (Loader._build_iter 1 self s)))).
Proof.
intros Hrandom Hloop Hds Hready Hone.
destruct (grid_pass_and_len s Hrandom Hloop Hds Hready) as (_ & -> & ->).
f_equal. clear -Hone. induction Hone as [|vf hs Hvf _ IH]; [done|].
cbn [len_total pass_total foldr]. fold (len_total sw sh pw ph hs).
fold (pass_total d sw sh pw ph hs). rewrite Hvf, IH. lia.
Qed.
End grid_mode.

Example still_len_is_pass_count :
  Loader.__len__ grid_loader
  = Return (Z.of_nat (length (emitted (Loader._build_iter 1 grid_loader grid_state)))).
Proof.
  apply (len_matches_one_group_per_file grid_loader 2 2 1 4 4 4 4); try done.
  - apply Forall_cons_2; [by vm_compute|apply Forall_nil_2].
  - apply Forall_cons_2; [by vm_compute|apply Forall_nil_2].
Qed.

(** *** Loops that carry the counter, and what they yield *)

Lemma emits_repeat_ P n (body : Z -> gen Z) c :
  (forall c, emits P (body c)) -> emits P (Loader.repeat_ n body c).
Proof.
  intros Hb. revert c. induction n as [|n IH]; intros c; simpl.
  - apply emits_gret.
  - apply emits_gbind; [apply Hb|apply IH].
Qed.

Lemma emits_for_files P l (body : nat -> Z -> gen Z) c :
  (forall i c, emits P (body i c)) -> emits P (Loader.for_files l body c).
Proof.
  intros Hb. revert c. induction l as [|i l IH]; intros c; simpl.
  - apply emits_gret.
  - apply emits_gbind; [apply Hb|apply IH].
Qed.

Lemma returns_g_randint low high :
  returns (fun x => low <= x < high) (g_randint low high).
Proof.
  intros s x. unfold g_randint, randint.
  destruct (Z.leb_spec high low); [discriminate|]. cbn. intros [= <-].
  pose proof (Z.mod_pos_bound (entropy (random_state s) (drawn (random_state s)))
                (high - low) ltac:(lia)). lia.
Qed.

(** The shell every random traversal shares: what holds of the pairs of every
    depth-group holds of all the pairs. *)
Lemma emits__build_random_iter P self :
  (forall i q c, emits P (Loader.random_group self i q c)) ->
  emits P (Loader._build_random_iter self).
Proof.
  intros Hg. unfold Loader._build_random_iter.
  apply emits_gbind; [apply emits_lift|]. intros q.
  apply emits_gbind; [apply emits_lift|]. intros _.
  apply emits_gbind; [|intros _; apply emits_gret].
  intros s. apply emits_for_files. intros i c. unfold Loader.random_file.
  apply emits_gbind; [apply emits_vf_frames|]. intros n.
  apply emits_gbind.
  { destruct (n =? 0); [apply emits_vf_reopen|apply emits_gret]. }
  intros _.
  apply emits_gbind; [apply emits_vf_frames|]. intros n'.
  apply emits_gbind; [apply emits_lift|]. intros depth.
  apply emits_gbind; [apply emits_lift|]. intros groups.
  apply emits_repeat_. intros c'. apply Hg.
Qed.

(** The shell of the grid traversal, likewise. *)
Lemma emits__build_iter_groups P fuel self :
  (forall i, emits P (Loader.grid_group self i)) ->
  emits P (Loader._build_iter fuel self).
Proof.
  intros Hg. induction fuel as [|fuel IH]; simpl.
  - intros s. constructor.
  - apply emits_gbind; [|intros _; destruct (Loader.loop self); [apply IH|apply emits_gret]].
    unfold Loader.grid_pass.
    apply emits_gbind; [apply emits_lift|]. intros _.
    apply emits_for_dataset. intros i. unfold Loader.grid_file.
    apply emits_gbind; [apply emits_vf_frames|]. intros n.
    apply emits_gbind; [apply emits_lift|]. intros depth.
    apply emits_gbind; [apply emits_lift|]. intros groups.
    apply emits_gbind; [apply emits_for_; intros _ _; apply Hg|]. intros _.
    apply emits_gbind; [apply emits_vf_frames|]. intros rest.
    apply emits_gbind; [apply emits_vf_read_frame|]. intros _. apply emits_gret.
Qed.

Lemma emits_random_patches_inside self sx sy W H frames_hr frames_lr pw ph n c :
  0 <= sx -> 0 <= sy ->
  Forall (shrunk_from sx sy W H) frames_hr ->
  emits inside_frame
    (Loader.random_patches self frames_hr frames_lr (W - np_mod W sx) (H - np_mod H sy)
                           (pw, ph) n c).
Proof.
  intros Hsx Hsy Hfr. revert c. induction n as [|n IH]; intros c; cbn [Loader.random_patches].
  - apply emits_gret.
  - destruct (_ >=? _); [apply emits_lift|]. cbn [fst snd].
    eapply emits_gbind_post; [apply emits_g_randint|apply returns_g_randint|].
    intros x Hx.
    eapply emits_gbind_post; [apply emits_g_randint|apply returns_g_randint|].
    intros y Hy. cbn beta in Hx, Hy.
    apply emits_gbind; [apply emits_lift|]. intros crop_lr.
    apply emits_gbind; [|intros _; apply IH].
    apply emits_yield. unfold inside_frame. cbn [fst].
    apply Forall_fmap. eapply Forall_impl; [exact Hfr|].
    intros f (p & k & ->). unfold crop. cbn.
    pose proof (np_mod_nonneg W sx Hsx). pose proof (np_mod_nonneg H sy Hsy).
    eexists _, _, _, _, _, _. split; [reflexivity|]. cbn. lia.
Qed.

Lemma emits_random_group_inside self sx sy i q c :
  Loader.scale self = Pair sx sy -> 0 <= sx -> 0 <= sy ->
  emits inside_frame (Loader.random_group self i q c).
Proof.
  intros Hscale Hsx Hsy. unfold Loader.random_group. rewrite Hscale.
  apply emits_gbind; [apply emits_lift|]. intros depth.
  eapply emits_gbind_post; [apply emits_vf_read_frame|apply returns_vf_read_frame|].
  intros imgs (W & H & Himgs).
  eapply emits_gbind_post with (Q := Forall (shrunk_from sx sy W H));
    [apply emits_lift| |].
  { apply returns_lift. intros frames_hr. by apply shrink_decoded. }
  intros frames_hr Hfr.
  apply emits_gbind; [apply emits_lift|]. intros frames_lr.
  eapply emits_gbind_post with (Q := fun f => f ∈ frames_hr); [apply emits_lift| |].
  { apply returns_lift. intros f. destruct frames_hr; simpl; [discriminate|].
    intros [= <-]. constructor. }
  intros first Hin.
  pose proof Hfr as Hfr'. rewrite Forall_forall in Hfr'.
  destruct (Hfr' _ Hin) as (p & k & ->). simpl. rewrite !Z.sub_0_r.
  apply emits_gbind; [apply emits_lift|]. intros [pw ph].
  by apply emits_random_patches_inside.
Qed.

(** *** The shape of what is yielded *)

Lemma omap_length {A B} (f : A -> outcome B) l l' :
  omap f l = Return l' -> length l' = length l.
Proof.
  intros E. apply (omap_Forall2 f (fun _ _ => True)) in E; [|done].
  symmetry. by eapply Forall2_length.
Qed.

Lemma returns_vf_read_frame_length i n :
  returns (fun imgs => length imgs = Z.to_nat n) (vf_read_frame i n).
Proof.
  intros s imgs. unfold vf_read_frame.
  destruct (handles s !! i) as [vf|]; [|discriminate].
  unfold read_frame. destruct (frames vf <? n); [discriminate|]. cbn.
  intros [= <-]. by rewrite length_fmap, length_seqZ.
Qed.

Lemma np_floordiv_add x p s :
  0 < s -> p mod s = 0 -> np_floordiv (x + p) s - np_floordiv x s = p / s.
Proof.
  intros Hs Hp. unfold np_floordiv. destruct (Z.eqb_spec s 0); [lia|].
  pose proof (Z.div_mod p s ltac:(lia)) as E. rewrite Hp, Z.add_0_r in E.
  rewrite E at 1. rewrite (Z.mul_comm s), Z.div_add by lia. lia.
Qed.

(** Whatever the origin of the box, the two sides of the pair cut with it have
    the size of the patch and of the patch divided by the scale. *)
Lemma cut_pair_sized sx sy pw ph x y frames_hr frames_lr crop_lr :
  0 < sx -> 0 < sy -> pw mod sx = 0 -> ph mod sy = 0 ->
  length frames_lr = length frames_hr ->
  omap (fun img => try b := box_floordiv (mkBox x y (x + pw) (y + ph)) (Pair sx sy) in
                   Return (crop b img)) frames_lr = Return crop_lr ->
  patch_sized (length frames_hr) (pw, ph) (pw / sx, ph / sy)
              (crop (mkBox x y (x + pw) (y + ph)) <$> frames_hr, crop_lr).
Proof.
  intros Hsx Hsy Hpw Hph Hlen E. unfold patch_sized. cbn [fst snd].
  split; [by rewrite length_fmap|]. split.
  { apply Forall_fmap, Forall_forall. intros img _. cbn. f_equal; lia. }
  split; [by rewrite (omap_length _ _ _ E)|].
  eapply (omap_Forall2 _ (fun _ img => size img = (pw / sx, ph / sy))) in E.
  - clear -E. induction E; constructor; auto.
  - intros img c _. cbn. intros [= <-]. cbn.
    by rewrite !np_floordiv_add.
Qed.

Section sized.
Variable self : Loader.t.
Variables sx sy d pw ph : Z.
Hypothesis Hscale : Loader.scale self = Pair sx sy.
Hypothesis Hdepth : Loader.depth self = Scalar d.
Hypothesis Hpatch : Loader.patch_size self = Pair pw ph.
Hypothesis Hsx : 0 < sx.
Hypothesis Hsy : 0 < sy.
Hypothesis Hpw : pw mod sx = 0.
Hypothesis Hph : ph mod sy = 0.
Local Abbreviation sized := (patch_sized (Z.to_nat d) (pw, ph) (pw / sx, ph / sy)).

Lemma emits_grid_cell_sized frames_hr frames_lr width height w h :
  length frames_hr = Z.to_nat d -> length frames_lr = length frames_hr ->
  emits sized (Loader.grid_cell self frames_hr frames_lr width height (pw, ph) w h).
Proof.
  intros Hhr Hlr. unfold Loader.grid_cell. rewrite Hscale. cbn [fst snd].
  destruct (_ || _); [apply emits_gret|].
  eapply emits_gbind_post with
    (Q := fun crop_lr => sized (crop (mkBox w h (w + pw) (h + ph)) <$> frames_hr, crop_lr));
    [apply emits_lift| |].
  { apply returns_lift. intros crop_lr E. rewrite <- Hhr.
    by apply (cut_pair_sized sx sy pw ph w h frames_hr frames_lr). }
  intros crop_lr Hs. by apply emits_yield.
Qed.

Lemma emits_random_patches_sized frames_hr frames_lr width height n c :
  length frames_hr = Z.to_nat d -> length frames_lr = length frames_hr ->
  emits sized (Loader.random_patches self frames_hr frames_lr width height (pw, ph) n c).
Proof.
  intros Hhr Hlr. revert c. induction n as [|n IH]; intros c; cbn [Loader.random_patches].
  - apply emits_gret.
  - destruct (_ >=? _); [apply emits_lift|]. cbn [fst snd]. rewrite Hscale.
    apply emits_gbind; [apply emits_g_randint|]. intros x.
    apply emits_gbind; [apply emits_g_randint|]. intros y.
    eapply emits_gbind_post with
      (Q := fun crop_lr => sized (crop (mkBox x y (x + pw) (y + ph)) <$> frames_hr, crop_lr));
      [apply emits_lift| |].
    { apply returns_lift. intros crop_lr E. rewrite <- Hhr.
      by apply (cut_pair_sized sx sy pw ph x y frames_hr frames_lr). }
    intros crop_lr Hs.
    apply emits_gbind; [by apply emits_yield|]. intros _. apply IH.
Qed.

(** What both kinds of depth-group do before they cut: read [depth] frames
    and derive the two frame lists, of that length. *)
Lemma emits_group_frames {A} P i (k : list Image -> list Image -> gen A) :
  (forall frames_hr frames_lr,
     length frames_hr = Z.to_nat d -> length frames_lr = length frames_hr ->
     emits P (k frames_hr frames_lr)) ->
  emits P (let* depth := lift (as_int (Loader.depth self)) in
           let* imgs := vf_read_frame i depth in
           let* frames_hr :=
             lift (omap (fun img => shrink_to_multiple_scale img (Loader.scale self)) imgs) in
           let* frames_lr :=
             lift (omap (fun img => try factor := np_ones_div (Loader.scale self) in
                                    Return (bicubic_rescale img factor)) frames_hr) in
           k frames_hr frames_lr).
Proof.
  intros Hk. rewrite Hdepth.
  eapply emits_gbind_post with (Q := fun depth => depth = d); [apply emits_lift| |].
  { apply returns_lift. by intros depth [= <-]. }
  intros ? ->.
  eapply emits_gbind_post;
    [apply emits_vf_read_frame|apply returns_vf_read_frame_length|].
  intros imgs Himgs.
  eapply emits_gbind_post with (Q := fun frames_hr => length frames_hr = length imgs);
    [apply emits_lift| |].
  { apply returns_lift. intros frames_hr. apply omap_length. }
  intros frames_hr Hhr.
  eapply emits_gbind_post with (Q := fun frames_lr => length frames_lr = length frames_hr);
    [apply emits_lift| |].
  { apply returns_lift. intros frames_lr. apply omap_length. }
  intros frames_lr Hlr. apply Hk; congruence.
Qed.

Lemma emits_grid_group_sized i : emits sized (Loader.grid_group self i).
Proof.
  unfold Loader.grid_group. apply emits_group_frames. intros frames_hr frames_lr Hhr Hlr.
  apply emits_gbind; [apply emits_lift|]. intros first.
  destruct (size first) as [width height]. rewrite Hpatch.
  apply emits_gbind; [apply emits_lift|]. intros strides.
  eapply emits_gbind_post with (Q := fun sz => sz = (pw, ph)); [apply emits_lift| |].
  { apply returns_lift. by intros sz [= <-]. }
  intros ? ->.
  apply emits_gbind; [apply emits_lift|]. intros ws.
  apply emits_for_. intros w _.
  apply emits_gbind; [apply emits_lift|]. intros hs.
  apply emits_for_. intros h _. by apply emits_grid_cell_sized.
Qed.

Lemma emits_random_group_sized i q c : emits sized (Loader.random_group self i q c).
Proof.
  unfold Loader.random_group. apply emits_group_frames. intros frames_hr frames_lr Hhr Hlr.
  apply emits_gbind; [apply emits_lift|]. intros first.
  destruct (size first) as [width height]. rewrite Hpatch.
  eapply emits_gbind_post with (Q := fun sz => sz = (pw, ph)); [apply emits_lift| |].
  { apply returns_lift. by intros sz [= <-]. }
  intros ? ->. by apply emits_random_patches_sized.
Qed.
End sized.

Lemma patch_sized_well_shaped to_gray d pw ph lw lh pair :
  (0 < d)%nat -> patch_sized d (pw, ph) (lw, lh) pair ->
  well_shaped to_gray [Z.of_nat d; ph; pw; channels_of to_gray]
                      [Z.of_nat d; lh; lw; channels_of to_gray] pair.
Proof.
  intros Hd (Hl1 & Hs1 & Hl2 & Hs2). destruct pair as [hr lr]. cbn [fst snd] in *.
  unfold well_shaped, BatchLoader.to_arrays.
  set (mode := if to_gray then "L"%string else "YCbCr"%string).
  assert (forall imgs w h,
            length imgs = d -> Forall (fun img => size img = (w, h)) imgs ->
            np_stack (img_to_array <$> (convert mode <$> imgs))
            = Return (Stack (img_to_array <$> (convert mode <$> imgs)))
            /\ nd_shape (Stack (img_to_array <$> (convert mode <$> imgs)))
               = [Z.of_nat d; h; w; channels_of to_gray]) as Hstack.
  { intros imgs w h Hl Hs.
    destruct (np_stack_uniform (img_to_array <$> (convert mode <$> imgs))
                [h; w; channels_of to_gray]) as [E1 E2].
    - destruct imgs; [simpl in Hl; lia|done].
    - apply Forall_fmap, Forall_fmap, Forall_forall. intros img Hin.
      rewrite Forall_forall in Hs. specialize (Hs _ Hin). cbn.
      rewrite Hs. cbn. unfold mode, channels_of. by destruct to_gray.
    - split; [done|]. by rewrite E2, !length_fmap, Hl. }
  destruct (Hstack hr pw ph Hl1 Hs1) as [E1 S1].
  destruct (Hstack lr lw lh Hl2 Hs2) as [E2 S2].
  eexists _, _. fold mode. rewrite E1, E2. cbn [obind]. done.
Qed.

(** *** What a batch holds *)

Section batch_contents.
Variable self : BatchLoader.t.
Variables sh_hr sh_lr : list Z.
Local Abbreviation B := (BatchLoader.batch self).
Local Abbreviation conv := (converted (BatchLoader.to_gray self) sh_hr sh_lr).

Lemma load_loop_fills ps abs fin :
  conv ps abs ->
  forall fuel batch_hr batch_lr,
    (length ps < fuel)%nat ->
    Forall (fun a => nd_shape a = sh_hr) batch_hr ->
    Forall (fun a => nd_shape a = sh_lr) batch_lr ->
    0 < B - Z.of_nat (length batch_hr) <= Z.of_nat (length ps) ->
    let k := Z.to_nat (B - Z.of_nat (length batch_hr)) in
    BatchLoader.load_loop fuel self (mkGenerator ps fin) batch_hr batch_lr
    = (Return (BatchLoader.Arrays (Stack (batch_hr ++ (take k abs).*1))
                                  (Stack (batch_lr ++ (take k abs).*2))),
       mkGenerator (drop k ps) fin).
Proof.
  induction 1 as [|p ab ps abs (Hp & Ha & Hb) Hps IH]; intros fuel bh bl Hfuel Hbh Hbl Hroom.
  - cbn [length] in Hroom. lia.
  - destruct fuel as [|fuel]; [simpl in Hfuel; lia|].
    cbn [BatchLoader.load_loop next next_with pending finish]. rewrite Hp.
    destruct ab as [a b]. cbn [fst snd] in *. rewrite length_app. cbn [length].
    assert (Forall (fun a => nd_shape a = sh_hr) (bh ++ [a])) as Hbh'
      by (apply Forall_app; by repeat constructor).
    assert (Forall (fun a => nd_shape a = sh_lr) (bl ++ [b])) as Hbl'
      by (apply Forall_app; by repeat constructor).
    destruct (Z.eqb_spec (Z.of_nat (length bh + 1)) B) as [Efull|Hnot].
    + destruct (np_stack_uniform (bh ++ [a]) sh_hr) as [-> _]; [by destruct bh|done|].
      destruct (np_stack_uniform (bl ++ [b]) sh_lr) as [-> _]; [by destruct bl|done|].
      cbn [obind]. cbn zeta.
      replace (Z.to_nat (B - Z.of_nat (length bh))) with 1%nat by lia.
      cbn [take fmap list_fmap fst snd drop]. by rewrite take_0, drop_0.
    + specialize (IH fuel (bh ++ [a]) (bl ++ [b])).
      rewrite length_app in IH. cbn [length] in IH. cbn zeta in *.
      rewrite IH; [|simpl in Hfuel; lia|done|done|cbn [length] in Hroom; lia].
      replace (Z.to_nat (B - Z.of_nat (length bh)))
        with (S (Z.to_nat (B - Z.of_nat (length bh + 1)))) by (cbn [length] in Hroom; lia).
      cbn [take drop fmap list_fmap fst snd]. by rewrite <- !app_assoc.
Qed.

Lemma load_loop_drains ps abs fin :
  conv ps abs ->
  forall fuel batch_hr batch_lr,
    (length ps < fuel)%nat ->
    length batch_lr = length batch_hr ->
    Forall (fun a => nd_shape a = sh_hr) batch_hr ->
    Forall (fun a => nd_shape a = sh_lr) batch_lr ->
    ~ 0 < B - Z.of_nat (length batch_hr) <= Z.of_nat (length ps) ->
    BatchLoader.load_loop fuel self (mkGenerator ps fin) batch_hr batch_lr
    = match fin with
      | Return _ =>
          (if bool_decide (batch_hr ++ abs.*1 = []) then Return BatchLoader.EmptyLists
           else Return (BatchLoader.Arrays (Stack (batch_hr ++ abs.*1))
                                           (Stack (batch_lr ++ abs.*2))),
           mkGenerator [] fin)
      | Raise e => (Raise (surfaced e), mkGenerator [] (Return tt))
      | OutOfFuel => (OutOfFuel, mkGenerator [] fin)
      end.
Proof.
  induction 1 as [|p ab ps abs (Hp & Ha & Hb) Hps IH];
    intros fuel bh bl Hfuel Hlen Hbh Hbl Hroom.
  - destruct fuel as [|fuel]; [simpl in Hfuel; lia|].
    cbn [BatchLoader.load_loop next next_with pending finish fmap list_fmap].
    rewrite !app_nil_r.
    destruct fin as [[]|e|]; [| |done].
    + destruct bh as [|a bh]; destruct bl as [|b bl]; try done.
      destruct (np_stack_uniform (a :: bh) sh_hr ltac:(done) Hbh) as [-> _].
      destruct (np_stack_uniform (b :: bl) sh_lr ltac:(done) Hbl) as [-> _].
      done.
    + by destruct e.
  - destruct fuel as [|fuel]; [simpl in Hfuel; lia|].
    cbn [BatchLoader.load_loop next next_with pending finish]. rewrite Hp.
    destruct ab as [a b]. cbn [fst snd] in *. rewrite length_app. cbn [length] in *.
    destruct (Z.eqb_spec (Z.of_nat (length bh + 1)) B) as [Efull|Hnot]; [lia|].
    rewrite (IH fuel (bh ++ [a]) (bl ++ [b])).
    + cbn [fmap list_fmap fst snd]. by rewrite <- !app_assoc.
    + simpl in Hfuel. lia.
    + rewrite !length_app. cbn [length]. lia.
    + apply Forall_app. by repeat constructor.
    + apply Forall_app. by repeat constructor.
    + rewrite length_app. cbn [length]. lia.
Qed.

Lemma squeeze_both_spec {T} hr lr (t : T) :
  match (try a := np_squeeze hr 1 in try b := np_squeeze lr 1 in Return (a, b)) with
  | Raise ValueError => (Return (hr, lr), t)
  | squeezed => (squeezed, t)
  end = (Return (squeeze_both hr lr), t).
Proof.
  unfold squeeze_both.
  destruct (np_squeeze_cases hr 1) as [E1 | E1], (np_squeeze_cases lr 1) as [E2 | E2];
    rewrite E1; cbn [obind]; rewrite ?E2; done.
Qed.

Lemma squeeze_both_items hr lr :
  batch_items (squeeze_both hr lr).1 = batch_items hr
  /\ batch_items (squeeze_both hr lr).2 = batch_items lr.
Proof.
  unfold squeeze_both.
  destruct (np_squeeze_cases hr 1) as [E1 | E1], (np_squeeze_cases lr 1) as [E2 | E2];
    rewrite E1, ?E2; done.
Qed.

(** A call that finds at least a batch of pairs. *)
Lemma next_fills ps abs fin :
  draws_from self (mkGenerator ps fin) -> conv ps abs ->
  0 < B <= Z.of_nat (length ps) ->
  BatchLoader.__next__ self
  = (Return (squeeze_both (Stack (take (Z.to_nat B) abs).*1)
                          (Stack (take (Z.to_nat B) abs).*2)),
     drawing_from self (mkGenerator (drop (Z.to_nat B) ps) fin)).
Proof.
  intros Hg Hconv HB. unfold BatchLoader.__next__, BatchLoader._load_batch, Loader.__iter__.
  rewrite Hg. cbn [py_iter pending].
  rewrite (load_loop_fills ps abs fin Hconv (S (length ps)) [] []);
    [|lia|constructor|constructor|cbn [length]; lia].
  cbn [length app]. rewrite Z.sub_0_r. by rewrite squeeze_both_spec.
Qed.

(** A call that finds fewer pairs than a batch before the generator ends
    normally. *)
Lemma next_drains ps abs :
  draws_from self (mkGenerator ps (Return tt)) -> conv ps abs ->
  ~ 0 < B <= Z.of_nat (length ps) ->
  BatchLoader.__next__ self
  = (if bool_decide (abs.*1 = []) then Raise StopIteration
     else Return (squeeze_both (Stack abs.*1) (Stack abs.*2)),
     drawing_from self (mkGenerator [] (Return tt))).
Proof.
  intros Hg Hconv HB. unfold BatchLoader.__next__, BatchLoader._load_batch, Loader.__iter__.
  rewrite Hg. cbn [py_iter pending].
  rewrite (load_loop_drains ps abs (Return tt) Hconv (S (length ps)) [] []);
    [|lia|done|constructor|constructor|cbn [length]; lia].
  cbn [app]. destruct (bool_decide (abs.*1 = [])); [done|].
  by rewrite squeeze_both_spec.
Qed.

(** A call that finds fewer pairs than a batch before the generator fails:
    the exception reaches the caller and the pairs are gone. *)
Lemma next_fails ps abs e :
  draws_from self (mkGenerator ps (Raise e)) -> conv ps abs ->
  ~ 0 < B <= Z.of_nat (length ps) ->
  BatchLoader.__next__ self
  = (Raise (surfaced e), drawing_from self (mkGenerator [] (Return tt))).
Proof.
  intros Hg Hconv HB. unfold BatchLoader.__next__, BatchLoader._load_batch, Loader.__iter__.
  rewrite Hg. cbn [py_iter pending].
  by rewrite (load_loop_drains ps abs (Raise e) Hconv (S (length ps)) [] []);
    [|lia|done|constructor|constructor|cbn [length]; lia].
Qed.
End batch_contents.

Lemma well_shaped_converted to_gray sh_hr sh_lr ps :
  Forall (well_shaped to_gray sh_hr sh_lr) ps ->
  exists abs, converted to_gray sh_hr sh_lr ps abs.
Proof.
  induction 1 as [|p ps (a & b & Hp & Ha & Hb) _ [abs IH]].
  - exists []. constructor.
  - exists ((a, b) :: abs). by constructor.
Qed.

Lemma converted_length to_gray sh_hr sh_lr ps abs :
  converted to_gray sh_hr sh_lr ps abs -> length abs = length ps.
Proof. intros H. symmetry. by eapply Forall2_length. Qed.

Lemma drawing_from_draws self g : draws_from (drawing_from self g) g.
Proof. done. Qed.

Lemma np_squeeze_head a :
  head (nd_shape (Squeezed 1 a)) = head (nd_shape a) \/ np_squeeze a 1 = Raise ValueError.
Proof.
  unfold np_squeeze. cbn [nd_shape]. destruct (nd_shape a) as [|k [|d r]]; auto.
Qed.

Lemma squeeze_both_len hr lr :
  batch_len (Return (squeeze_both hr lr)) = Return (head (nd_shape hr), head (nd_shape lr)).
Proof.
  unfold squeeze_both, batch_len. cbn [obind].
  destruct (np_squeeze_cases hr 1) as [E1 | E1], (np_squeeze_cases lr 1) as [E2 | E2];
    rewrite E1, ?E2; try done.
  cbn [fst snd].
  destruct (np_squeeze_head hr) as [-> | E1']; [|congruence].
  destruct (np_squeeze_head lr) as [-> | E2']; [|congruence]. done.
Qed.

Lemma np_squeeze_depth a k d r :
  nd_shape a = k :: d :: r ->
  np_squeeze a 1 = if d =? 1 then Return (Squeezed 1 a) else Raise ValueError.
Proof.
  intros E. unfold np_squeeze. rewrite E. cbn. by destruct d as [|[]|].
Qed.

Lemma stack_shape (l : list ndarray) sh :
  l <> [] -> Forall (fun a => nd_shape a = sh) l ->
  nd_shape (Stack l) = Z.of_nat (length l) :: sh.
Proof. intros Hne Hall. by destruct (np_stack_uniform l sh Hne Hall). Qed.

Lemma converted_shapes to_gray sh_hr sh_lr ps abs :
  converted to_gray sh_hr sh_lr ps abs ->
  Forall (fun a => nd_shape a = sh_hr) abs.*1 /\ Forall (fun a => nd_shape a = sh_lr) abs.*2.
Proof.
  induction 1 as [|p ab ps abs (_ & Ha & Hb) _ [IH1 IH2]]; [by split|].
  split; by constructor.
Qed.

Lemma converted_take to_gray sh_hr sh_lr ps abs n :
  converted to_gray sh_hr sh_lr ps abs ->
  converted to_gray sh_hr sh_lr (take n ps) (take n abs).
Proof. apply Forall2_take. Qed.

Lemma converted_drop to_gray sh_hr sh_lr ps abs n :
  converted to_gray sh_hr sh_lr ps abs ->
  converted to_gray sh_hr sh_lr (drop n ps) (drop n abs).
Proof. apply Forall2_drop. Qed.

(** The first axis of a batch that was filled. *)
Lemma filled_batch_len to_gray sh_hr sh_lr ps abs b :
  converted to_gray sh_hr sh_lr ps abs -> 0 < b <= Z.of_nat (length ps) ->
  batch_len (Return (squeeze_both (Stack (take (Z.to_nat b) abs).*1)
                                  (Stack (take (Z.to_nat b) abs).*2)))
  = Return (Some b, Some b).
Proof.
  intros Hconv Hb. rewrite squeeze_both_len.
  pose proof (converted_length _ _ _ _ _ Hconv) as Hlen.
  destruct (converted_shapes _ _ _ _ _ (converted_take _ _ _ _ _ (Z.to_nat b) Hconv))
    as [H1 H2].
  assert (length (take (Z.to_nat b) abs) = Z.to_nat b) as Htake
    by (rewrite length_take; lia).
  rewrite (stack_shape _ sh_hr), (stack_shape _ sh_lr); try done.
  - rewrite !length_fmap, Htake. cbn. by rewrite Z2Nat.id by lia.
  - intros E. apply (f_equal length) in E. rewrite length_fmap, Htake in E. simpl in E. lia.
  - intros E. apply (f_equal length) in E. rewrite length_fmap, Htake in E. simpl in E. lia.
Qed.

Lemma nexts_contents sh_hr sh_lr k :
  forall self ps abs,
    (length ps <= k)%nat ->
    0 < BatchLoader.batch self ->
    draws_from self (mkGenerator ps (Return tt)) ->
    converted (BatchLoader.to_gray self) sh_hr sh_lr ps abs ->
    let outs := nexts (length (batches_of (Z.of_nat (length ps)) (BatchLoader.batch self)))
                      self in
    concat (hr_items <$> outs) = abs.*1 /\ concat (lr_items <$> outs) = abs.*2.
Proof.
  induction k as [|k IH]; intros self ps abs Hk Hb Hg Hconv; cbn zeta.
  - destruct ps; [|simpl in Hk; lia]. inversion Hconv; subst. cbn [length Z.of_nat].
    rewrite batches_of_zero by done. cbn [length nexts].
    rewrite (next_drains self sh_hr sh_lr [] [] Hg Hconv) by (cbn [length]; lia). done.
  - pose proof (converted_length _ _ _ _ _ Hconv) as Hlen.
    destruct (Z.le_gt_cases (BatchLoader.batch self) (Z.of_nat (length ps))) as [Hfull|Hshort].
    + rewrite batches_of_full by lia. cbn [length nexts].
      rewrite (next_fills self sh_hr sh_lr ps abs (Return tt) Hg Hconv) by lia.
      set (b := Z.to_nat (BatchLoader.batch self)).
      destruct (IH (drawing_from self (mkGenerator (drop b ps) (Return tt)))
                  (drop b ps) (drop b abs)) as [IH1 IH2].
      { rewrite length_drop. unfold b. lia. }
      { done. }
      { apply drawing_from_draws. }
      { by apply converted_drop. }
      cbn zeta in IH1, IH2. rewrite length_drop in IH1, IH2.
      replace (Z.of_nat (length ps - b)) with (Z.of_nat (length ps) - BatchLoader.batch self)
        in IH1, IH2 by (unfold b; lia).
      change (BatchLoader.batch (drawing_from self _)) with (BatchLoader.batch self) in IH1, IH2.
      rewrite !fmap_cons. cbn [concat hr_items lr_items].
      destruct (squeeze_both_items (Stack (take b abs).*1) (Stack (take b abs).*2)) as [E1 E2].
      destruct (squeeze_both _ _) as [a c]. cbn [fst snd] in E1, E2.
      rewrite E1, E2, IH1, IH2. cbn [batch_items].
      by rewrite <- !fmap_app, take_drop.
    + destruct (decide (ps = [])) as [->|Hne].
      * inversion Hconv; subst. cbn [length Z.of_nat].
        rewrite batches_of_zero by done. cbn [length nexts].
        rewrite (next_drains self sh_hr sh_lr [] [] Hg Hconv) by (cbn [length]; lia). done.
      * assert (0 < Z.of_nat (length ps)) by (destruct ps; [done|cbn [length]; lia]).
        rewrite batches_of_short by lia. cbn [length nexts].
        rewrite (next_drains self sh_hr sh_lr ps abs Hg Hconv) by lia.
        assert (abs.*1 <> []) as Hne'.
        { intros E. apply (f_equal length) in E. rewrite length_fmap, Hlen in E.
          simpl in E. lia. }
        rewrite bool_decide_eq_false_2 by done.
        rewrite (next_drains _ sh_hr sh_lr [] []);
          [|apply drawing_from_draws|constructor|cbn [length]; lia].
        rewrite !fmap_cons. cbn [concat hr_items lr_items fmap list_fmap bool_decide].
        destruct (squeeze_both_items (Stack abs.*1) (Stack abs.*2)) as [E1 E2].
        destruct (squeeze_both _ _) as [a c]. cbn [fst snd] in E1, E2.
        rewrite E1, E2. cbn. by rewrite !app_nil_r.
Qed.

Lemma nexts_failing sh_hr sh_lr e k :
  forall self ps abs,
    (length ps <= k)%nat ->
    0 < BatchLoader.batch self ->
    draws_from self (mkGenerator ps (Raise e)) ->
    converted (BatchLoader.to_gray self) sh_hr sh_lr ps abs ->
    let n := Z.of_nat (length ps) in
    let b := BatchLoader.batch self in
    batch_len <$> nexts (Z.to_nat (n / b) + 2) self
    = replicate (Z.to_nat (n / b)) (Return (Some b, Some b))
      ++ [Raise (surfaced e); Raise StopIteration].
Proof.
  induction k as [|k IH]; intros self ps abs Hk Hb Hg Hconv; cbn zeta.
  - destruct ps; [|simpl in Hk; lia]. cbn [length Z.of_nat].
    rewrite Z.div_0_l by lia. change (Z.to_nat 0) with 0%nat. cbn [Nat.add nexts replicate app].
    rewrite (next_fails self sh_hr sh_lr [] abs e Hg Hconv) by (cbn [length]; lia).
    rewrite (next_drains _ sh_hr sh_lr [] []);
      [|apply drawing_from_draws|constructor|cbn [length]; lia]. done.
  - destruct (Z.le_gt_cases (BatchLoader.batch self) (Z.of_nat (length ps))) as [Hfull|Hshort].
    + set (b := BatchLoader.batch self) in *. set (n := Z.of_nat (length ps)) in *.
      assert (n / b = (n - b) / b + 1) as Ediv.
      { replace n with ((n - b) + 1 * b) at 1 by lia. by rewrite Z.div_add by lia. }
      pose proof (Z.div_pos (n - b) b ltac:(lia) ltac:(lia)) as Hpos.
      rewrite Ediv.
      replace (Z.to_nat ((n - b) / b + 1)) with (S (Z.to_nat ((n - b) / b))) by lia.
      cbn [Nat.add nexts replicate app].
      rewrite (next_fills self sh_hr sh_lr ps abs (Raise e) Hg Hconv) by (fold b n; lia).
      rewrite fmap_cons. fold b. rewrite (filled_batch_len _ sh_hr sh_lr ps abs b Hconv)
        by (fold n; lia).
      f_equal.
      specialize (IH (drawing_from self (mkGenerator (drop (Z.to_nat b) ps) (Raise e)))
                     (drop (Z.to_nat b) ps) (drop (Z.to_nat b) abs)).
      cbn zeta in IH. rewrite length_drop in IH.
      change (BatchLoader.batch (drawing_from self _)) with b in IH.
      replace (Z.of_nat (length ps - Z.to_nat b)) with (n - b) in IH by (unfold n; lia).
      apply IH; [lia|done|apply drawing_from_draws|by apply converted_drop].
    + pose proof (Nat2Z.is_nonneg (length ps)).
      rewrite Z.div_small by lia. change (Z.to_nat 0) with 0%nat. cbn [Nat.add nexts replicate app].
      rewrite (next_fails self sh_hr sh_lr ps abs e Hg Hconv) by lia.
      rewrite (next_drains _ sh_hr sh_lr [] []);
        [|apply drawing_from_draws|constructor|cbn [length]; lia]. done.
Qed.

(** *** Unset patch size and stride *)

Lemma py_range_whole W ws : py_range 0 W W = Return ws -> ws = [0].
Proof.
  unfold py_range. destruct (Z.eqb_spec W 0); [discriminate|].
  destruct (Z.ltb_spec 0 W); intros [= <-].
  - replace ((W - 0 + W - 1) / W) with 1; [done|].
    apply Z.div_unique with (r := W - 1); lia.
  - replace ((0 - W - W - 1) / - W) with 1; [done|].
    apply Z.div_unique with (r := - W - 1); lia.
Qed.

Lemma shrink_same_size scale W H imgs frames_hr :
  Forall (decoded_as W H) imgs ->
  omap (fun img => shrink_to_multiple_scale img scale) imgs = Return frames_hr ->
  exists wh, Forall (fun f => size f = wh) frames_hr.
Proof.
  intros Hdec E. destruct scale as [|z|sx sy].
  - destruct imgs; [|discriminate]. injection E as <-. by exists (0, 0).
  - destruct imgs; [|discriminate]. injection E as <-. by exists (0, 0).
  - exists (W - np_mod W sx - 0, H - np_mod H sy - 0).
    pose proof (shrink_decoded _ _ _ _ _ _ Hdec E) as Hshr.
    eapply Forall_impl; [exact Hshr|]. by intros f (p & k & ->).
Qed.

Lemma whole_frame_cut width height frames_hr crop_lr :
  Forall (fun f => size f = (width, height)) frames_hr ->
  whole_frame (crop (mkBox 0 0 (0 + width) (0 + height)) <$> frames_hr, crop_lr).
Proof.
  intros Hsz. unfold whole_frame. cbn [fst]. apply Forall_fmap.
  eapply Forall_impl; [exact Hsz|]. intros f Hf. exists f. cbn. by rewrite Hf.
Qed.

Lemma emits_random_patches_whole self frames_hr frames_lr width height n c :
  Forall (fun f => size f = (width, height)) frames_hr ->
  emits whole_frame
    (Loader.random_patches self frames_hr frames_lr width height (width, height) n c).
Proof.
  intros Hsz. revert c. induction n as [|n IH]; intros c; cbn [Loader.random_patches].
  - apply emits_gret.
  - destruct (_ >=? _); [apply emits_lift|]. cbn [fst snd].
    eapply emits_gbind_post; [apply emits_g_randint|apply returns_g_randint|].
    intros x Hx.
    eapply emits_gbind_post; [apply emits_g_randint|apply returns_g_randint|].
    intros y Hy. cbn beta in Hx, Hy.
    assert (x = 0) as -> by lia. assert (y = 0) as -> by lia.
    apply emits_gbind; [apply emits_lift|]. intros crop_lr.
    apply emits_gbind; [|intros _; apply IH].
    apply emits_yield. by apply whole_frame_cut.
Qed.

(** What both kinds of depth-group know of their frames: they have the size
    of the first. *)
Lemma emits_group_same_size {A} P self i (k : list Image -> list Image -> Image -> gen A) :
  (forall frames_hr frames_lr first,
     Forall (fun f => size f = size first) frames_hr ->
     emits P (k frames_hr frames_lr first)) ->
  emits P (let* depth := lift (as_int (Loader.depth self)) in
           let* imgs := vf_read_frame i depth in
           let* frames_hr :=
             lift (omap (fun img => shrink_to_multiple_scale img (Loader.scale self)) imgs) in
           let* frames_lr :=
             lift (omap (fun img => try factor := np_ones_div (Loader.scale self) in
                                    Return (bicubic_rescale img factor)) frames_hr) in
           let* first := lift (item0 frames_hr) in
           k frames_hr frames_lr first).
Proof.
  intros Hk.
  apply emits_gbind; [apply emits_lift|]. intros depth.
  eapply emits_gbind_post; [apply emits_vf_read_frame|apply returns_vf_read_frame|].
  intros imgs (W & H & Himgs).
  eapply emits_gbind_post with (Q := fun frames_hr => exists wh,
                                       Forall (fun f => size f = wh) frames_hr);
    [apply emits_lift| |].
  { apply returns_lift. intros frames_hr. by apply shrink_same_size with (W := W) (H := H). }
  intros frames_hr [wh Hsz].
  apply emits_gbind; [apply emits_lift|]. intros frames_lr.
  eapply emits_gbind_post with (Q := fun f => f ∈ frames_hr); [apply emits_lift| |].
  { apply returns_lift. intros f. destruct frames_hr; simpl; [discriminate|].
    intros [= <-]. constructor. }
  intros first Hin. apply Hk.
  pose proof Hsz as Hsz'. rewrite Forall_forall in Hsz'. by rewrite (Hsz' _ Hin).
Qed.

Lemma emits_random_group_whole self i q c :
  Loader.patch_size self = Unset ->
  emits whole_frame (Loader.random_group self i q c).
Proof.
  intros Hpatch. unfold Loader.random_group.
  apply (emits_group_same_size whole_frame self i
           (fun frames_hr frames_lr first =>
              let '(width, height) := size first in
              let* patch_size := lift (attr_or (Loader.patch_size self) (width, height)) in
              Loader.random_patches self frames_hr frames_lr width height patch_size
                                    (Z.to_nat q) c)).
  intros frames_hr frames_lr first Hsz.
  destruct (size first) as [width height]. rewrite Hpatch.
  eapply emits_gbind_post with (Q := fun sz => sz = (width, height)); [apply emits_lift| |].
  { apply returns_lift. by intros sz [= <-]. }
  intros ? ->. by apply emits_random_patches_whole.
Qed.

Lemma emits_grid_group_whole self i :
  Loader.patch_size self = Unset -> Loader.strides self = Unset ->
  emits whole_frame (Loader.grid_group self i).
Proof.
  intros Hpatch Hstrides. unfold Loader.grid_group.
  apply (emits_group_same_size whole_frame self i
           (fun frames_hr frames_lr first =>
              let '(width, height) := size first in
              let* strides := lift (attr_or (Loader.strides self) (width, height)) in
              let* patch_size := lift (attr_or (Loader.patch_size self) (width, height)) in
              let* ws := lift (py_range 0 width (fst strides)) in
              for_ ws (fun w =>
                let* hs := lift (py_range 0 height (snd strides)) in
                for_ hs (fun h => Loader.grid_cell self frames_hr frames_lr width height
                                                   patch_size w h)))).
  intros frames_hr frames_lr first Hsz.
  destruct (size first) as [width height]. rewrite Hpatch, Hstrides.
  eapply emits_gbind_post with (Q := fun sz => sz = (width, height)); [apply emits_lift| |].
  { apply returns_lift. by intros sz [= <-]. }
  intros ? ->.
  eapply emits_gbind_post with (Q := fun sz => sz = (width, height)); [apply emits_lift| |].
  { apply returns_lift. by intros sz [= <-]. }
  intros ? ->. cbn [fst snd].
  eapply emits_gbind_post with (Q := fun ws => ws = [0]); [apply emits_lift| |].
  { apply returns_lift. intros ws. apply py_range_whole. }
  intros ? ->. apply emits_for_. intros w Hw. apply list_elem_of_singleton in Hw as ->.
  eapply emits_gbind_post with (Q := fun hs => hs = [0]); [apply emits_lift| |].
  { apply returns_lift. intros hs. apply py_range_whole. }
  intros ? ->. apply emits_for_. intros h Hh. apply list_elem_of_singleton in Hh as ->.
  unfold Loader.grid_cell. cbn [fst snd].
  destruct (_ || _); [apply emits_gret|].
  apply emits_gbind; [apply emits_lift|]. intros crop_lr.
  apply emits_yield. by apply whole_frame_cut.
Qed.

Lemma len_uncropped self ds :
  Loader.random self = false -> Loader.dataset self = Some ds ->
  Loader.patch_size self = Unset -> Loader.strides self = Unset ->
  Forall (fun vf => (shape vf).1 <> 0 /\ (shape vf).2 <> 0) ds ->
  Loader.__len__ self = Return (Z.of_nat (length ds)).
Proof.
  intros Hrandom Hds Hpatch Hstrides Hshape. unfold Loader.__len__.
  rewrite Hrandom, Hds, Hpatch, Hstrides. clear Hds.
  replace (Z.of_nat (length ds)) with (0 + Z.of_nat (length ds)) by lia. generalize 0.
  induction Hshape as [|vf ds [Hw Hh] _ IH]; intros a; cbn [foldl length].
  - f_equal. lia.
  - cbn [obind]. destruct (shape vf) as [w h]. cbn [attr_or obind fst snd] in *.
    unfold floordiv. destruct (Z.eqb_spec w 0); [done|]. destruct (Z.eqb_spec h 0); [done|].
    cbn [obind]. rewrite !Z.sub_diag, !Z.div_0_l by done. rewrite IH. f_equal. lia.
Qed.

(** *** An empty file list *)

Lemma build_iter_no_files fuel self r :
  is_Some (Loader.dataset self) ->
  Loader._build_iter fuel self (mkState [] r)
  = mkRun [] (match fuel with
              | O => OutOfFuel
              | S _ => if Loader.loop self then OutOfFuel else Return tt
              end) (mkState [] r).
Proof.
  intros [ds Hds]. induction fuel as [|fuel IH]; [done|].
  cbn [Loader._build_iter]. unfold gbind, Loader.grid_pass, Loader.self_dataset.
  rewrite Hds. cbn. destruct (Loader.loop self); [|done].
  rewrite IH. by destruct fuel.
Qed.

Lemma next_out_of_fuel self :
  draws_from self (mkGenerator [] OutOfFuel) ->
  (BatchLoader.__next__ self).1 = OutOfFuel.
Proof.
  intros Hg. unfold BatchLoader.__next__, BatchLoader._load_batch, Loader.__iter__.
  unfold draws_from in Hg. rewrite Hg. done.
Qed.

(** *** A patch larger than the frame, in random mode *)

Lemma g_randint_empty low high s :
  high <= low ->
  g_randint low high s
  = mkRun [] (Raise ValueError) (mkState (handles s) (random_state s)).
Proof.
  intros Hle. unfold g_randint, randint. by destruct (Z.leb_spec high low); [|lia].
Qed.

Section oversize.
Variable self : Loader.t.
Variables sx sy d pw ph : Z.
Hypothesis Hscale : Loader.scale self = Pair sx sy.
Hypothesis Hdepth : Loader.depth self = Scalar d.
Hypothesis Hpatch : Loader.patch_size self = Pair pw ph.
Hypothesis Hd : 0 < d.

Lemma random_patches_oversize frames_hr frames_lr width height n c s :
  width < pw \/ height < ph -> c < Loader.max_patches self ->
  let r := Loader.random_patches self frames_hr frames_lr width height (pw, ph) (S n) c s in
  emitted r = [] /\ result r = Raise ValueError.
Proof.
  intros Hover Hc. cbn [Loader.random_patches]. rewrite Z.geb_leb.
  destruct (Z.leb_spec (Loader.max_patches self) c); [lia|]. cbn [fst snd].
  destruct (Z_lt_le_dec width pw) as [Hw|Hw].
  - by rewrite (gbind_raise _ _ _ _ _ _ (g_randint_empty 0 (width - pw + 1) s ltac:(lia))).
  - destruct (g_randint_ok 0 (width - pw + 1) s ltac:(lia)) as (x & r1 & E1 & _).
    rewrite (gbind_return _ _ _ _ _ E1).
    by rewrite (gbind_raise _ _ _ _ _ _ (g_randint_empty 0 (height - ph + 1) _ ltac:(lia))).
Qed.

Lemma random_group_oversize i q c s vf :
  handles s !! i = Some vf -> d <= frames vf ->
  (shape vf).1 - np_mod (shape vf).1 sx < pw \/ (shape vf).2 - np_mod (shape vf).2 sy < ph ->
  c < Loader.max_patches self -> 0 < q ->
  let r := Loader.random_group self i q c s in
  emitted r = [] /\ result r = Raise ValueError.
Proof.
  intros Hi Hfr Hover Hc Hq. unfold Loader.random_group.
  rewrite Hdepth, Hscale. rewrite (gbind_lift_return _ _ _ d) by done.
  destruct (read_frame_ok d Hd vf Hfr) as (img0 & imgs & vf' & Hread & Hdec & _).
  assert (vf_read_frame i d s
          = mkRun [] (Return (img0 :: imgs))
                  (mkState (<[i := vf']> (handles s)) (random_state s))) as E1.
  { unfold vf_read_frame. by rewrite Hi, Hread. }
  rewrite (gbind_return _ _ _ _ _ E1).
  destruct (shrink_total sx sy (img0 :: imgs)) as [frames_hr E2].
  rewrite (gbind_lift_return _ _ _ _ E2).
  destruct (rescale_total sx sy frames_hr) as [frames_lr E3].
  rewrite (gbind_lift_return _ _ _ _ E3).
  pose proof (shrink_decoded _ _ _ _ _ _ Hdec E2) as Hshr.
  destruct (omap_cons_inv _ _ _ _ E2) as (f0 & fs & -> & _).
  rewrite (gbind_lift_return _ _ _ f0) by done.
  apply Forall_cons_1 in Hshr as [(p & k & ->) _]. cbn [size b_right b_left b_bottom b_top].
  rewrite !Z.sub_0_r. rewrite Hpatch.
  rewrite (gbind_lift_return _ _ _ (pw, ph)) by done.
  destruct (Z.to_nat q) as [|n] eqn:En; [lia|].
  by apply random_patches_oversize.
Qed.

Lemma random_file_oversize q i c s vf :
  handles s !! i = Some vf -> 0 <= cursor vf <= n_frames vf ->
  d <= frames (opened vf) ->
  (shape vf).1 - np_mod (shape vf).1 sx < pw \/ (shape vf).2 - np_mod (shape vf).2 sy < ph ->
  c < Loader.max_patches self -> 0 < q ->
  let r := Loader.random_file self q i c s in
  emitted r = [] /\ result r = Raise ValueError.
Proof.
  intros Hi Hcur Hfr Hover Hc Hq. unfold Loader.random_file.
  assert (vf_frames i s = mkRun [] (Return (frames vf)) s) as E1.
  { unfold vf_frames. by rewrite Hi. }
  rewrite (gbind_return _ _ _ _ _ E1).
  set (s1 := mkState (<[i := opened vf]> (handles s)) (random_state s)).
  assert ((if frames vf =? 0 then vf_reopen i else gret tt) s
          = mkRun [] (Return tt) (if frames vf =? 0 then s1 else s)) as E2.
  { unfold opened in s1. destruct (frames vf =? 0); [|done].
    unfold vf_reopen. by rewrite Hi. }
  rewrite (gbind_return _ _ _ _ _ E2).
  assert (i < length (handles s))%nat as Hlen by by eapply lookup_lt_Some.
  assert (handles s1 !! i = Some (opened vf)) as Hi1
    by by apply list_lookup_insert_eq.
  assert (handles (if frames vf =? 0 then s1 else s) !! i = Some (opened vf)) as Hi2.
  { unfold opened in *. by destruct (frames vf =? 0). }
  assert (vf_frames i (if frames vf =? 0 then s1 else s)
          = mkRun [] (Return (frames (opened vf))) (if frames vf =? 0 then s1 else s)) as E3.
  { unfold vf_frames. by rewrite Hi2. }
  rewrite (gbind_return _ _ _ _ _ E3).
  rewrite Hdepth. rewrite (gbind_lift_return _ _ _ d) by done.
  rewrite (gbind_lift_return _ _ _ (frames (opened vf) / d)).
  2:{ unfold floordiv. destruct (Z.eqb_spec d 0); [lia|done]. }
  assert (1 <= frames (opened vf) / d) as Hg.
  { apply Z.div_le_lower_bound; lia. }
  destruct (Z.to_nat (frames (opened vf) / d)) as [|n] eqn:En; [lia|].
  cbn [Loader.repeat_]. rewrite emitted_gbind, result_gbind.
  assert (shape (opened vf) = shape vf) as Hsh.
  { unfold opened. by destruct (frames vf =? 0). }
  destruct (random_group_oversize i q c (if frames vf =? 0 then s1 else s) (opened vf) Hi2 Hfr)
    as [He Hr]; [by rewrite Hsh|done|done|].
  cbn zeta in He, Hr. by rewrite Hr, He.
Qed.

Lemma build_random_iter_oversize q s vf rest :
  is_Some (Loader.dataset self) ->
  Loader.patch_per_file (Loader.max_patches self) (Loader.length_ self) = Return q ->
  0 < q -> 0 < Loader.max_patches self ->
  handles s = vf :: rest -> 0 <= cursor vf <= n_frames vf ->
  d <= frames (opened vf) ->
  (shape vf).1 - np_mod (shape vf).1 sx < pw \/ (shape vf).2 - np_mod (shape vf).2 sy < ph ->
  let r := Loader._build_random_iter self s in
  emitted r = [] /\ result r = Raise ValueError.
Proof.
  intros [ds Hds] Hppf Hq Hmx Hs Hcur Hfr Hover.
  unfold Loader._build_random_iter, Loader.self_dataset. cbn zeta.
  rewrite (gbind_lift_return _ _ _ q) by done.
  rewrite (gbind_lift_return _ _ _ tt) by (by rewrite Hds).
  rewrite emitted_gbind, result_gbind. rewrite Hs. cbn [length seq Loader.for_files].
  rewrite emitted_gbind, result_gbind.
  destruct (random_file_oversize q 0%nat 0 s vf) as [He Hr]; try done.
  { by rewrite Hs. }
  cbn zeta in He, Hr. by rewrite Hr, He.
Qed.
End oversize.

(** *** The grid over files of any size *)

Lemma py_range_nonneg W s ws :
  0 < s -> py_range 0 W s = Return ws -> Forall (fun w => 0 <= w) ws.
Proof.
  intros Hs. unfold py_range. destruct (Z.eqb_spec s 0); [lia|].
  destruct (Z.ltb_spec 0 s); [|lia]. intros [= <-].
  apply Forall_fmap, Forall_forall. intros k Hk. apply elem_of_seqZ in Hk. cbn. nia.
Qed.

Lemma count_if_none {A} (f : A -> bool) l :
  Forall (fun x => f x = false) l -> count_if f l = 0%nat.
Proof. intros H. unfold count_if. by rewrite filter_none. Qed.

Section any_size.
Variable self : Loader.t.
Variables sx sy d sw sh pw ph : Z.
Hypothesis Hscale : Loader.scale self = Pair sx sy.
Hypothesis Hdepth : Loader.depth self = Scalar d.
Hypothesis Hstrides : Loader.strides self = Pair sw sh.
Hypothesis Hpatch : Loader.patch_size self = Pair pw ph.
Hypothesis Hsx : 0 < sx.
Hypothesis Hsy : 0 < sy.
Hypothesis Hd : 0 < d.
Hypothesis Hsw : 0 < sw /\ sw mod sx = 0.
Hypothesis Hsh : 0 < sh /\ sh mod sy = 0.
Hypothesis Hpw : 0 < pw /\ pw mod sx = 0.
Hypothesis Hph : 0 < ph /\ ph mod sy = 0.
Local Abbreviation cells := (grid_cells_if_fits sx sy sw sh pw ph).

Lemma grid_rows_oversize frames_hr frames_lr width height s :
  width < pw \/ height < ph ->
  let r :=
    (let* ws := lift (py_range 0 width sw) in
     for_ ws (fun w =>
       let* hs := lift (py_range 0 height sh) in
       for_ hs (fun h =>
         Loader.grid_cell self frames_hr frames_lr width height (pw, ph) w h))) s in
  result r = Return tt /\ final r = s /\ emitted r = [].
Proof.
  intros Hover.
  destruct (py_range 0 width sw) as [ws| |] eqn:Ews;
    [|unfold py_range in Ews; destruct (Z.eqb_spec sw 0); [lia|by destruct (0 <? sw)]..].
  destruct (py_range 0 height sh) as [hs| |] eqn:Ehs;
    [|unfold py_range in Ehs; destruct (Z.eqb_spec sh 0); [lia|by destruct (0 <? sh)]..].
  pose proof (py_range_nonneg _ _ _ (proj1 Hsw) Ews) as Hws.
  pose proof (py_range_nonneg _ _ _ (proj1 Hsh) Ehs) as Hhs.
  cbn zeta. rewrite (gbind_lift_return _ _ _ ws) by done.
  match goal with
  | |- context [for_ ws ?body s] =>
      destruct (for_uniform (fun w => w + pw <=? width)
                  (count_if (fun h => h + ph <=? height) hs) body ws s)
        as (Hr & Hf & He)
  end.
  { intros w s'. rewrite (gbind_lift_return _ _ _ hs) by done.
    destruct (for_uniform (fun h => (w + pw <=? width) && (h + ph <=? height)) 1
                (fun h => Loader.grid_cell self frames_hr frames_lr width height (pw, ph) w h)
                hs s') as (Hr & Hf & He).
    { intros h s''. by apply (grid_cell_run self sx sy). }
    rewrite Hr, Hf, He, count_if_guard.
    destruct (w + pw <=? width); (split; [done|split; [done|lia]]). }
  split; [done|]. split; [done|]. apply length_zero_iff_nil. rewrite He.
  destruct Hover as [Hw|Hh].
  - rewrite count_if_none; [done|]. eapply Forall_impl; [exact Hws|].
    intros w Hw0. cbn beta in *. apply Z.leb_gt. lia.
  - rewrite (count_if_none (fun h => h + ph <=? height)); [lia|].
    eapply Forall_impl; [exact Hhs|]. intros h Hh0. cbn beta in *. apply Z.leb_gt. lia.
Qed.

Lemma grid_group_any i s vf :
  handles s !! i = Some vf -> d <= frames vf -> in_bounds vf ->
  let r := Loader.grid_group self i s in
  result r = Return tt
  /\ handles (final r) = <[i := (read_frame d vf).2]> (handles s)
  /\ Z.of_nat (length (emitted r)) = cells (shape vf).
Proof.
  intros Hi Hfr Hcur. unfold grid_cells_if_fits.
  destruct (Z.leb_spec pw ((shape vf).1 - np_mod (shape vf).1 sx)) as [Hw|Hw];
    [destruct (Z.leb_spec ph ((shape vf).2 - np_mod (shape vf).2 sy)) as [Hh|Hh]|];
    cbn [andb].
  { by apply (grid_group_run self sx sy d sw sh pw ph). }
  all: unfold Loader.grid_group.
  all: rewrite Hdepth, Hscale, Hstrides, Hpatch; rewrite (gbind_lift_return _ _ _ d) by done.
  all: destruct (read_frame_ok d Hd vf Hfr) as (img0 & imgs & vf' & Hread & Hdec & _).
  all: assert (vf_read_frame i d s
               = mkRun [] (Return (img0 :: imgs))
                       (mkState (<[i := vf']> (handles s)) (random_state s))) as E1
         by (unfold vf_read_frame; by rewrite Hi, Hread).
  all: rewrite (gbind_return _ _ _ _ _ E1); rewrite Hread; cbn [snd].
  all: destruct (shrink_total sx sy (img0 :: imgs)) as [frames_hr E2].
  all: rewrite (gbind_lift_return _ _ _ _ E2).
  all: destruct (rescale_total sx sy frames_hr) as [frames_lr E3].
  all: rewrite (gbind_lift_return _ _ _ _ E3).
  all: pose proof (shrink_decoded _ _ _ _ _ _ Hdec E2) as Hshr.
  all: destruct (omap_cons_inv _ _ _ _ E2) as (f0 & fs & -> & _).
  all: rewrite (gbind_lift_return _ _ _ f0) by done.
  all: apply Forall_cons_1 in Hshr as [(p & k & ->) _];
    cbn [size b_right b_left b_bottom b_top]; rewrite !Z.sub_0_r.
  all: rewrite (gbind_lift_return _ _ _ (sw, sh)) by done.
  all: rewrite (gbind_lift_return _ _ _ (pw, ph)) by done; cbn [fst snd].
  all: match goal with
       | |- context [Loader.grid_cell _ ?fh ?fl ?wd ?ht] =>
           destruct (grid_rows_oversize fh fl wd ht
                       (mkState (<[i:=vf']> (handles s)) (random_state s)))
             as (Hr & Hf & He); [lia|]
       end.
  all: cbn zeta in Hr, Hf, He; by rewrite Hr, Hf, He.
Qed.

Lemma grid_groups_any i (l : list Z) :
  forall s vf,
    handles s !! i = Some vf -> in_bounds vf ->
    Z.of_nat (length l) * d <= frames vf ->
    let r := for_ l (fun _ => Loader.grid_group self i) s in
    result r = Return tt
    /\ Z.of_nat (length (emitted r)) = Z.of_nat (length l) * cells (shape vf)
    /\ exists vf', handles (final r) = <[i := vf']> (handles s)
                   /\ shape vf' = shape vf /\ in_bounds vf'.
Proof.
  induction l as [|x l IH]; intros s vf Hi Hcur Hfr.
  - cbn. split; [done|]. split; [lia|]. exists vf.
    by rewrite list_insert_id by done.
  - cbn [for_ length] in *. cbn zeta.
    rewrite emitted_gbind, result_gbind, final_gbind.
    assert (d <= frames vf) as Hfr1 by nia.
    destruct (grid_group_any i s vf Hi Hfr1 Hcur) as (Hr & Hf & He).
    destruct (read_frame_ok d Hd vf Hfr1) as (img0 & imgs & vf1 & Hread & _ & Hshape & Hn & Hcur1).
    rewrite Hread in Hf. cbn [snd] in Hf.
    destruct (Hcur1 Hcur) as [Hcur1' Hfr1'].
    rewrite Hr. set (s1 := final (Loader.grid_group self i s)) in *.
    assert (handles s1 !! i = Some vf1) as Hi1.
    { rewrite Hf. apply list_lookup_insert_eq. by eapply lookup_lt_Some. }
    destruct (IH s1 vf1 Hi1) as (IHr & IHe & vf' & IHf & IHsh & IHcur).
    { done. }
    { lia. }
    rewrite length_app, Nat2Z.inj_add, He, IHe, IHr, IHf, Hf, list_insert_insert_eq, Hshape.
    split; [done|]. split; [lia|]. exists vf'. by rewrite IHsh.
Qed.

Lemma grid_file_any i s vf :
  handles s !! i = Some vf -> in_bounds vf ->
  let r := Loader.grid_file self i s in
  result r = Return tt
  /\ Z.of_nat (length (emitted r)) = frames vf / d * cells (shape vf)
  /\ exists vf', handles (final r) = <[i := vf']> (handles s).
Proof.
  intros Hi Hcur. unfold Loader.grid_file.
  assert (vf_frames i s = mkRun [] (Return (frames vf)) s) as E1.
  { unfold vf_frames. by rewrite Hi. }
  rewrite (gbind_return _ _ _ _ _ E1), Hdepth.
  rewrite (gbind_lift_return _ _ _ d) by done.
  rewrite (gbind_lift_return _ _ _ (frames vf / d)).
  2:{ unfold floordiv. destruct (Z.eqb_spec d 0); [lia|done]. }
  assert (0 <= frames vf) as Hfr0 by (unfold in_bounds, frames in *; lia).
  pose proof (Z.div_pos (frames vf) d Hfr0 Hd) as Hg.
  pose proof (Z.mul_div_le (frames vf) d Hd) as Hg'.
  destruct (grid_groups_any i (seqZ 0 (frames vf / d)) s vf Hi Hcur)
    as (Hr & He & vf' & Hf & Hshape & Hcur').
  { rewrite length_seqZ. lia. }
  rewrite length_seqZ, Z2Nat.id in He by done.
  rewrite emitted_gbind, result_gbind, final_gbind, Hr.
  set (s1 := final (for_ (seqZ 0 (frames vf / d)) (fun _ => Loader.grid_group self i) s)) in *.
  assert (i < length (handles s))%nat as Hlen by by eapply lookup_lt_Some.
  assert (handles s1 !! i = Some vf') as Hi1 by (rewrite Hf; by apply list_lookup_insert_eq).
  assert (vf_frames i s1 = mkRun [] (Return (frames vf')) s1) as E2.
  { unfold vf_frames. by rewrite Hi1. }
  rewrite (gbind_return _ _ _ _ _ E2).
  assert (exists imgs vf'', vf_read_frame i (frames vf') s1
          = mkRun [] (Return imgs)
                  (mkState (<[i := vf'']> (handles s1)) (random_state s1)))
    as (imgs & vf'' & E3).
  { unfold vf_read_frame. rewrite Hi1. unfold read_frame.
    destruct (Z.ltb_spec (frames vf') (frames vf')); [lia|]. eauto. }
  rewrite (gbind_return _ _ _ _ _ E3).
  cbn [gret emitted result final handles]. rewrite app_nil_r.
  split; [done|]. split; [done|]. exists vf''. by rewrite Hf, list_insert_insert_eq.
Qed.

Lemma grid_files_any n :
  forall j s,
    length (handles s) = (j + n)%nat ->
    Forall in_bounds (drop j (handles s)) ->
    let r := for_ (seq j n) (Loader.grid_file self) s in
    result r = Return tt
    /\ Z.of_nat (length (emitted r))
       = pass_total_fitting sx sy d sw sh pw ph (drop j (handles s)).
Proof.
  induction n as [|n IH]; intros j s Hlen Hready.
  - rewrite drop_ge by lia. by cbn.
  - destruct (lookup_lt_is_Some_2 (handles s) j ltac:(lia)) as [vf Hj].
    rewrite (drop_S _ _ _ Hj) in *. apply Forall_cons_1 in Hready as [Hvf Hrest].
    cbn [seq for_ pass_total_fitting foldr].
    fold (pass_total_fitting sx sy d sw sh pw ph (drop (S j) (handles s))).
    cbn zeta. rewrite emitted_gbind, result_gbind.
    destruct (grid_file_any j s vf Hj Hvf) as (Hr & He & vf' & Hf).
    rewrite Hr. set (s1 := final (Loader.grid_file self j s)) in *.
    assert (drop (S j) (handles s1) = drop (S j) (handles s)) as Hdrop.
    { rewrite Hf. apply drop_insert_lt. lia. }
    destruct (IH (S j) s1) as (IHr & IHe).
    { rewrite Hf, length_insert. lia. }
    { by rewrite Hdrop. }
    rewrite Hdrop in IHe. rewrite length_app, Nat2Z.inj_add, He, IHe, IHr. done.
Qed.

Lemma grid_pass_any s :
  Loader.loop self = false ->
  Loader.dataset self = Some (handles s) ->
  Forall in_bounds (handles s) ->
  result (Loader._build_iter 1 self s) = Return tt
  /\ Z.of_nat (length (emitted (Loader._build_iter 1 self s)))
     = pass_total_fitting sx sy d sw sh pw ph (handles s).
Proof.
  intros Hloop Hds Hready. split.
  - cbn [Loader._build_iter]. rewrite Hloop. unfold Loader.grid_pass, Loader.self_dataset.
    rewrite Hds. rewrite result_gbind.
    rewrite (gbind_lift_return _ _ _ tt) by done. unfold for_dataset.
    destruct (grid_files_any (length (handles s)) 0%nat s eq_refl) as [Hr _];
      [by rewrite drop_0|]. by rewrite Hr.
  - cbn [Loader._build_iter]. rewrite Hloop. unfold Loader.grid_pass, Loader.self_dataset.
    rewrite Hds. rewrite emitted_gbind.
    rewrite (gbind_lift_return _ _ _ tt) by done. unfold for_dataset.
    destruct (grid_files_any (length (handles s)) 0%nat s eq_refl) as [Hr He];
      [by rewrite drop_0|].
    rewrite Hr. cbn [gret emitted]. rewrite app_nil_r, He, drop_0. done.
Qed.
End any_size.

(** *** How the quota division can fail *)

Lemma patch_per_file_outcome m l :
  l <> 0 ->
  (quotient_overflows m l = true /\ Loader.patch_per_file m l = Raise OverflowError)
  \/ (quotient_overflows m l = false /\ exists q, Loader.patch_per_file m l = Return q).
Proof.
  intros Hl. unfold Loader.patch_per_file, floordiv, quotient_overflows, true_div.
  destruct (Z.eqb_spec l 0); [done|]. cbn [obind].
  destruct (m =? 0); [right; split; [done|by eexists]|].
  destruct (overflows _); [by left|]. right. split; [done|by eexists].
Qed.

(** *** The method name and the depth *)

Lemma shuffle_length {A} (l : list A) r : length (shuffle l r).1 = length l.
Proof. apply Permutation_length, shuffle_Permutation. Qed.

Lemma first_file_zero_depth self s vf rest :
  Loader.depth self = Scalar 0 -> handles s = vf :: rest ->
  (let r := Loader.grid_file self 0 s in
   emitted r = [] /\ result r = Raise ZeroDivisionError)
  /\ forall q c, let r := Loader.random_file self q 0 c s in
                 emitted r = [] /\ result r = Raise ZeroDivisionError.
Proof.
  intros Hdepth Hs. split.
  - unfold Loader.grid_file.
    assert (vf_frames 0 s = mkRun [] (Return (frames vf)) s) as E1.
    { unfold vf_frames. by rewrite Hs. }
    rewrite (gbind_return _ _ _ _ _ E1), Hdepth.
    by rewrite (gbind_lift_return _ _ _ 0) by done.
  - intros q c. unfold Loader.random_file.
    assert (vf_frames 0 s = mkRun [] (Return (frames vf)) s) as E1.
    { unfold vf_frames. by rewrite Hs. }
    rewrite (gbind_return _ _ _ _ _ E1).
    set (s1 := mkState (<[0%nat := reopen vf]> (handles s)) (random_state s)).
    assert ((if frames vf =? 0 then vf_reopen 0 else gret tt) s
            = mkRun [] (Return tt) (if frames vf =? 0 then s1 else s)) as E2.
    { destruct (frames vf =? 0); [|done]. unfold vf_reopen, s1. by rewrite Hs. }
    rewrite (gbind_return _ _ _ _ _ E2).
    assert (exists n, vf_frames 0 (if frames vf =? 0 then s1 else s)
                      = mkRun [] (Return n) (if frames vf =? 0 then s1 else s)) as [n E3].
    { unfold vf_frames, s1. destruct (frames vf =? 0); cbn [handles]; rewrite Hs;
        simpl; by eexists. }
    rewrite (gbind_return _ _ _ _ _ E3), Hdepth.
    by rewrite (gbind_lift_return _ _ _ 0) by done.
Qed.

(** * The claims of the specification *)

(** C1 (evaluation). One raw file of two 8x8 frames, 4x4 patches on a stride of
    4, depth 1, deterministic mode: [__len__] reports the grid of one frame, 4
    patches, while one non-looping pass yields 8 pairs and ends normally. *)
Theorem len_ignores_frame_count :
  match example_loader (example_env 8 8 2)
          (example_dataset "YV12" ["a"%string] false 0) with
  | Return self =>
      Loader.random self = false
      /\ Loader.loop self = false
      /\ Loader.__len__ self = Return 4
      /\ exists g, Loader.batch_iterator self = Some g
                   /\ length (pending g) = 8%nat
                   /\ finish g = Return tt
  | _ => False
  end.
Proof.
  vm_compute example_loader. split; [done|]. split; [done|]. split; [done|].
  eexists. split; [reflexivity|]. split; reflexivity.
Qed.



(** C3. When the quota check of random mode fires (the handles could supply
    more than [max_patches]), the body of the generator ends by raising
    [StopIteration] after [max_patches] pairs; the consumer's next request is
    then answered by [RuntimeError], where a generator that ended normally
    would answer [StopIteration]. *)
Theorem quota_stop_reaches_consumer_as_runtime_error self sx sy d q s :
  Loader.scale self = Pair sx sy ->
  Loader.depth self = Scalar d -> 0 < d ->
  is_Some (Loader.dataset self) ->
  0 < Loader.length_ self ->
  0 <= Loader.max_patches self ->
  Loader.patch_per_file (Loader.max_patches self) (Loader.length_ self) = Return q ->
  Forall (ready self sx sy) (handles s) ->
  Loader.max_patches self < supply d q (handles s) ->
  let g := make_generator (Loader._build_random_iter self) s in
  length (pending g) = Z.to_nat (Loader.max_patches self)
  /\ finish g = Raise StopIteration
  /\ (next (advance (Z.to_nat (Loader.max_patches self)) g)).1 = Raise RuntimeError
  /\ (next_with false (advance (Z.to_nat (Loader.max_patches self)) g)).1
     = Raise StopIteration.
Proof.
  intros Hscale Hdepth Hd Hds Hlen Hmx Hq Hready Hsupply g.
  pose proof (patch_per_file_nonneg _ _ _ Hmx Hlen Hq) as Hq0.
  destruct (build_random_iter_spec self sx sy d q s Hscale Hdepth Hd Hds Hmx Hq Hq0 Hready)
    as [He Hr].
  destruct (Z.leb_spec (supply d q (handles s)) (Loader.max_patches self)); [lia|].
  assert (length (pending g) = Z.to_nat (Loader.max_patches self)) as Hlen' by (cbn; lia).
  split; [done|]. split; [exact Hr|].
  rewrite advance_drop by lia. rewrite drop_ge by lia.
  unfold next, next_with. cbn [pending finish make_generator g]. by rewrite Hr.
Qed.

Lemma quota_stop_reaches_consumer_as_runtime_error_witness :
  let g := make_generator (Loader._build_random_iter quota_loader) quota_state in
  length (pending g) = Z.to_nat (Loader.max_patches quota_loader)
  /\ finish g = Raise StopIteration
  /\ (next (advance (Z.to_nat (Loader.max_patches quota_loader)) g)).1 = Raise RuntimeError
  /\ (next_with false (advance (Z.to_nat (Loader.max_patches quota_loader)) g)).1
     = Raise StopIteration.
Proof.
  apply (quota_stop_reaches_consumer_as_runtime_error quota_loader 2 2 1 4 quota_state).
  - reflexivity.
  - reflexivity.
  - lia.
  - by eexists.
  - simpl; lia.
  - simpl; lia.
  - reflexivity.
  - unfold quota_state. cbn [handles fmap list_fmap].
    repeat (apply Forall_cons_2; [split; [by vm_compute|by vm_compute]|]).
    apply Forall_nil_2.
  - vm_compute. reflexivity.
Defined.

(** C4 (evaluation). Random mode, scale (2, 2), one 8x8 still, the random source
    drawing the origin (1, 3): the high-resolution box is (1, 3, 5, 7) and the
    low-resolution box is (0, 1, 2, 3), so left, top, right and bottom all
    lose a remainder of 1; only the patch dimensions are halved exactly. *)
Theorem random_origin_is_not_scale_aligned :
  match example_loader (example_env 8 8 1)
          (example_dataset "pil-image" ["a"%string] true 1) with
  | Return self =>
      Loader.random self = true
      /\ Loader.scale self = Pair 2 2
      /\ exists g frame_hr frame_lr,
           Loader.batch_iterator self = Some g
           /\ pending g = [([Crop (mkBox 1 3 5 7) frame_hr], [Crop (mkBox 0 1 2 3) frame_lr])]
           /\ Exists (fun pair => ~ aligned 2 2 pair) (pending g)
           /\ Forall (fun pair => Forall (fun img => size img = (4, 4)) pair.1
                                  /\ Forall (fun img => size img = (2, 2)) pair.2) (pending g)
  | _ => False
  end.
Proof.
  vm_compute example_loader. split; [done|]. split; [done|].
  eexists _, _, _. split; [reflexivity|]. cbn [pending]. split; [reflexivity|]. split.
  - apply Exists_cons_hd. intros (bh & bl & Hh & Hl & Hx).
    cbn [fst snd] in *.
    apply Forall_cons_1 in Hh as [[fh [= <- _]] _].
    apply Forall_cons_1 in Hl as [[fl [= <- _]] _].
    destruct Hx as [Hx _]. cbn in Hx. lia.
  - repeat constructor.
Qed.

(** C5. In deterministic mode every high-resolution crop that is yielded is cut
    from a decoded frame of width [W] and height [H] with a box whose right
    edge is at most [W] and whose bottom edge is at most [H]; a grid cell that
    would pass the right or bottom edge of the frame yields nothing and raises
    nothing. *)
Theorem deterministic_boxes_stay_inside_frame fuel self sx sy s :
  Loader.scale self = Pair sx sy -> 0 < sx -> 0 < sy ->
  Forall within_frame (emitted (Loader._build_iter fuel self s))
  /\ forall frames_hr frames_lr width height patch_size w h s',
       w + patch_size.1 > width \/ h + patch_size.2 > height ->
       Loader.grid_cell self frames_hr frames_lr width height patch_size w h s'
       = mkRun [] (Return tt) s'.
Proof.
  intros Hscale Hsx Hsy. split.
  - apply (emits__build_iter fuel self sx sy); [done|lia|lia].
  - intros frames_hr frames_lr width height patch_size w h s' Hout.
    unfold Loader.grid_cell.
    replace (_ || _) with true; [done|].
    symmetry. apply orb_true_iff. rewrite !Z.gtb_ltb, !Z.ltb_lt. lia.
Qed.

Lemma deterministic_boxes_stay_inside_frame_witness :
  Forall within_frame (emitted (Loader._build_iter 1 grid_loader grid_state))
  /\ forall frames_hr frames_lr width height patch_size w h s',
       w + patch_size.1 > width \/ h + patch_size.2 > height ->
       Loader.grid_cell grid_loader frames_hr frames_lr width height patch_size w h s'
       = mkRun [] (Return tt) s'.
Proof.
  apply (deterministic_boxes_stay_inside_frame 1 grid_loader 2 2 grid_state);
    [reflexivity|lia|lia].
Defined.

(** C6 (amended). Construction leaves every configuration field of the
    descriptor and the file lists of the other methods as they were, but the
    file list of the chosen method is shuffled in place: afterwards it is a
    permutation of the original, and the loader's handle collection is built
    from it, in its new order. *)
Theorem init_shuffles_descriptor_in_place env dataset method loop r self dataset' r' :
  Loader.__init__ env dataset method loop r = (Return self, dataset', r') ->
  exists files shuffled,
    ds_files dataset !! lower method = Some files
    /\ shuffled ≡ₚ files
    /\ ds_files dataset' !! lower method = Some shuffled
    /\ (forall m, m <> lower method -> ds_files dataset' !! m = ds_files dataset !! m)
    /\ dataset' = set_files dataset (ds_files dataset')
    /\ Loader.length_ self = Z.of_nat (length files)
    /\ (forall hs, Loader.dataset self = Some hs -> vf_path <$> hs = shuffled).
Proof.
  unfold Loader.__init__.
  destruct (ds_files dataset !! lower method) as [files|] eqn:Hfiles; [|discriminate].
  pose proof (shuffle_Permutation files r) as Hperm.
  destruct (shuffle files r) as [shuffled r1]. cbn [fst] in Hperm.
  intros [= <- <- _]. exists files, shuffled. cbn.
  split; [done|]. split; [done|]. split; [apply lookup_insert_eq|].
  split; [intros m Hm; by apply lookup_insert_ne|]. split; [done|].
  split; [by rewrite Hperm|].
  intros hs. destruct (String.eqb _ _); [|destruct (bool_decide _)].
  - intros [= <-]. rewrite <- list_fmap_compose. by apply list_fmap_id.
  - intros [= <-]. rewrite <- list_fmap_compose. by apply list_fmap_id.
  - discriminate.
Qed.

Lemma init_shuffles_descriptor_in_place_witness :
  let '(o, dataset', _) :=
    Loader.__init__ (example_env 8 8 1)
      (example_dataset "pil-image" ["a"; "b"; "c"]%string false 0)
      "train" false example_rng in
  match o with
  | Return self =>
      exists files shuffled,
        ds_files (example_dataset "pil-image" ["a"; "b"; "c"]%string false 0)
          !! lower "train" = Some files
        /\ shuffled ≡ₚ files
        /\ ds_files dataset' !! lower "train" = Some shuffled
        /\ (forall m, m <> lower "train" ->
            ds_files dataset' !! m
            = ds_files (example_dataset "pil-image" ["a"; "b"; "c"]%string false 0) !! m)
        /\ dataset' = set_files (example_dataset "pil-image" ["a"; "b"; "c"]%string false 0)
                                (ds_files dataset')
        /\ Loader.length_ self = Z.of_nat (length files)
        /\ (forall hs, Loader.dataset self = Some hs -> vf_path <$> hs = shuffled)
  | _ => False
  end.
Proof.
  destruct (Loader.__init__ (example_env 8 8 1)
              (example_dataset "pil-image" ["a"; "b"; "c"]%string false 0)
              "train" false example_rng) as [[o d] r] eqn:E.
  destruct o as [self| |]; [|by vm_compute in E..].
  apply (init_shuffles_descriptor_in_place _ _ _ _ _ _ _ _ E).
Defined.

(** C6 as stated fails: constructing a loader over the list a, b, c leaves the
    descriptor holding c, a, b. *)
Lemma init_reorders_descriptor :
  let dataset := example_dataset "pil-image" ["a"; "b"; "c"]%string false 0 in
  let dataset' := (Loader.__init__ (example_env 8 8 1) dataset "train" false example_rng).1.2 in
  ds_files dataset !! "train"%string = Some ["a"; "b"; "c"]%string
  /\ ds_files dataset' !! "train"%string = Some ["c"; "a"; "b"]%string
  /\ ds_files dataset' <> ds_files dataset.
Proof.
  assert (ds_files (example_dataset "pil-image" ["a"; "b"; "c"]%string false 0)
            !! "train"%string = Some ["a"; "b"; "c"]%string) as H1 by by vm_compute.
  assert (ds_files (Loader.__init__ (example_env 8 8 1)
                      (example_dataset "pil-image" ["a"; "b"; "c"]%string false 0)
                      "train" false example_rng).1.2
            !! "train"%string = Some ["c"; "a"; "b"]%string) as H2 by by vm_compute.
  cbv zeta. split; [done|]. split; [done|].
  intros E. rewrite E, H1 in H2. discriminate.
Qed.

(** C7. A loader that was constructed but not built rejects [__next__] with the
    usage error [RuntimeError]; its [__iter__] has no such guard and returns
    [None], so [iter(loader)] and [for ... in loader] fail with [TypeError]. *)
Theorem unbuilt_loader_iteration env dataset method loop r self dataset' r' :
  Loader.__init__ env dataset method loop r = (Return self, dataset', r') ->
  Loader.built self = false
  /\ (Loader.__next__ self).1 = Raise RuntimeError
  /\ Loader.__iter__ self = None
  /\ py_iter (Loader.__iter__ self) = Raise TypeError.
Proof.
  unfold Loader.__init__.
  destruct (ds_files dataset !! lower method) as [files|]; [|discriminate].
  destruct (shuffle files r) as [shuffled r1]. intros [= <- _ _]. done.
Qed.

Lemma unbuilt_loader_iteration_witness :
  let '(o, _, _) := Loader.__init__ (example_env 8 8 1)
                      (example_dataset "pil-image" ["a"%string] false 0)
                      "train" false example_rng in
  match o with
  | Return self =>
      Loader.built self = false
      /\ (Loader.__next__ self).1 = Raise RuntimeError
      /\ Loader.__iter__ self = None
      /\ py_iter (Loader.__iter__ self) = Raise TypeError
  | _ => False
  end.
Proof.
  destruct (Loader.__init__ (example_env 8 8 1)
              (example_dataset "pil-image" ["a"%string] false 0)
              "train" false example_rng) as [[o d] r] eqn:E.
  destruct o as [self| |]; [|by vm_compute in E..].
  apply (unbuilt_loader_iteration _ _ _ _ _ _ _ _ E).
Defined.

(** C8 (evaluation). A batch loader constructed over one raw clip of three 8x8
    frames, 4x4 patches on a stride of 4, scale 2, depth 1, batch size 4: the
    generator yields [N = 12] pairs and ends normally, they arrive as three
    batches of four followed by [StopIteration], and [__len__] reports 1, not
    [ceil(12 / 4) = 3]. *)
Theorem batch_len_is_not_batch_count :
  match (BatchLoader.__init__ (example_env 8 8 3) 1 4
           (example_dataset "YV12" ["v"%string] false 0) "train" false true ∅
           example_rng).1.1 with
  | Return bl =>
      (exists g, Loader.__iter__ (BatchLoader.loader bl) = Some g
                 /\ length (pending g) = 12%nat /\ finish g = Return tt)
      /\ batch_len <$> nexts 4 bl
         = [Return (Some 4, Some 4); Return (Some 4, Some 4); Return (Some 4, Some 4);
            Raise StopIteration]
      /\ Loader.__len__ (BatchLoader.loader bl) = Return 4
      /\ BatchLoader.__len__ bl = Return 1
      /\ (12 + 4 - 1) / 4 = 3
  | _ => False
  end.
Proof.
  vm_compute. split; [|done]. eexists. split; [reflexivity|]. done.
Qed.

(** C9 (evaluation). Random mode with [max_patches = 2^54 + 1] over two
    files: the floor quotient is [2^53], the float quotient rounds to [2^53]
    as well, so the comparison finds no difference and adds nothing.  The
    quota is [2^53], one less than the ceiling, and the quota times the number
    of files stays below [max_patches]. *)
Theorem patch_per_file_misses_ceiling :
  Loader.patch_per_file (2 ^ 54 + 1) 2 = Return (2 ^ 53)
  /\ true_div (2 ^ 54 + 1) 2 = Return (mkFloat (2 ^ 52) 1)
  /\ (2 ^ 54 + 1 + 2 - 1) / 2 = 2 ^ 53 + 1
  /\ 2 ^ 53 * 2 < 2 ^ 54 + 1.
Proof.
  assert (true_div (2 ^ 54 + 1) 2 = Return (mkFloat (2 ^ 52) 1)) as Hdiv by by vm_compute.
  split; [|split; [exact Hdiv|split; [by vm_compute|by vm_compute]]].
  unfold Loader.patch_per_file. rewrite Hdiv. by vm_compute.
Qed.

(** C10. On a built loader [__next__] never hands out a patch pair: when the
    generator has an element, [__next__] consumes it and returns [None]
    (otherwise the generator's exception propagates), while the iterator
    returned by [__iter__] yields that element. *)
Theorem loader_next_returns_none self g :
  Loader.built self = true ->
  Loader.batch_iterator self = Some g ->
  (forall v, (Loader.__next__ self).1 = Return v -> v = None)
  /\ (forall p rest,
        pending g = p :: rest ->
        Loader.__next__ self
        = (Return None, Loader.set_batch_iterator self (Some (mkGenerator rest (finish g))))
        /\ (try it := py_iter (Loader.__iter__ self) in (next it).1) = Return p).
Proof.
  intros Hbuilt Hit. unfold Loader.__next__, Loader.__iter__. rewrite Hbuilt, Hit.
  cbn [negb py_iter obind]. split.
  - intros v. destruct (next g) as [[p| |] g']; cbn; congruence.
  - intros p rest Hp. unfold next, next_with. rewrite Hp. done.
Qed.

Lemma loader_next_returns_none_witness :
  (forall v, (Loader.__next__ (loader_feeding ten_patches)).1 = Return v -> v = None)
  /\ (forall p rest,
        pending (mkGenerator ten_patches (Return tt)) = p :: rest ->
        Loader.__next__ (loader_feeding ten_patches)
        = (Return None,
           Loader.set_batch_iterator (loader_feeding ten_patches)
             (Some (mkGenerator rest (finish (mkGenerator ten_patches (Return tt))))))
        /\ (try it := py_iter (Loader.__iter__ (loader_feeding ten_patches)) in (next it).1)
           = Return p).
Proof.
  apply (loader_next_returns_none (loader_feeding ten_patches)
           (mkGenerator ten_patches (Return tt))); reflexivity.
Defined.

(** * Further properties of the loaders *)

(** X1. One non-looping pass of the grid over ready handles, with patch and
    stride positive multiples of the scale, ends normally and yields the
    closed form [((w-pw)//sw+1)*((h-ph)//sh+1)] once per depth-group of every
    file, while [__len__] adds the same closed form once per file. *)
Theorem grid_pass_counts_every_depth_group self sx sy d sw sh pw ph s :
  Loader.scale self = Pair sx sy ->
  Loader.depth self = Scalar d ->
  Loader.strides self = Pair sw sh ->
  Loader.patch_size self = Pair pw ph ->
  0 < sx -> 0 < sy -> 0 < d ->
  0 < sw /\ sw mod sx = 0 -> 0 < sh /\ sh mod sy = 0 ->
  0 < pw /\ pw mod sx = 0 -> 0 < ph /\ ph mod sy = 0 ->
  Loader.random self = false -> Loader.loop self = false ->
  Loader.dataset self = Some (handles s) ->
  Forall (grid_ready sx sy pw ph) (handles s) ->
  result (Loader._build_iter 1 self s) = Return tt
  /\ Z.of_nat (length (emitted (Loader._build_iter 1 self s)))
     = pass_total d sw sh pw ph (handles s)
  /\ Loader.__len__ self = Return (len_total sw sh pw ph (handles s)).
Proof.
  intros. by apply (grid_pass_and_len self sx sy d sw sh pw ph).
Qed.

Lemma grid_pass_counts_every_depth_group_witness :
  result (Loader._build_iter 1 clip_loader clip_state) = Return tt
  /\ Z.of_nat (length (emitted (Loader._build_iter 1 clip_loader clip_state)))
     = pass_total 1 4 4 4 4 (handles clip_state)
  /\ Loader.__len__ clip_loader = Return (len_total 4 4 4 4 (handles clip_state)).
Proof.
  apply (grid_pass_counts_every_depth_group clip_loader 2 2 1 4 4 4 4 clip_state);
    try reflexivity; try lia; try (split; [lia|reflexivity]).
  apply Forall_cons_2; [by vm_compute|apply Forall_nil_2].
Defined.

Example clip_pass_and_len :
  pass_total 1 4 4 4 4 (handles clip_state) = 12
  /\ len_total 4 4 4 4 (handles clip_state) = 4.
Proof. by vm_compute. Qed.

(** X2. When the patch fits the shrunk frames of every file, patch size and
    stride are positive multiples of the scale, and every file holds exactly
    one depth-group ([frames // depth = 1], as for still images at depth 1),
    [__len__] is the number of pairs one non-looping pass yields. *)
Theorem len_is_pass_count_for_single_group_files self sx sy d sw sh pw ph s :
  Loader.scale self = Pair sx sy ->
  Loader.depth self = Scalar d ->
  Loader.strides self = Pair sw sh ->
  Loader.patch_size self = Pair pw ph ->
  0 < sx -> 0 < sy -> 0 < d ->
  0 < sw /\ sw mod sx = 0 -> 0 < sh /\ sh mod sy = 0 ->
  0 < pw /\ pw mod sx = 0 -> 0 < ph /\ ph mod sy = 0 ->
  Loader.random self = false -> Loader.loop self = false ->
  Loader.dataset self = Some (handles s) ->
  Forall (grid_ready sx sy pw ph) (handles s) ->
  Forall (fun vf => frames vf / d = 1) (handles s) ->
  Loader.__len__ self
  = Return (Z.of_nat (length (emitted (Loader._build_iter 1 self s)))).
Proof.
  intros. by apply (len_matches_one_group_per_file self sx sy d sw sh pw ph).
Qed.

Lemma len_is_pass_count_for_single_group_files_witness :
  Loader.__len__ grid_loader
  = Return (Z.of_nat (length (emitted (Loader._build_iter 1 grid_loader grid_state)))).
Proof.
  apply (len_is_pass_count_for_single_group_files grid_loader 2 2 1 4 4 4 4 grid_state);
    try reflexivity; try lia; try (split; [lia|reflexivity]).
  - apply Forall_cons_2; [by vm_compute|apply Forall_nil_2].
  - apply Forall_cons_2; [by vm_compute|apply Forall_nil_2].
Defined.

(** X3. On the grid of a loader that [build_loader] has normalized, with a
    positive scale, the low-resolution box of every yielded pair is the
    high-resolution box divided by the scale with no remainder. *)
Theorem built_grid_boxes_are_exactly_scaled fuel crop kwargs r self0 self sx sy s :
  Loader.build_loader fuel crop kwargs r self0 = Return self ->
  Loader.scale self = Pair sx sy -> 0 < sx -> 0 < sy ->
  Forall (aligned sx sy) (emitted (Loader._build_iter fuel self s)).
Proof. apply built_grid_is_aligned. Qed.

Lemma built_grid_boxes_are_exactly_scaled_witness :
  match Loader.build_loader 1 true ∅ example_rng grid_loader with
  | Return self => Forall (aligned 2 2) (emitted (Loader._build_iter 1 self grid_state))
  | _ => False
  end.
Proof.
  destruct (Loader.build_loader 1 true ∅ example_rng grid_loader) as [self| |] eqn:E;
    [|by vm_compute in E..].
  apply (built_grid_boxes_are_exactly_scaled 1 true ∅ example_rng grid_loader self 2 2
           grid_state E); [|lia|lia].
  vm_compute in E. by injection E as <-.
Defined.

(** X4. In random mode over ready handles the generator yields
    [min(supply, max_patches)] pairs, where the supply is the sum over files of
    [(frames // depth) * patch_per_file].  When the supply does not exceed the
    quota the body ends normally, so the consumer sees [StopIteration] after
    [supply] pairs although [__len__] reports [max_patches]. *)
Theorem random_mode_yields_min_of_supply_and_quota self sx sy d q s :
  Loader.random self = true ->
  Loader.scale self = Pair sx sy ->
  Loader.depth self = Scalar d -> 0 < d ->
  is_Some (Loader.dataset self) ->
  0 < Loader.length_ self ->
  0 <= Loader.max_patches self ->
  Loader.patch_per_file (Loader.max_patches self) (Loader.length_ self) = Return q ->
  Forall (ready self sx sy) (handles s) ->
  let g := make_generator (Loader._build_random_iter self) s in
  Z.of_nat (length (pending g)) = Z.min (supply d q (handles s)) (Loader.max_patches self)
  /\ Loader.__len__ self = Return (Loader.max_patches self)
  /\ (supply d q (handles s) <= Loader.max_patches self ->
      finish g = Return tt
      /\ (next (advance (length (pending g)) g)).1 = Raise StopIteration).
Proof.
  intros Hrandom Hscale Hdepth Hd Hds Hlen Hmx Hq Hready g.
  pose proof (patch_per_file_nonneg _ _ _ Hmx Hlen Hq) as Hq0.
  destruct (build_random_iter_spec self sx sy d q s Hscale Hdepth Hd Hds Hmx Hq Hq0 Hready)
    as [He Hr].
  split; [exact He|]. split; [unfold Loader.__len__; by rewrite Hrandom|].
  intros Hle. destruct (Z.leb_spec (supply d q (handles s)) (Loader.max_patches self)); [|lia].
  split; [exact Hr|].
  rewrite advance_drop by lia. rewrite drop_all.
  unfold next, next_with. cbn [pending finish make_generator g]. by rewrite Hr.
Qed.

Lemma random_mode_yields_min_of_supply_and_quota_witness :
  let g := make_generator (Loader._build_random_iter short_loader) short_state in
  Z.of_nat (length (pending g))
  = Z.min (supply 2 3 (handles short_state)) (Loader.max_patches short_loader)
  /\ Loader.__len__ short_loader = Return (Loader.max_patches short_loader)
  /\ (supply 2 3 (handles short_state) <= Loader.max_patches short_loader ->
      finish g = Return tt
      /\ (next (advance (length (pending g)) g)).1 = Raise StopIteration).
Proof.
  apply (random_mode_yields_min_of_supply_and_quota short_loader 2 2 2 3 short_state).
  - reflexivity.
  - reflexivity.
  - reflexivity.
  - lia.
  - by eexists.
  - simpl; lia.
  - simpl; lia.
  - reflexivity.
  - unfold short_state. cbn [handles].
    repeat (apply Forall_cons_2; [split; [by vm_compute|by vm_compute]|]).
    apply Forall_nil_2.
Defined.

Example short_supply :
  supply 2 3 (handles short_state) = 3
  /\ length (pending (make_generator (Loader._build_random_iter short_loader) short_state))
     = 3%nat.
Proof. by vm_compute. Qed.

(** X5. In random mode, for a scale that is not negative, every
    high-resolution crop that is yielded is cut from a decoded frame of width
    [W] and height [H] with a box inside it: [0 <= left], [0 <= top],
    [right <= W] and [bottom <= H], whatever the random source draws. *)
Theorem random_boxes_stay_inside_frame self sx sy s :
  Loader.scale self = Pair sx sy -> 0 <= sx -> 0 <= sy ->
  Forall inside_frame (emitted (Loader._build_random_iter self s)).
Proof.
  intros Hscale Hsx Hsy. apply emits__build_random_iter.
  intros i q c. by apply (emits_random_group_inside self sx sy).
Qed.

Lemma random_boxes_stay_inside_frame_witness :
  Forall inside_frame (emitted (Loader._build_random_iter quota_loader quota_state)).
Proof.
  apply (random_boxes_stay_inside_frame quota_loader 2 2 quota_state);
    [reflexivity|lia|lia].
Defined.

(** X6. Every pair the grid yields, for a patch size that is a multiple of a
    positive scale, holds [depth] high-resolution images of exactly the patch
    size and [depth] low-resolution images of the patch size divided by the
    scale; for a positive depth that makes every pair stackable by the batch
    loader, with the same two array shapes for all of them. *)
Theorem grid_pairs_have_patch_shape fuel self sx sy d pw ph s to_gray :
  Loader.scale self = Pair sx sy ->
  Loader.depth self = Scalar d ->
  Loader.patch_size self = Pair pw ph ->
  0 < sx -> 0 < sy -> 0 < d -> pw mod sx = 0 -> ph mod sy = 0 ->
  Forall (patch_sized (Z.to_nat d) (pw, ph) (pw / sx, ph / sy))
         (emitted (Loader._build_iter fuel self s))
  /\ Forall (well_shaped to_gray [d; ph; pw; channels_of to_gray]
                                 [d; ph / sy; pw / sx; channels_of to_gray])
            (emitted (Loader._build_iter fuel self s)).
Proof.
  intros Hscale Hdepth Hpatch Hsx Hsy Hd Hpw Hph.
  assert (Forall (patch_sized (Z.to_nat d) (pw, ph) (pw / sx, ph / sy))
                 (emitted (Loader._build_iter fuel self s))) as Hsized.
  { apply emits__build_iter_groups. intros i.
    by apply (emits_grid_group_sized self sx sy d pw ph). }
  split; [done|]. eapply Forall_impl; [exact Hsized|].
  intros pair Hp. rewrite <- (Z2Nat.id d) at 1 2 by lia.
  apply patch_sized_well_shaped; [lia|done].
Qed.

Lemma grid_pairs_have_patch_shape_witness :
  Forall (patch_sized (Z.to_nat 1) (4, 4) (4 / 2, 4 / 2))
         (emitted (Loader._build_iter 1 clip_loader clip_state))
  /\ Forall (well_shaped true [1; 4; 4; channels_of true]
                              [1; 4 / 2; 4 / 2; channels_of true])
            (emitted (Loader._build_iter 1 clip_loader clip_state)).
Proof.
  apply (grid_pairs_have_patch_shape 1 clip_loader 2 2 1 4 4 clip_state true);
    try reflexivity; lia.
Defined.

(** X7. The same holds of every pair random mode yields, whatever origin the
    random source draws: the patch dimensions are exact even though the box
    coordinates need not be. *)
Theorem random_pairs_have_patch_shape self sx sy d pw ph s to_gray :
  Loader.scale self = Pair sx sy ->
  Loader.depth self = Scalar d ->
  Loader.patch_size self = Pair pw ph ->
  0 < sx -> 0 < sy -> 0 < d -> pw mod sx = 0 -> ph mod sy = 0 ->
  Forall (patch_sized (Z.to_nat d) (pw, ph) (pw / sx, ph / sy))
         (emitted (Loader._build_random_iter self s))
  /\ Forall (well_shaped to_gray [d; ph; pw; channels_of to_gray]
                                 [d; ph / sy; pw / sx; channels_of to_gray])
            (emitted (Loader._build_random_iter self s)).
Proof.
  intros Hscale Hdepth Hpatch Hsx Hsy Hd Hpw Hph.
  assert (Forall (patch_sized (Z.to_nat d) (pw, ph) (pw / sx, ph / sy))
                 (emitted (Loader._build_random_iter self s))) as Hsized.
  { apply emits__build_random_iter. intros i q c.
    by apply (emits_random_group_sized self sx sy d pw ph). }
  split; [done|]. eapply Forall_impl; [exact Hsized|].
  intros pair Hp. rewrite <- (Z2Nat.id d) at 1 2 by lia.
  apply patch_sized_well_shaped; [lia|done].
Qed.

Lemma random_pairs_have_patch_shape_witness :
  Forall (patch_sized (Z.to_nat 1) (4, 4) (4 / 2, 4 / 2))
         (emitted (Loader._build_random_iter quota_loader quota_state))
  /\ Forall (well_shaped false [1; 4; 4; channels_of false]
                               [1; 4 / 2; 4 / 2; channels_of false])
            (emitted (Loader._build_random_iter quota_loader quota_state)).
Proof.
  apply (random_pairs_have_patch_shape quota_loader 2 2 1 4 4 quota_state false);
    try reflexivity; lia.
Defined.

(** X8. Batching neither loses, repeats nor reorders anything: when the
    generator yields well-shaped pairs and ends normally, the arrays stacked
    into the successive batches, read in order, are exactly the arrays
    [_load_batch] makes of the pairs, in the order the generator yielded
    them. *)
Theorem batches_hold_every_pair_in_order self ps sh_hr sh_lr :
  0 < BatchLoader.batch self ->
  feeds self ps ->
  Forall (well_shaped (BatchLoader.to_gray self) sh_hr sh_lr) ps ->
  exists abs,
    Forall2 (fun p ab => BatchLoader.to_arrays (BatchLoader.to_gray self) p = Return ab)
            ps abs
    /\ let outs := nexts (length (batches_of (Z.of_nat (length ps)) (BatchLoader.batch self)))
                         self in
       concat (hr_items <$> outs) = abs.*1 /\ concat (lr_items <$> outs) = abs.*2.
Proof.
  intros Hb Hfeeds Hps.
  destruct (well_shaped_converted _ _ _ _ Hps) as [abs Hconv].
  exists abs. split.
  - eapply Forall2_impl; [exact Hconv|]. by intros p ab (E & _).
  - by apply (nexts_contents sh_hr sh_lr (length ps)).
Qed.

Lemma batches_hold_every_pair_in_order_witness :
  exists abs,
    Forall2 (fun p ab => BatchLoader.to_arrays (BatchLoader.to_gray example_batch_loader) p
                         = Return ab)
            ten_patches abs
    /\ let outs := nexts (length (batches_of (Z.of_nat (length ten_patches))
                                             (BatchLoader.batch example_batch_loader)))
                         example_batch_loader in
       concat (hr_items <$> outs) = abs.*1 /\ concat (lr_items <$> outs) = abs.*2.
Proof.
  apply (batches_hold_every_pair_in_order example_batch_loader ten_patches
           [1; 4; 4; 1] [1; 2; 2; 1]).
  - simpl; lia.
  - reflexivity.
  - repeat (apply Forall_cons_2; [eexists _, _; repeat split; reflexivity|]).
    apply Forall_nil_2.
Defined.

(** X9. A full batch of [B] pairs whose arrays have shapes [dh :: rh] and
    [dl :: rl] is returned with the depth axis dropped from both arrays when
    both depths are 1, and with both arrays as stacked (depth axis kept) as
    soon as one of the two depths is not 1. *)
Theorem batch_drops_depth_axis_only_when_both_are_one self ps fin dh rh dl rl :
  draws_from self (mkGenerator ps fin) ->
  Forall (well_shaped (BatchLoader.to_gray self) (dh :: rh) (dl :: rl)) ps ->
  0 < BatchLoader.batch self <= Z.of_nat (length ps) ->
  exists a b,
    (BatchLoader.__next__ self).1 = Return (a, b)
    /\ nd_shape a = (if (dh =? 1) && (dl =? 1) then BatchLoader.batch self :: rh
                     else BatchLoader.batch self :: dh :: rh)
    /\ nd_shape b = (if (dh =? 1) && (dl =? 1) then BatchLoader.batch self :: rl
                     else BatchLoader.batch self :: dl :: rl).
Proof.
  intros Hg Hps Hb.
  destruct (well_shaped_converted _ _ _ _ Hps) as [abs Hconv].
  rewrite (next_fills self (dh :: rh) (dl :: rl) ps abs fin Hg Hconv Hb). cbn [fst].
  pose proof (converted_length _ _ _ _ _ Hconv) as Hlen.
  set (b := Z.to_nat (BatchLoader.batch self)).
  destruct (converted_shapes _ _ _ _ _ (converted_take _ _ _ _ _ b Hconv)) as [H1 H2].
  assert (length (take b abs) = b) as Htake by (rewrite length_take; lia).
  assert (nd_shape (Stack (take b abs).*1) = BatchLoader.batch self :: dh :: rh) as S1.
  { rewrite (stack_shape _ (dh :: rh)); [|intros E; apply (f_equal length) in E;
      rewrite length_fmap, Htake in E; simpl in E; lia|done].
    rewrite length_fmap, Htake. unfold b. by rewrite Z2Nat.id by lia. }
  assert (nd_shape (Stack (take b abs).*2) = BatchLoader.batch self :: dl :: rl) as S2.
  { rewrite (stack_shape _ (dl :: rl)); [|intros E; apply (f_equal length) in E;
      rewrite length_fmap, Htake in E; simpl in E; lia|done].
    rewrite length_fmap, Htake. unfold b. by rewrite Z2Nat.id by lia. }
  unfold squeeze_both.
  rewrite (np_squeeze_depth _ _ _ _ S1), (np_squeeze_depth _ _ _ _ S2).
  assert (forall a, nd_shape (Squeezed 1 a) = delete 1%nat (nd_shape a)) as Hsq by done.
  destruct (dh =? 1), (dl =? 1); cbn [andb]; eexists _, _; (split; [reflexivity|]);
    rewrite ?Hsq, S1, S2; done.
Qed.

Lemma batch_drops_depth_axis_only_when_both_are_one_witness :
  exists a b,
    (BatchLoader.__next__ example_batch_loader).1 = Return (a, b)
    /\ nd_shape a = (if (1 =? 1) && (1 =? 1)
                     then BatchLoader.batch example_batch_loader :: [4; 4; 1]
                     else BatchLoader.batch example_batch_loader :: 1 :: [4; 4; 1])
    /\ nd_shape b = (if (1 =? 1) && (1 =? 1)
                     then BatchLoader.batch example_batch_loader :: [2; 2; 1]
                     else BatchLoader.batch example_batch_loader :: 1 :: [2; 2; 1]).
Proof.
  apply (batch_drops_depth_axis_only_when_both_are_one example_batch_loader ten_patches
           (Return tt) 1 [4; 4; 1] 1 [2; 2; 1]).
  - reflexivity.
  - repeat (apply Forall_cons_2; [eexists _, _; repeat split; reflexivity|]).
    apply Forall_nil_2.
  - simpl; lia.
Defined.



(** X11. When the body of the generator raises [e] after yielding [N]
    well-shaped pairs, the batch loader returns [N // B] full batches, then
    raises the exception the generator surfaces ([RuntimeError] for a
    [StopIteration], [e] itself otherwise), and the call after that raises
    [StopIteration]: the [N mod B] pairs collected before the exception are
    in no batch. *)
Theorem upstream_exception_discards_partial_batch self ps e sh_hr sh_lr :
  0 < BatchLoader.batch self ->
  draws_from self (mkGenerator ps (Raise e)) ->
  Forall (well_shaped (BatchLoader.to_gray self) sh_hr sh_lr) ps ->
  let n := Z.of_nat (length ps) in
  let b := BatchLoader.batch self in
  batch_len <$> nexts (Z.to_nat (n / b) + 2) self
  = replicate (Z.to_nat (n / b)) (Return (Some b, Some b))
    ++ [Raise (surfaced e); Raise StopIteration].
Proof.
  intros Hb Hg Hps.
  destruct (well_shaped_converted _ _ _ _ Hps) as [abs Hconv].
  by apply (nexts_failing sh_hr sh_lr e (length ps) self ps abs).
Qed.

Lemma upstream_exception_discards_partial_batch_witness :
  let self := BatchLoader.mk
                (Loader.set_batch_iterator (loader_feeding [])
                   (Some (mkGenerator ten_patches (Raise ValueError)))) 4 true in
  let n := Z.of_nat (length ten_patches) in
  let b := BatchLoader.batch self in
  batch_len <$> nexts (Z.to_nat (n / b) + 2) self
  = replicate (Z.to_nat (n / b)) (Return (Some b, Some b))
    ++ [Raise (surfaced ValueError); Raise StopIteration].
Proof.
  apply (upstream_exception_discards_partial_batch
           (BatchLoader.mk
              (Loader.set_batch_iterator (loader_feeding [])
                 (Some (mkGenerator ten_patches (Raise ValueError)))) 4 true)
           ten_patches ValueError [1; 4; 4; 1] [1; 2; 2; 1]).
  - simpl; lia.
  - reflexivity.
  - repeat (apply Forall_cons_2; [eexists _, _; repeat split; reflexivity|]).
    apply Forall_nil_2.
Defined.

(** X12. A batch loader over random mode whose quota check fires: with
    [max_patches] below what the handles could supply, the consumer gets
    [max_patches // B] full batches, then [RuntimeError] (the generator's
    [StopIteration] as it reaches the [for] loop of [_load_batch]), then
    [StopIteration]; the last [max_patches mod B] pairs are yielded by the
    generator but are in no batch. *)
Theorem quota_stop_loses_last_partial_batch bl self sx sy d q pw ph s :
  Loader.scale self = Pair sx sy ->
  Loader.depth self = Scalar d ->
  Loader.patch_size self = Pair pw ph ->
  0 < sx -> 0 < sy -> 0 < d -> pw mod sx = 0 -> ph mod sy = 0 ->
  is_Some (Loader.dataset self) ->
  0 < Loader.length_ self ->
  0 <= Loader.max_patches self ->
  Loader.patch_per_file (Loader.max_patches self) (Loader.length_ self) = Return q ->
  Forall (ready self sx sy) (handles s) ->
  Loader.max_patches self < supply d q (handles s) ->
  0 < BatchLoader.batch bl ->
  draws_from bl (make_generator (Loader._build_random_iter self) s) ->
  let m := Loader.max_patches self in
  let b := BatchLoader.batch bl in
  batch_len <$> nexts (Z.to_nat (m / b) + 2) bl
  = replicate (Z.to_nat (m / b)) (Return (Some b, Some b))
    ++ [Raise RuntimeError; Raise StopIteration].
Proof.
  intros Hscale Hdepth Hpatch Hsx Hsy Hd Hpw Hph Hds Hlen Hmx Hq Hready Hsupply Hb Hg m b.
  pose proof (patch_per_file_nonneg _ _ _ Hmx Hlen Hq) as Hq0.
  destruct (build_random_iter_spec self sx sy d q s Hscale Hdepth Hd Hds Hmx Hq Hq0 Hready)
    as [He Hr].
  destruct (Z.leb_spec (supply d q (handles s)) (Loader.max_patches self)); [lia|].
  unfold make_generator in Hg. cbn zeta in Hg. rewrite Hr in Hg.
  set (ps := emitted (Loader._build_random_iter self s)) in *.
  assert (Forall (well_shaped (BatchLoader.to_gray bl)
                    [d; ph; pw; channels_of (BatchLoader.to_gray bl)]
                    [d; ph / sy; pw / sx; channels_of (BatchLoader.to_gray bl)]) ps)
    as Hps.
  { assert (Forall (patch_sized (Z.to_nat d) (pw, ph) (pw / sx, ph / sy)) ps) as Hsized.
    { apply emits__build_random_iter. intros i q' c.
      by apply (emits_random_group_sized self sx sy d pw ph). }
    eapply Forall_impl; [exact Hsized|].
    intros pair Hp. rewrite <- (Z2Nat.id d) at 1 2 by lia.
    apply patch_sized_well_shaped; [lia|done]. }
  destruct (well_shaped_converted _ _ _ _ Hps) as [abs Hconv].
  pose proof (nexts_failing _ _ StopIteration (length ps) bl ps abs (le_n _) Hb Hg Hconv)
    as Hn.
  cbn zeta in Hn. replace (Z.of_nat (length ps)) with m in Hn by (unfold m; lia).
  exact Hn.
Qed.

Lemma quota_stop_loses_last_partial_batch_witness :
  let bl := BatchLoader.mk
              (Loader.set_batch_iterator quota_loader
                 (Some (make_generator (Loader._build_random_iter quota_loader)
                                       quota_state))) 5 true in
  let m := Loader.max_patches quota_loader in
  let b := BatchLoader.batch bl in
  batch_len <$> nexts (Z.to_nat (m / b) + 2) bl
  = replicate (Z.to_nat (m / b)) (Return (Some b, Some b))
    ++ [Raise RuntimeError; Raise StopIteration].
Proof.
  apply (quota_stop_loses_last_partial_batch
           (BatchLoader.mk
              (Loader.set_batch_iterator quota_loader
                 (Some (make_generator (Loader._build_random_iter quota_loader)
                                       quota_state))) 5 true)
           quota_loader 2 2 1 4 4 4 quota_state);
    try reflexivity; try lia; try (by eexists); try (simpl; lia).
  unfold quota_state. cbn [handles fmap list_fmap].
  repeat (apply Forall_cons_2; [split; [by vm_compute|by vm_compute]|]).
  apply Forall_nil_2.
Defined.

(** X13. A batch loader over one non-looping pass of the grid, over any
    handles (cursor inside the file) and with patch and stride positive
    multiples of the scale: the batches are [T // B] full ones, one of
    [T mod B] pairs when that is not zero, then [StopIteration], where [T]
    adds, once per depth-group of every file, the closed form when the patch
    fits the shrunk frames of the file and nothing when it does not. *)
Theorem grid_batches_follow_pass_total bl self sx sy d sw sh pw ph s :
  Loader.scale self = Pair sx sy ->
  Loader.depth self = Scalar d ->
  Loader.strides self = Pair sw sh ->
  Loader.patch_size self = Pair pw ph ->
  0 < sx -> 0 < sy -> 0 < d ->
  0 < sw /\ sw mod sx = 0 -> 0 < sh /\ sh mod sy = 0 ->
  0 < pw /\ pw mod sx = 0 -> 0 < ph /\ ph mod sy = 0 ->
  Loader.loop self = false ->
  Loader.dataset self = Some (handles s) ->
  Forall in_bounds (handles s) ->
  0 < BatchLoader.batch bl ->
  draws_from bl (make_generator (Loader._build_iter 1 self) s) ->
  let n := pass_total_fitting sx sy d sw sh pw ph (handles s) in
  let b := BatchLoader.batch bl in
  batch_len <$> nexts (length (batches_of n b)) bl = batches_of n b.
Proof.
  intros Hscale Hdepth Hstrides Hpatch Hsx Hsy Hd Hsw Hsh Hpw Hph Hloop Hds Hready
         Hb Hg n b.
  destruct (grid_pass_any self sx sy d sw sh pw ph Hscale Hdepth Hstrides Hpatch
              Hsx Hsy Hd Hsw Hsh Hpw Hph s Hloop Hds Hready) as (Hr & He).
  unfold make_generator in Hg. cbn zeta in Hg. rewrite Hr in Hg.
  set (ps := emitted (Loader._build_iter 1 self s)) in *.
  assert (Forall (well_shaped (BatchLoader.to_gray bl)
                    [d; ph; pw; channels_of (BatchLoader.to_gray bl)]
                    [d; ph / sy; pw / sx; channels_of (BatchLoader.to_gray bl)]) ps)
    as Hps.
  { assert (Forall (patch_sized (Z.to_nat d) (pw, ph) (pw / sx, ph / sy)) ps) as Hsized.
    { apply emits__build_iter_groups. intros i.
      apply (emits_grid_group_sized self sx sy d pw ph); tauto. }
    eapply Forall_impl; [exact Hsized|].
    intros pair Hp. rewrite <- (Z2Nat.id d) at 1 2 by lia.
    apply patch_sized_well_shaped; [lia|done]. }
  pose proof (nexts_spec _ _ (length ps) bl ps (le_n _) Hb Hg Hps) as Hn.
  cbn zeta in Hn. replace (Z.of_nat (length ps)) with n in Hn by (unfold n; lia).
  exact Hn.
Qed.

Lemma grid_batches_follow_pass_total_witness :
  let bl := BatchLoader.mk
              (Loader.set_batch_iterator mixed_loader
                 (Some (make_generator (Loader._build_iter 1 mixed_loader) mixed_state)))
              3 true in
  let n := pass_total_fitting 2 2 1 4 4 4 4 (handles mixed_state) in
  let b := BatchLoader.batch bl in
  batch_len <$> nexts (length (batches_of n b)) bl = batches_of n b.
Proof.
  apply (grid_batches_follow_pass_total
           (BatchLoader.mk
              (Loader.set_batch_iterator mixed_loader
                 (Some (make_generator (Loader._build_iter 1 mixed_loader) mixed_state)))
              3 true)
           mixed_loader 2 2 1 4 4 4 4 mixed_state);
    try reflexivity; try lia; try (split; [lia|reflexivity]).
  repeat (apply Forall_cons_2; [by vm_compute|]). apply Forall_nil_2.
Defined.

(** X14. A loader built with [crop=False] has neither patch size nor stride,
    and every pair its generator yields, in random mode as on the grid, is
    cut with the box [(0, 0, width, height)] of the frame: the whole
    (shrunk) frame.  In deterministic mode [__len__] is then the number of
    files, whatever their frame counts. *)
Theorem uncropped_loader_yields_whole_frames fuel kwargs r self0 self g :
  Loader.build_loader fuel false kwargs r self0 = Return self ->
  Loader.__iter__ self = Some g ->
  Forall whole_frame (pending g)
  /\ (Loader.random self = false ->
      forall ds, Loader.dataset self = Some ds ->
                 Forall (fun vf => (shape vf).1 <> 0 /\ (shape vf).2 <> 0) ds ->
                 Loader.__len__ self = Return (Z.of_nat (length ds))).
Proof.
  unfold Loader.build_loader. cbn [obind]. intros [= <-]. unfold Loader.__iter__.
  cbn [Loader.batch_iterator Loader.random Loader.dataset]. intros [= <-]. split.
  - destruct (Loader.random self0); unfold make_generator; cbn [pending].
    + apply emits__build_random_iter. intros i q c. by apply emits_random_group_whole.
    + apply emits__build_iter_groups. intros i. by apply emits_grid_group_whole.
  - intros Hrandom ds Hds Hshape. by apply len_uncropped.
Qed.

Lemma uncropped_loader_yields_whole_frames_witness :
  match Loader.build_loader 1 false ∅ example_rng clip_loader with
  | Return self =>
      match Loader.__iter__ self with
      | Some g =>
          Forall whole_frame (pending g)
          /\ (Loader.random self = false ->
              forall ds, Loader.dataset self = Some ds ->
                         Forall (fun vf => (shape vf).1 <> 0 /\ (shape vf).2 <> 0) ds ->
                         Loader.__len__ self = Return (Z.of_nat (length ds)))
      | None => False
      end
  | _ => False
  end.
Proof.
  destruct (Loader.build_loader 1 false ∅ example_rng clip_loader) as [self| |] eqn:E;
    [|by vm_compute in E..].
  destruct (Loader.__iter__ self) as [g|] eqn:Eg.
  - exact (uncropped_loader_yields_whole_frames 1 ∅ example_rng clip_loader self g E Eg).
  - vm_compute in E. injection E as <-. discriminate.
Defined.

(** X15. A dataset whose mode is neither ['pil-image'] nor an allowed raw
    format still constructs and builds: [__init__] never assigns
    [self.dataset], and the failure shows at first use.  [__len__] of a
    deterministic loader raises [AttributeError]; the generator yields
    nothing and its first request raises [AttributeError], unless in random
    mode the quota division, which comes first, fails: [ZeroDivisionError]
    with an empty file list, [OverflowError] when [max_patches / length] is
    too large for a float. *)
Theorem unknown_mode_fails_on_first_use
    env dataset method loop r self dataset' r' fuel crop kwargs r2 built :
  Loader.__init__ env dataset method loop r = (Return self, dataset', r') ->
  lower (ds_mode dataset) <> "pil-image"%string ->
  upper (ds_mode dataset) ∉ _ALLOWED_RAW_FORMAT env ->
  Loader.build_loader (S fuel) crop kwargs r2 self = Return built ->
  Loader.dataset self = None
  /\ (Loader.random built = false -> Loader.__len__ built = Raise AttributeError)
  /\ exists g, Loader.__iter__ built = Some g
               /\ pending g = []
               /\ (next g).1
                  = Raise (if Loader.random built && (Loader.length_ built =? 0)
                           then ZeroDivisionError
                           else if Loader.random built
                                   && quotient_overflows (Loader.max_patches built)
                                                         (Loader.length_ built)
                           then OverflowError
                           else AttributeError).
Proof.
  unfold Loader.__init__.
  destruct (ds_files dataset !! lower method) as [files|]; [|discriminate].
  destruct (shuffle files r) as [shuffled r1]. cbn [ds_mode set_files].
  intros Hinit Hpil Hraw. apply String.eqb_neq in Hpil. rewrite Hpil in Hinit.
  rewrite bool_decide_eq_false_2 in Hinit by done.
  injection Hinit as <- _ _. intros Hbuild. split; [done|].
  revert Hbuild. unfold Loader.build_loader.
  destruct (if crop then _ else _) as [pa| |]; try discriminate. cbn [obind].
  destruct (if crop then _ else _) as [st| |]; try discriminate. cbn [obind].
  intros [= <-]. cbn [Loader.random Loader.dataset Loader.length_ Loader.__iter__
                      Loader.batch_iterator].
  split.
  - intros Hrandom. unfold Loader.__len__. cbn [Loader.random Loader.dataset].
    by rewrite Hrandom.
  - eexists. split; [reflexivity|].
    destruct (ds_random dataset && negb (method =? "test")%string).
    + unfold make_generator, Loader._build_random_iter.
      cbn [Loader.max_patches Loader.length_ andb].
      destruct (Z.eqb_spec (Z.of_nat (length shuffled)) 0) as [E0|E0].
      * unfold Loader.patch_per_file, floordiv. by rewrite E0.
      * destruct (patch_per_file_outcome (ds_max_patches dataset)
                    (Z.of_nat (length shuffled)) E0) as [[-> ->]|[-> [q ->]]]; done.
    + done.
Qed.

Lemma unknown_mode_fails_on_first_use_witness :
  let '(o, _, r) := Loader.__init__ (example_env 8 8 1)
                      (example_dataset "png" ["a"%string] false 0)
                      "train" false example_rng in
  match (try self := o in
         try built := Loader.build_loader 1 true ∅ r self in Return (self, built)) with
  | Return (self, built) =>
      Loader.dataset self = None
      /\ (Loader.random built = false -> Loader.__len__ built = Raise AttributeError)
      /\ exists g, Loader.__iter__ built = Some g
                   /\ pending g = []
                   /\ (next g).1
                      = Raise (if Loader.random built && (Loader.length_ built =? 0)
                               then ZeroDivisionError
                               else if Loader.random built
                                       && quotient_overflows (Loader.max_patches built)
                                                             (Loader.length_ built)
                               then OverflowError
                               else AttributeError)
  | _ => False
  end.
Proof.
  destruct (Loader.__init__ (example_env 8 8 1)
              (example_dataset "png" ["a"%string] false 0)
              "train" false example_rng) as [[o d] r] eqn:E.
  destruct o as [self| |]; [|by vm_compute in E..]. cbn [obind].
  destruct (Loader.build_loader 1 true ∅ r self) as [built| |] eqn:Eb.
  - cbn [obind].
    apply (unknown_mode_fails_on_first_use _ _ _ _ _ _ _ _ 0%nat true ∅ r built E);
      [by vm_compute| |exact Eb].
    vm_compute. intros H. inversion H as [|? ? ? H']; inversion H'.
  - vm_compute in E. injection E as <- _ <-. by vm_compute in Eb.
  - vm_compute in E. injection E as <- _ <-. by vm_compute in Eb.
Defined.

(** X16. A batch loader over a random-mode dataset whose file list for the
    method is empty is constructed without complaint and reports
    [max_patches] as the length of its loader, but the quota division
    [max_patches // length] fails inside the generator: the first request
    raises [ZeroDivisionError], the next one [StopIteration]. *)
Theorem empty_file_list_divides_by_zero_in_random_mode
    env fuel batch_size dataset method loop gray kwargs r bl dataset' r' :
  ds_files dataset !! lower method = Some [] ->
  ds_random dataset = true -> method <> "test"%string ->
  BatchLoader.__init__ env fuel batch_size dataset method loop gray kwargs r
  = (Return bl, dataset', r') ->
  Loader.__len__ (BatchLoader.loader bl) = Return (ds_max_patches dataset)
  /\ nexts 2 bl = [Raise ZeroDivisionError; Raise StopIteration].
Proof.
  intros Hfiles Hrandom Hmethod. apply String.eqb_neq in Hmethod.
  unfold BatchLoader.__init__, Loader.__init__. rewrite Hfiles.
  cbn [shuffle shuffle_down length Nat.sub ds_mode set_files ds_random ds_patch_size
       ds_scale ds_strides ds_depth ds_max_patches fmap list_fmap Z.of_nat].
  rewrite Hrandom, Hmethod. cbn [andb negb obind].
  set (hs := if (lower (ds_mode dataset) =? "pil-image")%string then _ else _).
  set (crop := match kwargs !! "crop"%string with
               | Some v => truthy v
               | None => true
               end).
  unfold Loader.build_loader.
  destruct (if crop then _ else _) as [pa| |]; try discriminate. cbn [obind].
  destruct (if crop then _ else _) as [st| |]; try discriminate. cbn [obind].
  cbn [Loader.random Loader.length_ Loader.max_patches]. intros [= <- _ _].
  split; [done|]. cbn [nexts].
  match goal with
  | |- context [BatchLoader.__next__ ?b] =>
      rewrite (next_fails b [] [] [] [] ZeroDivisionError);
        [|done|constructor|cbn [length]; lia]
  end.
  rewrite (next_drains _ [] [] [] []);
    [|apply drawing_from_draws|constructor|cbn [length]; lia].
  done.
Qed.

Lemma empty_file_list_divides_by_zero_in_random_mode_witness :
  let '(o, _, _) := BatchLoader.__init__ (example_env 8 8 1) 1 4
                      (example_dataset "pil-image" [] true 8) "train" false true ∅
                      example_rng in
  match o with
  | Return bl =>
      Loader.__len__ (BatchLoader.loader bl)
      = Return (ds_max_patches (example_dataset "pil-image" [] true 8))
      /\ nexts 2 bl = [Raise ZeroDivisionError; Raise StopIteration]
  | _ => False
  end.
Proof.
  destruct (BatchLoader.__init__ (example_env 8 8 1) 1 4
              (example_dataset "pil-image" [] true 8) "train" false true ∅
              example_rng) as [[o d] r] eqn:E.
  destruct o as [bl| |]; [|by vm_compute in E..].
  apply (empty_file_list_divides_by_zero_in_random_mode
           (example_env 8 8 1) 1 4 (example_dataset "pil-image" [] true 8) "train"
           false true ∅ example_rng bl d r); [by vm_compute|done|discriminate|exact E].
Defined.

(** X17. With an empty file list in deterministic mode (and a mode that
    gives handles), the loader's [__len__] is 0.  Without [loop] the first
    batch request raises [StopIteration]; with [loop] the [while True] of
    [_build_iter] goes round without yielding, so whatever the bound on its
    traversals the request is not answered. *)
Theorem empty_file_list_in_deterministic_mode
    env fuel batch_size dataset method loop gray kwargs r bl dataset' r' :
  ds_files dataset !! lower method = Some [] ->
  ds_random dataset && negb (method =? "test")%string = false ->
  lower (ds_mode dataset) = "pil-image"%string
  \/ upper (ds_mode dataset) ∈ _ALLOWED_RAW_FORMAT env ->
  BatchLoader.__init__ env (S fuel) batch_size dataset method loop gray kwargs r
  = (Return bl, dataset', r') ->
  Loader.__len__ (BatchLoader.loader bl) = Return 0
  /\ (BatchLoader.__next__ bl).1 = (if loop then OutOfFuel else Raise StopIteration).
Proof.
  intros Hfiles Hrandom Hmode. remember (S fuel) as n eqn:En.
  unfold BatchLoader.__init__, Loader.__init__. rewrite Hfiles.
  cbn [shuffle shuffle_down length Nat.sub ds_mode set_files ds_random ds_patch_size
       ds_scale ds_strides ds_depth ds_max_patches fmap list_fmap Z.of_nat].
  rewrite Hrandom. cbn [obind].
  assert ((if (lower (ds_mode dataset) =? "pil-image")%string then Some []
           else if bool_decide (upper (ds_mode dataset) ∈ _ALLOWED_RAW_FORMAT env)
                then Some [] else None) = Some ([] : list VirtualFile)) as ->.
  { destruct Hmode as [-> | Hraw]; [done|].
    destruct (lower _ =? _)%string; [done|]. by rewrite bool_decide_eq_true_2. }
  set (crop := match kwargs !! "crop"%string with
               | Some v => truthy v
               | None => true
               end).
  unfold Loader.build_loader.
  destruct (if crop then _ else _) as [pa| |]; try discriminate. cbn [obind].
  destruct (if crop then _ else _) as [st| |]; try discriminate. cbn [obind].
  cbn [Loader.random Loader.dataset default]. intros [= <- _ _].
  split; [done|].
  unfold make_generator. rewrite build_iter_no_files by (by eexists).
  subst n. cbn [emitted result Loader.loop]. destruct loop.
  - by apply next_out_of_fuel.
  - match goal with
    | |- context [BatchLoader.__next__ ?b] =>
        rewrite (next_drains b [] [] [] []); [done|done|constructor|cbn [length]; lia]
    end.
Qed.

Lemma empty_file_list_in_deterministic_mode_witness :
  let '(o, _, _) := BatchLoader.__init__ (example_env 8 8 1) 1 4
                      (example_dataset "pil-image" [] false 0) "train" true true ∅
                      example_rng in
  match o with
  | Return bl =>
      Loader.__len__ (BatchLoader.loader bl) = Return 0
      /\ (BatchLoader.__next__ bl).1 = (if true then OutOfFuel else Raise StopIteration)
  | _ => False
  end.
Proof.
  destruct (BatchLoader.__init__ (example_env 8 8 1) 1 4
              (example_dataset "pil-image" [] false 0) "train" true true ∅
              example_rng) as [[o d] r] eqn:E.
  destruct o as [bl| |]; [|by vm_compute in E..].
  apply (empty_file_list_in_deterministic_mode
           (example_env 8 8 1) 0 4 (example_dataset "pil-image" [] false 0) "train"
           true true ∅ example_rng bl d r); [by vm_compute|done|by left|exact E].
Defined.

(** X18. In random mode a patch that is wider or higher than the (shrunk)
    frames of the first file leaves [np.random.randint] an empty range: the
    generator yields nothing and its first request raises [ValueError].
    (The grid skips such origins without an error.) *)
Theorem random_mode_rejects_oversize_patch self sx sy d pw ph q s vf rest :
  Loader.scale self = Pair sx sy ->
  Loader.depth self = Scalar d -> 0 < d ->
  Loader.patch_size self = Pair pw ph ->
  is_Some (Loader.dataset self) ->
  0 < Loader.max_patches self ->
  Loader.patch_per_file (Loader.max_patches self) (Loader.length_ self) = Return q ->
  0 < q ->
  handles s = vf :: rest -> 0 <= cursor vf <= n_frames vf ->
  d <= frames (opened vf) ->
  (shape vf).1 - np_mod (shape vf).1 sx < pw \/ (shape vf).2 - np_mod (shape vf).2 sy < ph ->
  let g := make_generator (Loader._build_random_iter self) s in
  pending g = [] /\ (next g).1 = Raise ValueError.
Proof.
  intros Hscale Hdepth Hd Hpatch Hds Hmx Hppf Hq Hs Hcur Hfr Hover g.
  destruct (build_random_iter_oversize self sx sy d pw ph Hscale Hdepth Hpatch Hd
              q s vf rest Hds Hppf Hq Hmx Hs Hcur Hfr Hover) as [He Hr].
  cbn zeta in He, Hr. unfold g, make_generator, next, next_with. cbn [pending finish].
  by rewrite He, Hr.
Qed.

Lemma random_mode_rejects_oversize_patch_witness :
  let self := Loader.mk 1 "pil-image" (Some [still "a"])
                (Pair 12 4) (Pair 2 2) (Pair 4 4) (Scalar 1) None false true 3 false in
  let g := make_generator (Loader._build_random_iter self) grid_state in
  pending g = [] /\ (next g).1 = Raise ValueError.
Proof.
  apply (random_mode_rejects_oversize_patch
           (Loader.mk 1 "pil-image" (Some [still "a"])
              (Pair 12 4) (Pair 2 2) (Pair 4 4) (Scalar 1) None false true 3 false)
           2 2 1 12 4 3 grid_state (still "a") []);
    try reflexivity; try lia; try (by eexists); try (simpl; lia).
  left. vm_compute. reflexivity.
Defined.

(** X19. One non-looping pass of the grid over any handles (cursor inside
    the file), with patch and stride positive multiples of the scale, ends
    normally: a file whose shrunk frames are smaller than the patch is
    passed over without an error and adds nothing, every other file adds the
    closed form once per depth-group.  [__len__] adds the closed form of
    every file, fitting or not. *)
Theorem grid_pass_skips_files_smaller_than_patch self sx sy d sw sh pw ph s :
  Loader.scale self = Pair sx sy ->
  Loader.depth self = Scalar d ->
  Loader.strides self = Pair sw sh ->
  Loader.patch_size self = Pair pw ph ->
  0 < sx -> 0 < sy -> 0 < d ->
  0 < sw /\ sw mod sx = 0 -> 0 < sh /\ sh mod sy = 0 ->
  0 < pw /\ pw mod sx = 0 -> 0 < ph /\ ph mod sy = 0 ->
  Loader.random self = false -> Loader.loop self = false ->
  Loader.dataset self = Some (handles s) ->
  Forall in_bounds (handles s) ->
  result (Loader._build_iter 1 self s) = Return tt
  /\ Z.of_nat (length (emitted (Loader._build_iter 1 self s)))
     = pass_total_fitting sx sy d sw sh pw ph (handles s)
  /\ Loader.__len__ self = Return (len_total sw sh pw ph (handles s)).
Proof.
  intros Hscale Hdepth Hstrides Hpatch Hsx Hsy Hd Hsw Hsh Hpw Hph Hrandom Hloop Hds Hin.
  destruct (grid_pass_any self sx sy d sw sh pw ph Hscale Hdepth Hstrides Hpatch
              Hsx Hsy Hd Hsw Hsh Hpw Hph s Hloop Hds Hin) as [Hr He].
  split; [done|]. split; [done|].
  eapply len_run; eassumption.
Qed.

Lemma grid_pass_skips_files_smaller_than_patch_witness :
  result (Loader._build_iter 1 mixed_loader mixed_state) = Return tt
  /\ Z.of_nat (length (emitted (Loader._build_iter 1 mixed_loader mixed_state)))
     = pass_total_fitting 2 2 1 4 4 4 4 (handles mixed_state)
  /\ Loader.__len__ mixed_loader = Return (len_total 4 4 4 4 (handles mixed_state)).
Proof.
  apply (grid_pass_skips_files_smaller_than_patch mixed_loader 2 2 1 4 4 4 4 mixed_state);
    try reflexivity; try lia; try (split; [lia|reflexivity]).
  repeat (apply Forall_cons_2; [by vm_compute|]). apply Forall_nil_2.
Defined.


(** X20. The file list is looked up under the lower-cased method name, but
    random mode is switched off only by the exact string ['test']: for any
    other spelling of it (['Test'], ['TEST']) the loader counts and opens the
    test files and stays in random mode when the dataset asks for it. *)
Theorem test_method_is_case_sensitive env dataset method loop r self dataset' r' :
  Loader.__init__ env dataset method loop r = (Return self, dataset', r') ->
  lower method = "test"%string ->
  (exists files, ds_files dataset !! "test"%string = Some files
                 /\ Loader.length_ self = Z.of_nat (length files))
  /\ Loader.random self = (if (method =? "test")%string then false else ds_random dataset).
Proof.
  unfold Loader.__init__. intros Hinit Hlower. rewrite Hlower in Hinit.
  destruct (ds_files dataset !! "test"%string) as [files|]; [|discriminate].
  pose proof (shuffle_length files r) as Hlen.
  destruct (shuffle files r) as [shuffled r1]. cbn [fst] in Hlen.
  injection Hinit as <- _ _. cbn [Loader.length_ Loader.random]. split.
  - exists files. by rewrite Hlen.
  - destruct (method =? "test")%string; cbn [negb]; [apply andb_false_r|apply andb_true_r].
Qed.

Lemma test_method_is_case_sensitive_witness :
  let dataset := mkDataset {[ "test"%string := ["a"; "b"]%string ]} "pil-image" 8 8
                           (Pair 4 4) (Pair 2 2) (Pair 4 4) (Scalar 1) true 8 in
  let '(o, _, _) := Loader.__init__ (example_env 8 8 1) dataset "Test" false example_rng in
  match o with
  | Return self =>
      (exists files, ds_files dataset !! "test"%string = Some files
                     /\ Loader.length_ self = Z.of_nat (length files))
      /\ Loader.random self = (if ("Test" =? "test")%string then false else ds_random dataset)
  | _ => False
  end.
Proof.
  cbn zeta.
  destruct (Loader.__init__ (example_env 8 8 1)
              (mkDataset {[ "test"%string := ["a"; "b"]%string ]} "pil-image" 8 8
                         (Pair 4 4) (Pair 2 2) (Pair 4 4) (Scalar 1) true 8)
              "Test" false example_rng) as [[o d] r] eqn:E.
  destruct o as [self| |]; [|by vm_compute in E..].
  apply (test_method_is_case_sensitive _ _ _ _ _ _ _ _ E). reflexivity.
Defined.

(** X21. A depth of zero is not rejected by [__init__] or [build_loader]:
    with at least one file the division [vf.frames // self.depth] fails
    inside the generator, which yields nothing and whose first request
    raises [ZeroDivisionError], on the grid and in random mode alike (in
    random mode [OverflowError] comes first when [max_patches / length] is
    too large for a float). *)
Theorem zero_depth_divides_by_zero_at_first_request self s vf rest fuel :
  Loader.depth self = Scalar 0 ->
  is_Some (Loader.dataset self) ->
  handles s = vf :: rest ->
  Loader.length_ self <> 0 ->
  let g := if Loader.random self then make_generator (Loader._build_random_iter self) s
           else make_generator (Loader._build_iter (S fuel) self) s in
  pending g = []
  /\ (next g).1
     = Raise (if Loader.random self
                 && quotient_overflows (Loader.max_patches self) (Loader.length_ self)
              then OverflowError else ZeroDivisionError).
Proof.
  intros Hdepth [ds Hds] Hs Hlen g.
  destruct (first_file_zero_depth self s vf rest Hdepth Hs) as [Hgrid Hrandom].
  set (e := if Loader.random self
               && quotient_overflows (Loader.max_patches self) (Loader.length_ self)
            then OverflowError else ZeroDivisionError).
  assert (emitted (if Loader.random self then Loader._build_random_iter self s
                   else Loader._build_iter (S fuel) self s) = []
          /\ result (if Loader.random self then Loader._build_random_iter self s
                     else Loader._build_iter (S fuel) self s) = Raise e)
    as [He Hr].
  { unfold e. destruct (Loader.random self); cbn [andb].
    - unfold Loader._build_random_iter, Loader.self_dataset. cbn zeta.
      destruct (patch_per_file_outcome (Loader.max_patches self) (Loader.length_ self) Hlen)
        as [[-> ->]|[-> [q Hq]]]; [done|].
      rewrite (gbind_lift_return _ _ _ q) by done.
      rewrite (gbind_lift_return _ _ _ tt) by (by rewrite Hds).
      rewrite emitted_gbind, result_gbind. rewrite Hs. cbn [length seq Loader.for_files].
      rewrite emitted_gbind, result_gbind.
      destruct (Hrandom q 0) as [He Hr]. cbn zeta in He, Hr. by rewrite Hr, He.
    - cbn zeta in Hgrid. destruct Hgrid as [He Hr].
      assert (emitted (Loader.grid_pass self s) = []
              /\ result (Loader.grid_pass self s) = Raise ZeroDivisionError) as [He' Hr'].
      { unfold Loader.grid_pass, Loader.self_dataset. rewrite Hds.
        rewrite (gbind_lift_return _ _ _ tt) by done. unfold for_dataset.
        rewrite Hs. cbn [length seq for_]. by rewrite emitted_gbind, result_gbind, Hr, He. }
      cbn [Loader._build_iter]. by rewrite emitted_gbind, result_gbind, Hr', He'. }
  assert (e = OverflowError \/ e = ZeroDivisionError) as Hcases.
  { unfold e. destruct (_ && _); auto. }
  clearbody e. unfold g, next, next_with.
  destruct (Loader.random self); unfold make_generator; cbn [pending finish];
    rewrite He, Hr; by destruct Hcases as [-> | ->].
Qed.

Lemma zero_depth_divides_by_zero_at_first_request_witness :
  let self := Loader.mk 1 "pil-image" (Some [still "a"])
                (Pair 4 4) (Pair 2 2) (Pair 4 4) (Scalar 0) None false false 0 false in
  let g := if Loader.random self
           then make_generator (Loader._build_random_iter self) grid_state
           else make_generator (Loader._build_iter 1 self) grid_state in
  pending g = []
  /\ (next g).1
     = Raise (if Loader.random self
                 && quotient_overflows (Loader.max_patches self) (Loader.length_ self)
              then OverflowError else ZeroDivisionError).
Proof.
  apply (zero_depth_divides_by_zero_at_first_request
           (Loader.mk 1 "pil-image" (Some [still "a"])
              (Pair 4 4) (Pair 2 2) (Pair 4 4) (Scalar 0) None false false 0 false)
           grid_state (still "a") [] 0%nat); try reflexivity; try (by eexists).
  discriminate.
Defined.

(** X22. For a positive [max_patches] and a positive file count, both below
    [2^53], the per-file quota of random mode is the ceiling of
    [max_patches / file_count]: the float quotient differs from the floor
    quotient exactly when the division leaves a remainder.  The quota times
    the number of files is then at least [max_patches]. *)
Theorem patch_per_file_is_ceiling_below_2_53 (max_patches file_count : Z) :
  0 < max_patches < 2 ^ 53 -> 0 < file_count < 2 ^ 53 ->
  exists q, Loader.patch_per_file max_patches file_count = Return q
    /\ q = (max_patches + file_count - 1) / file_count
    /\ (q - 1) * file_count < max_patches <= q * file_count.
Proof.
  intros Hm Hl. unfold Loader.patch_per_file, floordiv.
  destruct (Z.eqb_spec file_count 0) as [|_]; [lia|]. cbn [obind].
  destruct (true_div_small max_patches file_count ltac:(lia) Hl) as (f & -> & Heq & _).
  cbn [obind]. eexists; split; [reflexivity|].
  pose proof (Z.div_mod max_patches file_count ltac:(lia)) as Hdm.
  pose proof (Z.mod_pos_bound max_patches file_count ltac:(lia)) as Hb.
  destruct (float_eq_int _ _) eqn:E.
  - assert (max_patches mod file_count = 0) as Hex by by apply Heq.
    split; [|nia].
    apply Z.div_unique with (r := file_count - 1); nia.
  - assert (max_patches mod file_count <> 0) as Hne.
    { intros Hex. apply Heq in Hex. congruence. }
    split; [|nia].
    apply Z.div_unique with (r := max_patches mod file_count - 1); nia.
Qed.

Lemma patch_per_file_is_ceiling_below_2_53_witness :
  exists q, Loader.patch_per_file 17 5 = Return q
    /\ q = (17 + 5 - 1) / 5 /\ (q - 1) * 5 < 17 <= q * 5.
Proof.
  apply (patch_per_file_is_ceiling_below_2_53 17 5); split; try lia; by vm_compute.
Defined.

(** X23. Fed by a generator that yields exactly [N] well-shaped pairs and
    ends normally, a batch loader with batch size [B > 0] answers successive
    [__next__] calls with [N / B] batches of [B] pairs, then one batch of
    [N mod B] pairs when that is not zero, then [StopIteration] (at once when
    [N] is zero): [ceil(N / B)] batches.  [__len__] does not count them: it
    is the ceiling of the loader's own length [L] over [B], for [L] and [B]
    below [2^53]. *)
Theorem batch_loader_batches self ps sh_hr sh_lr :
  0 < BatchLoader.batch self ->
  feeds self ps ->
  Forall (well_shaped (BatchLoader.to_gray self) sh_hr sh_lr) ps ->
  let n := Z.of_nat (length ps) in
  let b := BatchLoader.batch self in
  batch_len <$> nexts (length (batches_of n b)) self = batches_of n b
  /\ Z.of_nat (length (batches_of n b)) = (n + b - 1) / b + 1
  /\ (forall l, Loader.__len__ (BatchLoader.loader self) = Return l ->
                0 <= l < 2 ^ 53 -> b < 2 ^ 53 ->
                BatchLoader.__len__ self = Return ((l + b - 1) / b)).
Proof.
  intros Hb Hfeeds Hps n b. split; [|split].
  - by apply (nexts_spec sh_hr sh_lr (length ps)).
  - apply batches_of_length; lia.
  - intros l Hl Hl53 Hb53. apply batch_loader_len; [fold b; lia|done|done].
Qed.

Lemma batch_loader_batches_witness :
  let n := Z.of_nat (length ten_patches) in
  let b := BatchLoader.batch example_batch_loader in
  batch_len <$> nexts (length (batches_of n b)) example_batch_loader = batches_of n b
  /\ Z.of_nat (length (batches_of n b)) = (n + b - 1) / b + 1
  /\ (forall l, Loader.__len__ (BatchLoader.loader example_batch_loader) = Return l ->
                0 <= l < 2 ^ 53 -> b < 2 ^ 53 ->
                BatchLoader.__len__ example_batch_loader = Return ((l + b - 1) / b)).
Proof.
  apply (batch_loader_batches example_batch_loader ten_patches [1; 4; 4; 1] [1; 2; 2; 1]).
  - simpl; lia.
  - reflexivity.
  - repeat (apply Forall_cons_2; [eexists _, _; repeat split; reflexivity|]).
    apply Forall_nil_2.
Defined.

Example example_batch_loader_len :
  length ten_patches = 10%nat
  /\ Loader.__len__ (BatchLoader.loader example_batch_loader) = Return 10
  /\ BatchLoader.__len__ example_batch_loader = Return 3.
Proof. by vm_compute. Qed.

Example ten_patches_in_batches_of_four :
  batch_len <$> nexts 4 example_batch_loader
  = [Return (Some 4, Some 4); Return (Some 4, Some 4); Return (Some 2, Some 2);
     Raise StopIteration].
Proof. reflexivity. Qed.

Example batch_loader_len_loses_precision :
  let loader := Loader.mk 1 "pil-image" (Some [still "a"]) (Pair 4 4) (Pair 2 2)
                          (Pair 4 4) (Scalar 1) None false true (2 ^ 54 + 1) false in
  Loader.__len__ loader = Return (2 ^ 54 + 1)
  /\ BatchLoader.__len__ (BatchLoader.mk loader 2 true) = Return (2 ^ 53)
  /\ (2 ^ 54 + 1 + 2 - 1) / 2 = 2 ^ 53 + 1.
Proof. by vm_compute. Qed.
